(** * RSA PKCS#1 v1.5 padding template (crypto/rsa-pkcs1pad.c)

    A shallow embedding of the padding layer: the DigestInfo table, the
    four request entry points, their completion handlers and the two
    key setters.  C integers are [Z] with the wrap-around of
    [unsigned int] written out, buffers are lists of bytes, and an
    access outside an allocation (undefined behaviour in C) makes the
    embedded function return [None]. *)

From Stdlib Require Import ZArith String Lia.
From stdpp Require Import base option list numbers.

Local Open Scope Z_scope.

(** ** Machine integers *)

Definition u32 (x : Z) : Z := x mod 2 ^ 32.
Definition u8 (x : Z) : Z := x mod 256.

(** The conversion of an [unsigned int] to [int]: the values from 2^31
    on come out negative. *)
Definition s32 (x : Z) : Z := (x + 2 ^ 31) mod 2 ^ 32 - 2 ^ 31.

(** ** Constants of the kernel headers

    Error numbers of include/uapi/asm-generic/errno-base.h, errno.h and
    include/linux/errno.h, request flags of include/linux/crypto.h. *)

Definition ENOMEM : Z := 12.
Definition EBUSY : Z := 16.
Definition EINVAL : Z := 22.
Definition EBADMSG : Z := 74.
Definition EOVERFLOW : Z := 75.
Definition EINPROGRESS : Z := 115.
Definition ENOTSUPP : Z := 524.

Definition CRYPTO_TFM_REQ_MAY_BACKLOG : Z := 0x400.
Definition CRYPTO_TFM_REQ_MAY_SLEEP : Z := 0x200.

(** ** Hash algorithm OIDs plus ASN.1 DER wrappings *)

Definition rsa_digest_info_md5 : list Z :=
  [ 0x30; 0x20; 0x30; 0x0c; 0x06; 0x08;
    0x2a; 0x86; 0x48; 0x86; 0xf7; 0x0d; 0x02; 0x05;
    0x05; 0x00; 0x04; 0x10 ].

Definition rsa_digest_info_sha1 : list Z :=
  [ 0x30; 0x21; 0x30; 0x09; 0x06; 0x05;
    0x2b; 0x0e; 0x03; 0x02; 0x1a;
    0x05; 0x00; 0x04; 0x14 ].

Definition rsa_digest_info_rmd160 : list Z :=
  [ 0x30; 0x21; 0x30; 0x09; 0x06; 0x05;
    0x2b; 0x24; 0x03; 0x02; 0x01;
    0x05; 0x00; 0x04; 0x14 ].

Definition rsa_digest_info_sha224 : list Z :=
  [ 0x30; 0x2d; 0x30; 0x0d; 0x06; 0x09;
    0x60; 0x86; 0x48; 0x01; 0x65; 0x03; 0x04; 0x02; 0x04;
    0x05; 0x00; 0x04; 0x1c ].

Definition rsa_digest_info_sha256 : list Z :=
  [ 0x30; 0x31; 0x30; 0x0d; 0x06; 0x09;
    0x60; 0x86; 0x48; 0x01; 0x65; 0x03; 0x04; 0x02; 0x01;
    0x05; 0x00; 0x04; 0x20 ].

Definition rsa_digest_info_sha384 : list Z :=
  [ 0x30; 0x41; 0x30; 0x0d; 0x06; 0x09;
    0x60; 0x86; 0x48; 0x01; 0x65; 0x03; 0x04; 0x02; 0x02;
    0x05; 0x00; 0x04; 0x30 ].

Definition rsa_digest_info_sha512 : list Z :=
  [ 0x30; 0x51; 0x30; 0x0d; 0x06; 0x09;
    0x60; 0x86; 0x48; 0x01; 0x65; 0x03; 0x04; 0x02; 0x03;
    0x05; 0x00; 0x04; 0x40 ].

Record rsa_asn1_template := {
  name : string;
  data : list Z;
  size : Z
}.

(** The macro [_(X)] of the table: name, bytes and [sizeof] of the bytes. *)
Definition mk_template (n : string) (d : list Z) : rsa_asn1_template :=
  {| name := n; data := d; size := Z.of_nat (length d) |}.

Definition rsa_asn1_templates : list rsa_asn1_template :=
  [ mk_template "md5" rsa_digest_info_md5;
    mk_template "sha1" rsa_digest_info_sha1;
    mk_template "rmd160" rsa_digest_info_rmd160;
    mk_template "sha256" rsa_digest_info_sha256;
    mk_template "sha384" rsa_digest_info_sha384;
    mk_template "sha512" rsa_digest_info_sha512;
    mk_template "sha224" rsa_digest_info_sha224 ].

(** The scan [for (p = rsa_asn1_templates; p->name; p++)]. *)
Fixpoint lookup_from (p : list rsa_asn1_template) (n : string)
  : option rsa_asn1_template :=
  match p with
  | [] => None
  | t :: p' => if String.eqb n (name t) then Some t else lookup_from p' n
  end.

Definition rsa_lookup_asn1 (n : string) : option rsa_asn1_template :=
  lookup_from rsa_asn1_templates n.

(** ** Buffers

    A buffer is the list of the bytes of one allocation; its length is
    the allocated size.  Reads and writes at an index outside it yield
    [None]. *)

Definition load (buf : list Z) (i : Z) : option Z :=
  if 0 <=? i then buf !! Z.to_nat i else None.

Definition store (buf : list Z) (i v : Z) : option (list Z) :=
  if (0 <=? i) && (i <? Z.of_nat (length buf))
  then Some (<[Z.to_nat i := v]> buf) else None.

(** [memset(buf + off, v, n)] *)
Definition memset (buf : list Z) (off v n : Z) : option (list Z) :=
  if (0 <=? off) && (0 <=? n) && (off + n <=? Z.of_nat (length buf))
  then Some (take (Z.to_nat off) buf ++ replicate (Z.to_nat n) v
             ++ drop (Z.to_nat (off + n)) buf)
  else None.

(** [memcpy(buf + off, from, n)] *)
Definition memcpy (buf : list Z) (off : Z) (from : list Z) (n : Z)
  : option (list Z) :=
  if (0 <=? off) && (0 <=? n) && (off + n <=? Z.of_nat (length buf))
     && (n <=? Z.of_nat (length from))
  then Some (take (Z.to_nat off) buf ++ take (Z.to_nat n) from
             ++ drop (Z.to_nat (off + n)) buf)
  else None.

(** [memcmp(buf + pos, with, n) != 0], as the byte loop of lib/string.c:
    it stops at the first difference. *)
Fixpoint memcmp_ne (buf : list Z) (pos : Z) (pat : list Z) (n : nat)
  : option bool :=
  match n with
  | O => Some false
  | S n' =>
      match pat with
      | [] => None
      | d :: pat' =>
          b ← load buf pos;
          if b =? d then memcmp_ne buf (pos + 1) pat' n' else Some true
      end
  end.

(** ** Scatterlists

    A scatterlist is the list of its segments.  [sg_bytes sg n] is the
    logical stream of the first [n] bytes, which is what a consumer of
    [(sg, n)] reads; none if the chain is shorter. *)

Definition scatterlist := list (list Z).

Definition sg_bytes (sg : scatterlist) (n : Z) : option (list Z) :=
  if (0 <=? n) && (n <=? Z.of_nat (length (concat sg)))
  then Some (take (Z.to_nat n) (concat sg)) else None.

(** [sg_pcopy_from_buffer(sgl, nents, buf, buflen, skip)] on a flat
    destination: the copy stops at the end of the destination. *)
Definition sg_pcopy_from_buffer (sgl buf : list Z) (buflen skip : Z)
  : option (list Z) :=
  if (0 <=? buflen) && (buflen <=? Z.of_nat (length buf)) && (0 <=? skip)
  then Some (take (Z.to_nat skip) sgl
             ++ take (length sgl - Z.to_nat skip)%nat (take (Z.to_nat buflen) buf)
             ++ drop (Z.to_nat (skip + buflen)) sgl)
  else None.

Definition sg_copy_from_buffer (sgl buf : list Z) (buflen : Z)
  : option (list Z) :=
  sg_pcopy_from_buffer sgl buf buflen 0.

(** ** Requests and transform state *)

Inductive akcipher_op := OpEncrypt | OpDecrypt | OpSign | OpVerify.

(** The allocation mode handed to [kmalloc]. *)
Inductive gfp := GFP_KERNEL | GFP_ATOMIC.

(** What the run has done outside the request: allocations, releases,
    calls of the inner engine (with the byte stream it was handed and the
    lengths of the child request) and calls of the caller's completion
    callback [req->base.complete]. *)
Inductive event :=
| EvKmalloc (n : Z) (flag : gfp)
| EvKfree
| EvKzfree
| EvChild (op : akcipher_op) (bytes : list Z) (srclen dstlen : Z)
| EvComplete (err : Z).

(** [struct akcipher_request] of the caller; [dst] is the flat content of
    the destination scatterlist. *)
Record akcipher_request := {
  src : scatterlist;
  src_len : Z;
  dst : list Z;
  dst_len : Z;
  flags : Z
}.

(** [struct pkcs1pad_request]: the child request's source chain and
    lengths, and the two working buffers ([None]: not allocated or
    released).  The child's destination [out_sg] is a view of [out_buf],
    so the engine's output is kept in [out_buf]. *)
Record pkcs1pad_request := {
  child_src : scatterlist;
  child_src_len : Z;
  child_dst_len : Z;
  in_buf : option (list Z);
  out_buf : option (list Z)
}.

(** What one call of the inner engine answers: the value the call
    returns, the error it hands to the completion callback later when
    the call returned while still working, and what it leaves in the
    child request: [dst_len] and the bytes written to the destination. *)
Record child_reply := {
  rc : Z;
  late : Z;
  r_dst_len : Z;
  r_out : list Z
}.

(** A pointer returned by [kmalloc]: its offset in its page and the bytes
    the fresh memory happens to hold. *)
Record kbuf := {
  page_offset : Z;
  garbage : nat -> Z
}.

(** The choices of the environment during one submission: the results of
    the two [kmalloc] calls ([None] for NULL) and the values returned by
    the successive calls of [prandom_u32_max(255)]. *)
Record oracle := {
  in_alloc : option kbuf;
  out_alloc : option kbuf;
  prandom : nat -> Z
}.

Definition fresh (b : kbuf) (n : Z) : list Z :=
  map (garbage b) (seq 0 (Z.to_nat n)).

(** The engine writes its output at the start of the destination. *)
Definition engine_writes (out old : list Z) : list Z :=
  take (length old) out ++ drop (length out) old.

Section Pkcs1pad.

(** The page size of the target, and the inner transform: its state [T]
    and its operations, which see the logical source bytes, the
    destination capacity and the request flags. *)
Variable PAGE_SIZE : Z.
Context {T : Type}.
Variable crypto_akcipher_set_pub_key : T -> list Z -> Z -> Z * T.
Variable crypto_akcipher_set_priv_key : T -> list Z -> Z -> Z * T.
Variable crypto_akcipher_maxsize : T -> Z.
Variable crypto_akcipher_encrypt : T -> list Z -> Z -> Z -> child_reply.
Variable crypto_akcipher_decrypt : T -> list Z -> Z -> Z -> child_reply.
Variable crypto_akcipher_sign : T -> list Z -> Z -> Z -> child_reply.
Variable crypto_akcipher_verify : T -> list Z -> Z -> Z -> child_reply.

Record pkcs1pad_ctx := {
  child : T;
  hash_name : option string;
  key_size : Z
}.

(** The state of one request on one transform.  [inflight] belongs to
    the inner engine: the error it passes to the completion callback of
    the child request when its call returned before the work was done. *)
Record machine := {
  ctx : pkcs1pad_ctx;
  req : akcipher_request;
  req_ctx : pkcs1pad_request;
  trace : list event;
  inflight : option Z
}.

(** *** Field updates *)

Definition with_dst_len (n : Z) (st : machine) : machine :=
  {| ctx := ctx st;
     req := {| src := src (req st); src_len := src_len (req st);
               dst := dst (req st); dst_len := n; flags := flags (req st) |};
     req_ctx := req_ctx st; trace := trace st;
     inflight := inflight st |}.

Definition with_dst (d : list Z) (st : machine) : machine :=
  {| ctx := ctx st;
     req := {| src := src (req st); src_len := src_len (req st);
               dst := d; dst_len := dst_len (req st); flags := flags (req st) |};
     req_ctx := req_ctx st; trace := trace st;
     inflight := inflight st |}.

Definition with_req_ctx (r : pkcs1pad_request) (st : machine) : machine :=
  {| ctx := ctx st; req := req st; req_ctx := r; trace := trace st;
     inflight := inflight st |}.

Definition with_child (s : scatterlist) (sl dl : Z) (st : machine) : machine :=
  with_req_ctx {| child_src := s; child_src_len := sl; child_dst_len := dl;
                  in_buf := in_buf (req_ctx st);
                  out_buf := out_buf (req_ctx st) |} st.

Definition with_child_dst_len (dl : Z) (st : machine) : machine :=
  with_child (child_src (req_ctx st)) (child_src_len (req_ctx st)) dl st.

Definition with_in_buf (b : option (list Z)) (st : machine) : machine :=
  with_req_ctx {| child_src := child_src (req_ctx st);
                  child_src_len := child_src_len (req_ctx st);
                  child_dst_len := child_dst_len (req_ctx st);
                  in_buf := b; out_buf := out_buf (req_ctx st) |} st.

Definition with_out_buf (b : option (list Z)) (st : machine) : machine :=
  with_req_ctx {| child_src := child_src (req_ctx st);
                  child_src_len := child_src_len (req_ctx st);
                  child_dst_len := child_dst_len (req_ctx st);
                  in_buf := in_buf (req_ctx st); out_buf := b |} st.

Definition log (e : event) (st : machine) : machine :=
  {| ctx := ctx st; req := req st; req_ctx := req_ctx st;
     trace := trace st ++ [e]; inflight := inflight st |}.

Definition with_inflight (e : option Z) (st : machine) : machine :=
  {| ctx := ctx st; req := req st; req_ctx := req_ctx st;
     trace := trace st; inflight := e |}.

(** *** Key installation *)

Definition pkcs1pad_set_pub_key (c : pkcs1pad_ctx) (key : list Z) (keylen : Z)
  : Z * pkcs1pad_ctx :=
  let '(err, ch) := crypto_akcipher_set_pub_key (child c) key keylen in
  if err =? 0 then
    (* Find out new modulus size from rsa implementation *)
    let size := crypto_akcipher_maxsize ch in
    let c' := {| child := ch; hash_name := hash_name c;
                 key_size := if 0 <? size then size else 0 |} in
    if size <=? 0 then (size, c') else (err, c')
  else
    (err, {| child := ch; hash_name := hash_name c; key_size := key_size c |}).

Definition pkcs1pad_set_priv_key (c : pkcs1pad_ctx) (key : list Z) (keylen : Z)
  : Z * pkcs1pad_ctx :=
  let '(err, ch) := crypto_akcipher_set_priv_key (child c) key keylen in
  if err =? 0 then
    (* Find out new modulus size from rsa implementation *)
    let size := crypto_akcipher_maxsize ch in
    let c' := {| child := ch; hash_name := hash_name c;
                 key_size := if 0 <? size then size else 0 |} in
    if size <=? 0 then (size, c') else (err, c')
  else
    (err, {| child := ch; hash_name := hash_name c; key_size := key_size c |}).

(** [return ctx->key_size ?: -EINVAL;] in a function that returns
    [int]: the conditional is computed in [unsigned int], the type of
    [key_size], and converted on return. *)
Definition pkcs1pad_get_max_size (c : pkcs1pad_ctx) : Z :=
  s32 (if key_size c =? 0 then u32 (- EINVAL) else key_size c).

(** *** Buffer plumbing *)

(** [pkcs1pad_sg_set_buf(sg, buf, len, next)] for a buffer at page
    offset [off]: one segment, or two when the buffer crosses the page
    boundary, chained to [next] when there is one. *)
Definition pkcs1pad_sg_set_buf (off : Z) (buf : list Z) (len : Z)
    (next : option scatterlist) : scatterlist :=
  let segs :=
    if off + len <=? PAGE_SIZE then [take (Z.to_nat len) buf]
    else [take (Z.to_nat (PAGE_SIZE - off)) buf;
          take (Z.to_nat (off + len - PAGE_SIZE))
               (drop (Z.to_nat (PAGE_SIZE - off)) buf)] in
  match next with
  | Some n => segs ++ n
  | None => segs
  end.

(** *** Completion of encrypt and sign *)

(** The zero fill of the first [pad_len] bytes of the destination; the
    loop of the source does not end when the destination is shorter. *)
Definition zero_fill (d : list Z) (pad_len : Z) : option (list Z) :=
  if pad_len <=? Z.of_nat (length d)
  then Some (replicate (Z.to_nat pad_len) 0 ++ drop (Z.to_nat pad_len) d)
  else None.

Definition pkcs1pad_encrypt_sign_complete (st : machine) (err : Z)
  : option (Z * machine) :=
  let k := key_size (ctx st) in
  let cdl := child_dst_len (req_ctx st) in
  let pad_len := u32 (k - cdl) in
  st1 ←
    (if err =? 0 then
       d1 ← (if pad_len =? 0 then Some (dst (req st))
              else zero_fill (dst (req st)) pad_len);
       out ← out_buf (req_ctx st);
       d2 ← sg_pcopy_from_buffer d1 out cdl pad_len;
       Some (with_dst d2 st)
     else Some st);
  let st2 := with_dst_len k st1 in
  let st3 := log EvKfree (with_in_buf None st2) in
  let st4 := log EvKzfree (with_out_buf None st3) in
  Some (err, st4).

Definition pkcs1pad_encrypt_sign_complete_cb (st : machine) (err : Z)
  : option machine :=
  if err =? - EINPROGRESS then Some st
  else
    '(e, st') ← pkcs1pad_encrypt_sign_complete st err;
    Some (log (EvComplete e) st').

(** The test made after every call of the inner engine: the completion
    runs now unless the engine is still working on the request. *)
Definition completes_now (err fl : Z) : bool :=
  negb (err =? - EINPROGRESS)
  && (negb (err =? - EBUSY)
      || (Z.land fl CRYPTO_TFM_REQ_MAY_BACKLOG =? 0)).

(** [(req->base.flags & CRYPTO_TFM_REQ_MAY_SLEEP) ? GFP_KERNEL : GFP_ATOMIC] *)
Definition gfp_of (fl : Z) : gfp :=
  if Z.land fl CRYPTO_TFM_REQ_MAY_SLEEP =? 0 then GFP_ATOMIC else GFP_KERNEL.

(** *** Completion of decrypt *)

(** The loop [for (pos = 1; pos < dst_len; pos++) if (buf[pos] == 0x00)
    break;] with [n] the number of positions left before [dst_len]. *)
Fixpoint scan_zero (n : nat) (pos : Z) (buf : list Z) : option Z :=
  match n with
  | O => Some pos
  | S n' =>
      b ← load buf pos;
      if b =? 0x00 then Some pos else scan_zero n' (pos + 1) buf
  end.

(** The tail shared by decrypt and verify once the payload starts at
    [pos]: report its length, and copy it out when the caller's buffer
    can hold it. *)
Definition deliver (st : machine) (out : list Z) (err pos : Z)
  : option (Z * machine) :=
  let cdl := child_dst_len (req_ctx st) in
  let err' := if dst_len (req st) <? u32 (cdl - pos) then - EOVERFLOW else err in
  let st1 := with_dst_len (u32 (cdl - pos)) st in
  if err' =? 0 then
    d ← sg_copy_from_buffer (dst (req st1)) (drop (Z.to_nat pos) out)
                            (dst_len (req st1));
    Some (err', with_dst d st1)
  else Some (err', st1).

(** [done: kzfree(req_ctx->out_buf); return err;] *)
Definition done (r : Z * machine) : Z * machine :=
  (r.1, log EvKzfree (with_out_buf None r.2)).

Definition pkcs1pad_decrypt_complete (st : machine) (err : Z)
  : option (Z * machine) :=
  let k := key_size (ctx st) in
  let cdl := child_dst_len (req_ctx st) in
  (* Decrypted value had no leading 0 byte *)
  let err := if err =? - EOVERFLOW then - EINVAL else err in
  if negb (err =? 0) then Some (done (err, st)) else
  if negb (cdl =? u32 (k - 1)) then Some (done (- EINVAL, st)) else
  out ← out_buf (req_ctx st);
  b0 ← load out 0;
  if negb (b0 =? 0x02) then Some (done (- EINVAL, st)) else
  pos ← scan_zero (Z.to_nat (cdl - 1)) 1 out;
  if (pos <? 9) || (pos =? cdl) then Some (done (- EINVAL, st)) else
  let pos := u32 (pos + 1) in
  r ← deliver st out err pos;
  Some (done r).

Definition pkcs1pad_decrypt_complete_cb (st : machine) (err : Z)
  : option machine :=
  if err =? - EINPROGRESS then Some st
  else
    '(e, st') ← pkcs1pad_decrypt_complete st err;
    Some (log (EvComplete e) st').

(** *** Completion of verify *)

(** The loop [for (pos = 1; pos < dst_len; pos++) if (buf[pos] != 0xff)
    break;]. *)
Fixpoint scan_ff (n : nat) (pos : Z) (buf : list Z) : option Z :=
  match n with
  | O => Some pos
  | S n' =>
      b ← load buf pos;
      if negb (b =? 0xff) then Some pos else scan_ff n' (pos + 1) buf
  end.

Definition pkcs1pad_verify_complete (st : machine) (err : Z)
  : option (Z * machine) :=
  let k := key_size (ctx st) in
  let cdl := child_dst_len (req_ctx st) in
  (* Decrypted value had no leading 0 byte *)
  let err := if err =? - EOVERFLOW then - EINVAL else err in
  if negb (err =? 0) then Some (done (err, st)) else
  if negb (cdl =? u32 (k - 1)) then Some (done (- EINVAL, st)) else
  let err := - EBADMSG in
  out ← out_buf (req_ctx st);
  b0 ← load out 0;
  if negb (b0 =? 0x01) then Some (done (err, st)) else
  pos ← scan_ff (Z.to_nat (cdl - 1)) 1 out;
  bad ← (if (pos <? 9) || (pos =? cdl) then Some true
         else b ← load out pos; Some (negb (b =? 0x00)));
  if bad : bool then Some (done (err, st)) else
  let pos := u32 (pos + 1) in
  match hash_name (ctx st) with
  | Some h =>
      match rsa_lookup_asn1 h with
      | None => Some (done (err, st))
      | Some digest_info =>
          ne ← memcmp_ne out pos (data digest_info)
                          (Z.to_nat (size digest_info));
          if ne : bool then Some (done (err, st)) else
          r ← deliver st out 0 (u32 (pos + size digest_info));
          Some (done r)
      end
  | None =>
      r ← deliver st out 0 pos;
      Some (done r)
  end.

Definition pkcs1pad_verify_complete_cb (st : machine) (err : Z)
  : option machine :=
  if err =? - EINPROGRESS then Some st
  else
    '(e, st') ← pkcs1pad_verify_complete st err;
    Some (log (EvComplete e) st').

(** *** Submission *)

(** A call [crypto_akcipher_<op>(&req_ctx->child_req)]: the engine [f]
    reads the source chain, answers, and leaves its output in [out_buf]
    and its length in the child request. *)
Definition call_child (op : akcipher_op)
    (f : T -> list Z -> Z -> Z -> child_reply) (st : machine)
  : option (Z * machine) :=
  let rc_ := req_ctx st in
  bytes ← sg_bytes (child_src rc_) (child_src_len rc_);
  out ← out_buf rc_;
  let rep := f (child (ctx st)) bytes (child_dst_len rc_) (flags (req st)) in
  let st1 := log (EvChild op bytes (child_src_len rc_) (child_dst_len rc_)) st in
  let st2 := with_child_dst_len (r_dst_len rep) st1 in
  let st3 := with_out_buf (Some (engine_writes (r_out rep) out)) st2 in
  Some (rc rep, with_inflight (Some (late rep)) st3).

(** The loop [for (i = 1; i < ps_end; i++) in_buf[i] = 1 +
    prandom_u32_max(255);] with [n] the number of indices left. *)
Fixpoint fill_ps (n : nat) (i : Z) (rnd : nat -> Z) (buf : list Z)
  : option (list Z) :=
  match n with
  | O => Some buf
  | S n' =>
      b ← store buf i (u8 (1 + rnd (Z.to_nat (i - 1))));
      fill_ps n' (i + 1) rnd b
  end.

Definition pkcs1pad_encrypt (o : oracle) (st : machine)
  : option (Z * machine) :=
  let k := key_size (ctx st) in
  let r := req st in
  if k =? 0 then Some (- EINVAL, st) else
  if u32 (k - 11) <? src_len r then Some (- EOVERFLOW, st) else
  if dst_len r <? k then Some (- EOVERFLOW, with_dst_len k st) else
  if PAGE_SIZE <? k then Some (- ENOTSUPP, st) else
  (* Replace both input and output to add the padding in the input and
     the potential missing leading zeros in the output. *)
  let st := with_child (child_src (req_ctx st)) (u32 (k - 1)) k st in
  let n_in := u32 (k - 1 - src_len r) in
  let st := log (EvKmalloc n_in (gfp_of (flags r))) st in
  match in_alloc o with
  | None => Some (- ENOMEM, st)
  | Some ka =>
      let ps_end := u32 (k - src_len r - 2) in
      b ← store (fresh ka n_in) 0 0x02;
      b ← fill_ps (Z.to_nat (ps_end - 1)) 1 (prandom o) b;
      b ← store b ps_end 0x00;
      let st := with_in_buf (Some b) st in
      let in_sg := pkcs1pad_sg_set_buf (page_offset ka) b n_in (Some (src r)) in
      let st := with_child in_sg (u32 (k - 1)) k st in
      let st := log (EvKmalloc k (gfp_of (flags r))) st in
      match out_alloc o with
      | None => Some (- ENOMEM, log EvKfree (with_in_buf None st))
      | Some kb =>
          let st := with_out_buf (Some (fresh kb k)) st in
          '(err, st) ← call_child OpEncrypt crypto_akcipher_encrypt st;
          if completes_now err (flags r)
          then pkcs1pad_encrypt_sign_complete st err
          else Some (err, st)
      end
  end.

Definition pkcs1pad_decrypt (o : oracle) (st : machine)
  : option (Z * machine) :=
  let k := key_size (ctx st) in
  let r := req st in
  if (k =? 0) || negb (src_len r =? k) then Some (- EINVAL, st) else
  if PAGE_SIZE <? k then Some (- ENOTSUPP, st) else
  (* Reuse input buffer, output to a new buffer *)
  let st := with_child (src r) (src_len r) k st in
  let st := log (EvKmalloc k (gfp_of (flags r))) st in
  match out_alloc o with
  | None => Some (- ENOMEM, st)
  | Some kb =>
      let st := with_out_buf (Some (fresh kb k)) st in
      '(err, st) ← call_child OpDecrypt crypto_akcipher_decrypt st;
      if completes_now err (flags r)
      then pkcs1pad_decrypt_complete st err
      else Some (err, st)
  end.

(** The body of sign once [digest_info] and [digest_size] are known. *)
Definition sign_with (digest_info : option rsa_asn1_template)
    (digest_size : Z) (o : oracle) (st : machine) : option (Z * machine) :=
  let k := key_size (ctx st) in
  let r := req st in
  if u32 (k - 11) <? u32 (src_len r + digest_size)
  then Some (- EOVERFLOW, st) else
  if dst_len r <? k then Some (- EOVERFLOW, with_dst_len k st) else
  if PAGE_SIZE <? k then Some (- ENOTSUPP, st) else
  let st := with_child (child_src (req_ctx st)) (u32 (k - 1)) k st in
  let n_in := u32 (k - 1 - src_len r) in
  let st := log (EvKmalloc n_in (gfp_of (flags r))) st in
  match in_alloc o with
  | None => Some (- ENOMEM, st)
  | Some ka =>
      let ps_end := u32 (k - digest_size - src_len r - 2) in
      b ← store (fresh ka n_in) 0 0x01;
      b ← memset b 1 0xff (u32 (ps_end - 1));
      b ← store b ps_end 0x00;
      b ← match digest_info with
           | Some di => memcpy b (ps_end + 1) (data di) (size di)
           | None => Some b
           end;
      let st := with_in_buf (Some b) st in
      let in_sg := pkcs1pad_sg_set_buf (page_offset ka) b n_in (Some (src r)) in
      let st := with_child in_sg (u32 (k - 1)) k st in
      let st := log (EvKmalloc k (gfp_of (flags r))) st in
      match out_alloc o with
      | None => Some (- ENOMEM, log EvKfree (with_in_buf None st))
      | Some kb =>
          let st := with_out_buf (Some (fresh kb k)) st in
          '(err, st) ← call_child OpSign crypto_akcipher_sign st;
          if completes_now err (flags r)
          then pkcs1pad_encrypt_sign_complete st err
          else Some (err, st)
      end
  end.

Definition pkcs1pad_sign (o : oracle) (st : machine)
  : option (Z * machine) :=
  if key_size (ctx st) =? 0 then Some (- EINVAL, st) else
  match hash_name (ctx st) with
  | Some h =>
      match rsa_lookup_asn1 h with
      | None => Some (- EINVAL, st)
      | Some digest_info => sign_with (Some digest_info) (size digest_info) o st
      end
  | None => sign_with None 0 o st
  end.

Definition pkcs1pad_verify (o : oracle) (st : machine)
  : option (Z * machine) :=
  let k := key_size (ctx st) in
  let r := req st in
  if (k =? 0) || (src_len r <? k) then Some (- EINVAL, st) else
  if PAGE_SIZE <? k then Some (- ENOTSUPP, st) else
  (* Reuse input buffer, output to a new buffer *)
  let st := with_child (src r) (src_len r) k st in
  let st := log (EvKmalloc k (gfp_of (flags r))) st in
  match out_alloc o with
  | None => Some (- ENOMEM, st)
  | Some kb =>
      let st := with_out_buf (Some (fresh kb k)) st in
      '(err, st) ← call_child OpVerify crypto_akcipher_verify st;
      if completes_now err (flags r)
      then pkcs1pad_verify_complete st err
      else Some (err, st)
  end.

(** *** The caller's view of one operation

    The status the caller ends up with: the value [submit] returns when
    the completion ran before it returned, otherwise the value handed to
    [req->base.complete] once the engine has called the child request's
    callback [cb]. *)
Definition final_status (st : machine) : option Z :=
  match list.last (trace st) with
  | Some (EvComplete e) => Some e
  | _ => None
  end.

Definition perform (submit : oracle -> machine -> option (Z * machine))
    (cb : machine -> Z -> option machine) (o : oracle) (st : machine)
  : option (Z * machine) :=
  '(ret, st1) ← submit o st;
  if completes_now ret (flags (req st)) then Some (ret, st1)
  else
    e ← inflight st1;
    st2 ← cb st1 e;
    s ← final_status st2;
    Some (s, st2).

(** The error that reaches the completion handler for a reply: the
    returned value when the handler runs at once, otherwise the one the
    engine reports later. *)
Definition settled (fl : Z) (rep : child_reply) : Z :=
  if completes_now (rc rep) fl then rc rep else late rep.

End Pkcs1pad.

Arguments pkcs1pad_ctx : clear implicits.
Arguments machine : clear implicits.

(** ** Registration of an instance

    [pkcs1pad_create] builds the instance "pkcs1pad(<rsa>)" or
    "pkcs1pad(<rsa>,<hash>)" on top of an inner algorithm and registers
    it.  What it is told by the crypto API is the environment
    [create_env]; what it holds when it returns is the [registry]. *)

Definition ENAMETOOLONG : Z := 36.

(** include/linux/crypto.h *)
Definition CRYPTO_ALG_TYPE_AKCIPHER : Z := 0x0000000d.
Definition CRYPTO_ALG_ASYNC : Z := 0x00000080.

(** The fields of [struct akcipher_alg] (with its [base]) that
    [pkcs1pad_create] reads or writes; the handlers it stores in the
    instance are the functions of this file. *)
Record akcipher_alg := {
  cra_name : string;
  cra_driver_name : string;
  cra_flags : Z;
  cra_priority : Z;
  cra_ctxsize : Z;
  reqsize : Z
}.

(** [struct akcipher_instance] with its [struct pkcs1pad_inst_ctx]. *)
Record akcipher_instance := {
  alg : akcipher_alg;
  inst_hash_name : option string
}.

(** The answers of the crypto API and of the allocator to one call of
    [pkcs1pad_create]: pointers that may be errors are sums, with the
    error number on the left. *)
Record create_env := {
  crypto_get_attr_type : Z + Z * Z;
  attr_alg_name_1 : Z + string;
  attr_alg_name_2 : Z + string;
  kzalloc_inst : bool;
  kstrdup_name : bool;
  crypto_grab_akcipher : string -> Z -> Z -> Z * akcipher_alg;
  akcipher_register_instance : akcipher_instance -> Z
}.

(** What the call holds: the instance, the copy of the hash name, the
    spawn on the inner algorithm, and the instance it has registered. *)
Record registry := {
  inst_allocated : bool;
  name_allocated : bool;
  spawn_grabbed : bool;
  registered : option akcipher_instance
}.

(** [snprintf(buf, size, ...)] for the formatted text [text]: the
    length of [text] is returned, and [buf] receives the characters that
    fit in front of the terminating NUL. *)
Definition snprintf (size : Z) (text : string) : Z * string :=
  (Z.of_nat (String.length text), substring 0 (Z.to_nat (size - 1)) text).

Section Registration.

Variable CRYPTO_MAX_ALG_NAME : Z.
Variable sizeof_pkcs1pad_ctx : Z.
Variable sizeof_pkcs1pad_request : Z.
Variable crypto_requires_sync : Z -> Z -> Z.

(** The labels at the end of [pkcs1pad_create]. *)
Definition out_free_inst (err : Z) (s : registry) : Z * registry :=
  (err, {| inst_allocated := false; name_allocated := name_allocated s;
           spawn_grabbed := spawn_grabbed s; registered := registered s |}).

Definition out_drop_alg (err : Z) (s : registry) : Z * registry :=
  out_free_inst err
    {| inst_allocated := inst_allocated s; name_allocated := name_allocated s;
       spawn_grabbed := false; registered := registered s |}.

Definition out_free_hash (err : Z) (s : registry) : Z * registry :=
  out_drop_alg err
    {| inst_allocated := inst_allocated s; name_allocated := false;
       spawn_grabbed := spawn_grabbed s; registered := registered s |}.

Definition pkcs1pad_create (e : create_env) : Z * registry :=
  let s := {| inst_allocated := false; name_allocated := false;
              spawn_grabbed := false; registered := None |} in
  match crypto_get_attr_type e with
  | inl err => (err, s)
  | inr (type, mask) =>
  if negb (Z.land (Z.lxor type CRYPTO_ALG_TYPE_AKCIPHER) mask =? 0)
  then (- EINVAL, s) else
  match attr_alg_name_1 e with
  | inl err => (err, s)
  | inr rsa_alg_name =>
  let hash_name := match attr_alg_name_2 e with
                   | inl _ => None
                   | inr h => Some h
                   end in
  if negb (kzalloc_inst e) then (- ENOMEM, s) else
  let ctx_hash_name := match hash_name with
                       | Some h => if kstrdup_name e then Some h else None
                       | None => None
                       end in
  let s := {| inst_allocated := true;
              name_allocated := match ctx_hash_name with
                                | Some _ => true
                                | None => false
                                end;
              spawn_grabbed := false; registered := None |} in
  let '(err, rsa_alg) :=
    crypto_grab_akcipher e rsa_alg_name 0 (crypto_requires_sync type mask) in
  if negb (err =? 0) then out_free_inst err s else
  let s := {| inst_allocated := true; name_allocated := name_allocated s;
              spawn_grabbed := true; registered := None |} in
  let err := - ENAMETOOLONG in
  let names :=
    match hash_name with
    | None =>
        let a := snprintf CRYPTO_MAX_ALG_NAME
                   ("pkcs1pad(" ++ cra_name rsa_alg ++ ")")%string in
        let b := snprintf CRYPTO_MAX_ALG_NAME
                   ("pkcs1pad(" ++ cra_driver_name rsa_alg ++ ")")%string in
        if (CRYPTO_MAX_ALG_NAME <=? a.1) || (CRYPTO_MAX_ALG_NAME <=? b.1)
        then inl (out_drop_alg err s) else inr (a.2, b.2)
    | Some h =>
        let a := snprintf CRYPTO_MAX_ALG_NAME
                   ("pkcs1pad(" ++ cra_name rsa_alg ++ "," ++ h ++ ")")%string in
        let b := snprintf CRYPTO_MAX_ALG_NAME
                   ("pkcs1pad(" ++ cra_driver_name rsa_alg ++ "," ++ h
                    ++ ")")%string in
        if (CRYPTO_MAX_ALG_NAME <=? a.1) || (CRYPTO_MAX_ALG_NAME <=? b.1)
        then inl (out_free_hash err s) else inr (a.2, b.2)
    end in
  match names with
  | inl r => r
  | inr (name_, driver_name_) =>
  let inst :=
    {| alg := {| cra_name := name_; cra_driver_name := driver_name_;
                 cra_flags := Z.land (cra_flags rsa_alg) CRYPTO_ALG_ASYNC;
                 cra_priority := cra_priority rsa_alg;
                 cra_ctxsize := sizeof_pkcs1pad_ctx;
                 reqsize := sizeof_pkcs1pad_request + reqsize rsa_alg |};
       inst_hash_name := ctx_hash_name |} in
  let err := akcipher_register_instance e inst in
  if negb (err =? 0) then out_free_hash err s else
  (0, {| inst_allocated := true; name_allocated := name_allocated s;
         spawn_grabbed := true; registered := Some inst |})
  end
  end
  end.

End Registration.

(** The name of the instance for an inner algorithm name and a hash. *)
Definition pkcs1pad_name (inner : string) (hash : option string) : string :=
  match hash with
  | None => "pkcs1pad(" ++ inner ++ ")"
  | Some h => "pkcs1pad(" ++ inner ++ "," ++ h ++ ")"
  end%string.

(** The hash name given to [pkcs1pad_create], if any. *)
Definition requested_hash (e : create_env) : option string :=
  match attr_alg_name_2 e with
  | inl _ => None
  | inr h => Some h
  end.

(** ** Vocabulary of the properties *)

(** The fields of a request and of the transform are [unsigned int]s. *)
Definition is_u32 (x : Z) : Prop := 0 <= x < 2 ^ 32.

(** The values of an [int]. *)
Definition is_int (x : Z) : Prop := - 2 ^ 31 <= x < 2 ^ 31.

Record wf_machine {T} (st : machine T) : Prop := {
  wf_key_size : is_u32 (key_size (ctx st));
  wf_src_len : is_u32 (src_len (req st));
  wf_dst_len : is_u32 (dst_len (req st));
  wf_flags : is_u32 (flags (req st))
}.

(** The two key setters, selected by [priv]. *)
Definition set_key {T} (set_pub set_priv : T -> list Z -> Z -> Z * T)
    (maxsize : T -> Z) (priv : bool)
  : pkcs1pad_ctx T -> list Z -> Z -> Z * pkcs1pad_ctx T :=
  if priv then pkcs1pad_set_priv_key set_priv maxsize
  else pkcs1pad_set_pub_key set_pub maxsize.

Definition inner_set_key {T} (set_pub set_priv : T -> list Z -> Z -> Z * T)
    (priv : bool) : T -> list Z -> Z -> Z * T :=
  if priv then set_priv else set_pub.

(** A synchronous rejection: the call returns [- e] and nothing has
    happened to the request, no allocation and no call of the engine. *)
Definition rejects {T} (res : option (Z * machine T)) (e : Z)
    (st : machine T) : Prop :=
  res = Some (- e, st).

(** The call got past its checks: whatever it returns, the first thing
    it did was an allocation. *)
Definition proceeds {T} (res : option (Z * machine T)) (st : machine T)
  : Prop :=
  forall r st', res = Some (r, st') ->
    exists n g rest, trace st' = trace st ++ EvKmalloc n g :: rest.

(** The index in [block] of the first byte after index 0 that satisfies
    [P]: with [P] "is 0x00" it is the separator of an encryption block,
    with [P] "is not 0xff" the end of the padding of a signature block. *)
Definition first_from (P : Z -> Prop) `{!forall b, Decision (P b)}
    (block : list Z) : option nat :=
  (fun p => S p.1) <$> list_find P (drop 1 block).

Definition separator (block : list Z) : option nat :=
  first_from (fun b => b = 0x00) block.

Definition pad_end (block : list Z) : option nat :=
  first_from (fun b => b <> 0xff) block.

(** The working buffer the spec gives encrypt for a modulus of [k] bytes
    and a plaintext of [len] bytes: block type 0x02, [k - 3 - len]
    padding bytes drawn from [rnd], and the 0x00 separator. *)
Definition encrypt_pad (rnd : nat -> Z) (k len : Z) : list Z :=
  [0x02] ++ map (fun j => u8 (1 + rnd j)) (seq 0 (Z.to_nat (k - 3 - len)))
         ++ [0x00].

(** The working buffer the spec gives sign: block type 0x01,
    [k - 3 - len - len(der)] bytes 0xff, the 0x00 separator and the DER
    prefix of the hash. *)
Definition sign_pad (der : list Z) (k len : Z) : list Z :=
  [0x01] ++ replicate (Z.to_nat (k - 3 - len - Z.of_nat (length der))) 0xff
         ++ [0x00] ++ der.

(** The state of a request right after the call of the inner engine
    returned: the caller's request and the transform are as they were,
    [pre] lists the allocations made, the call of the engine is the last
    event, and the engine's answer [rep] sits in the child request and
    in the output buffer, both working buffers still allocated. *)
Definition after_call {T} (st : machine T) (op : akcipher_op)
    (pre : list event) (csrc : scatterlist) (csl : Z)
    (ib : option (list Z)) (kb : kbuf) (bytes : list Z) (rep : child_reply)
  : machine T :=
  let k := key_size (ctx st) in
  {| ctx := ctx st;
     req := req st;
     req_ctx := {| child_src := csrc; child_src_len := csl;
                   child_dst_len := r_dst_len rep;
                   in_buf := ib;
                   out_buf := Some (engine_writes (r_out rep) (fresh kb k)) |};
     trace := trace st ++ pre ++ [EvChild op bytes csl k];
     inflight := Some (late rep) |}.

(** The DigestInfo template sign works with: none for a transform
    without a hash; no answer at all when the configured hash is not in
    the table. *)
Definition configured_digest (h : option string)
  : option (option rsa_asn1_template) :=
  match h with
  | None => Some None
  | Some n =>
      match rsa_lookup_asn1 n with
      | Some t => Some (Some t)
      | None => None
      end
  end.

(** The inner call left the request with the engine: it returned
    -EINPROGRESS, or -EBUSY for a request that may be backlogged. *)
Definition pending (err fl : Z) : Prop :=
  err = - EINPROGRESS \/
  (err = - EBUSY /\ Z.land fl CRYPTO_TFM_REQ_MAY_BACKLOG <> 0).

Section Vocabulary.

Variable PAGE_SIZE : Z.
Context {T : Type}.
Variable crypto_akcipher_encrypt : T -> list Z -> Z -> Z -> child_reply.
Variable crypto_akcipher_decrypt : T -> list Z -> Z -> Z -> child_reply.
Variable crypto_akcipher_sign : T -> list Z -> Z -> Z -> child_reply.
Variable crypto_akcipher_verify : T -> list Z -> Z -> Z -> child_reply.

(** The four operations of the transform, by name. *)
Definition submit_of (op : akcipher_op)
  : oracle -> machine T -> option (Z * machine T) :=
  match op with
  | OpEncrypt => pkcs1pad_encrypt PAGE_SIZE crypto_akcipher_encrypt
  | OpDecrypt => pkcs1pad_decrypt PAGE_SIZE crypto_akcipher_decrypt
  | OpSign => pkcs1pad_sign PAGE_SIZE crypto_akcipher_sign
  | OpVerify => pkcs1pad_verify PAGE_SIZE crypto_akcipher_verify
  end.

Definition complete_of (op : akcipher_op)
  : machine T -> Z -> option (Z * machine T) :=
  match op with
  | OpEncrypt | OpSign => pkcs1pad_encrypt_sign_complete
  | OpDecrypt => pkcs1pad_decrypt_complete
  | OpVerify => pkcs1pad_verify_complete
  end.

Definition callback_of (op : akcipher_op)
  : machine T -> Z -> option (machine T) :=
  match op with
  | OpEncrypt | OpSign => pkcs1pad_encrypt_sign_complete_cb
  | OpDecrypt => pkcs1pad_decrypt_complete_cb
  | OpVerify => pkcs1pad_verify_complete_cb
  end.

Definition engine_of (op : akcipher_op)
  : T -> list Z -> Z -> Z -> child_reply :=
  match op with
  | OpEncrypt => crypto_akcipher_encrypt
  | OpDecrypt => crypto_akcipher_decrypt
  | OpSign => crypto_akcipher_sign
  | OpVerify => crypto_akcipher_verify
  end.

(** The request passes the checks of [op] and the environment lets the
    submission reach the inner engine: the source chain holds the
    [src_len] bytes it announces and the allocations succeed, at a place
    inside a page. *)
Definition ready (op : akcipher_op) (o : oracle) (st : machine T) : Prop :=
  let k := key_size (ctx st) in
  let len := src_len (req st) in
  wf_machine st /\ k <> 0 /\ k <= PAGE_SIZE /\
  is_Some (sg_bytes (src (req st)) len) /\
  is_Some (out_alloc o) /\
  match op with
  | OpDecrypt => len = k
  | OpVerify => k <= len
  | OpEncrypt | OpSign =>
      k <= dst_len (req st) /\
      (exists ka, in_alloc o = Some ka /\ 0 <= page_offset ka < PAGE_SIZE) /\
      match op with
      | OpSign =>
          exists di, configured_digest (hash_name (ctx st)) = Some di /\
                     len + from_option size 0 di <= k - 11
      | _ => len <= k - 11
      end
  end.

(** The inner engine's decrypt inverts its encrypt on blocks of [k - 1]
    bytes, for the key held by [c]: when encrypt ends with success on
    such a block it has written a result of at most [k] bytes, and
    decrypt, handed that result with its leading zeros restored, ends
    with success on the [k - 1] bytes of the block. *)
Definition inner_inverts (c : T) (k : Z) : Prop :=
  forall (m : list Z) (fe fd : Z),
    Z.of_nat (length m) = k - 1 ->
    let re := crypto_akcipher_encrypt c m k fe in
    settled fe re = 0 ->
    0 <= r_dst_len re <= k /\
    Z.of_nat (length (r_out re)) = r_dst_len re /\
    let rd := crypto_akcipher_decrypt c
                (replicate (Z.to_nat (k - r_dst_len re)) 0 ++ r_out re) k fd in
    settled fd rd = 0 /\ r_dst_len rd = k - 1 /\
    take (Z.to_nat (k - 1)) (r_out rd) = m.

End Vocabulary.

(** Both working buffers of the request are unallocated: never
    allocated, or released. *)
Definition released {T} (st : machine T) : Prop :=
  in_buf (req_ctx st) = None /\ out_buf (req_ctx st) = None.

(** The operations that build a padded block in [in_buf]. *)
Definition pads (op : akcipher_op) : bool :=
  match op with
  | OpEncrypt | OpSign => true
  | OpDecrypt | OpVerify => false
  end.

(** The bytes a request hands to the inner engine when its lengths are
    in the range its checks are written for: the source of the caller
    for decrypt and verify, the padded block followed by the source for
    encrypt and sign. *)
Definition handed_over {T} (op : akcipher_op) (o : oracle) (st : machine T)
  : option (list Z) :=
  let k := key_size (ctx st) in
  let len := src_len (req st) in
  bytes ← sg_bytes (src (req st)) len;
  match op with
  | OpDecrypt | OpVerify => Some bytes
  | OpEncrypt => Some (encrypt_pad (prandom o) k len ++ bytes)
  | OpSign =>
      di ← configured_digest (hash_name (ctx st));
      Some (sign_pad (from_option data [] di) k len ++ bytes)
  end.

(** The request passes the checks [op] makes before it allocates. *)
Definition validated {T} (PAGE_SIZE : Z) (op : akcipher_op) (st : machine T)
  : Prop :=
  let k := key_size (ctx st) in
  let len := src_len (req st) in
  wf_machine st /\ k <> 0 /\ k <= PAGE_SIZE /\
  match op with
  | OpDecrypt => len = k
  | OpVerify => k <= len
  | OpEncrypt => k <= dst_len (req st) /\ len <= k - 11
  | OpSign =>
      k <= dst_len (req st) /\
      exists di, configured_digest (hash_name (ctx st)) = Some di /\
                 len + from_option size 0 di <= k - 11
  end.

(** ** The claims of the specification that the code does not meet,
    as the specification states them *)

(** "A non-positive reply is propagated as an error and leaves the
    modulus size 0": after a successful inner set-key whose size query
    answers [size <= 0], the setter returns an error (a non-zero code). *)
Definition stated_nonpositive_reply_is_error {T}
    (set_pub set_priv : T -> list Z -> Z -> Z * T) (maxsize : T -> Z)
    (priv : bool) (c : pkcs1pad_ctx T) (key : list Z) (keylen : Z) : Prop :=
  forall ch, inner_set_key set_pub set_priv priv (child c) key keylen = (0, ch) ->
    maxsize ch <= 0 ->
    let r := set_key set_pub set_priv maxsize priv c key keylen in
    r.1 <> 0 /\ key_size r.2 = 0.

(** "The separator index must be >= 9 and < k - 1 (payload must be
    non-empty)": whenever post-processing of decrypt succeeds, the
    payload it reports has at least one byte. *)
Definition stated_payload_nonempty {T} (st : machine T) : Prop :=
  forall st', pkcs1pad_decrypt_complete st 0 = Some (0, st') ->
    0 < dst_len (req st').

(** "Verify distinguishes invalid (structural failure: wrong block type,
    short PS, missing zero separator) from bad-message": on a
    structurally malformed block of k - 1 bytes post-processing of
    verify completes with -EINVAL. *)
Definition stated_malformed_is_invalid {T} (st : machine T) (out : list Z)
  : Prop :=
  let block := take (Z.to_nat (key_size (ctx st) - 1)) out in
  (block !! 0%nat <> Some 0x01 \/
   forall p, pad_end block = Some p ->
             (p < 9)%nat \/ block !! p <> Some 0x00) ->
  exists st', pkcs1pad_verify_complete st 0 = Some (- EINVAL, st').

(** ** A toy inner engine and concrete requests

    Raw RSA with both exponents 1 on a key without state: the public
    operation returns the bytes it is given, at once; the private
    operation returns -EINPROGRESS and reports success later, its result
    being its input without the leading byte. *)

Definition toy_set_key (_ : unit) (_ : list Z) (_ : Z) : Z * unit := (0, tt).

Definition toy_maxsize (n : Z) (_ : unit) : Z := n.

Definition toy_public (_ : unit) (m : list Z) (_ _ : Z) : child_reply :=
  {| rc := 0; late := 0; r_dst_len := Z.of_nat (length m); r_out := m |}.

Definition toy_private (_ : unit) (c : list Z) (_ _ : Z) : child_reply :=
  {| rc := - EINPROGRESS; late := 0;
     r_dst_len := Z.of_nat (length c) - 1; r_out := drop 1 c |}.

Definition toy_ctx (k : Z) (h : option string) : pkcs1pad_ctx unit :=
  {| child := tt; hash_name := h; key_size := k |}.

(** A fresh request: source [s] in one segment, destination buffer [d]
    announced with length [dl], flags [fl]. *)
Definition toy_request (k : Z) (h : option string) (s d : list Z)
    (sl dl fl : Z) : machine unit :=
  {| ctx := toy_ctx k h;
     req := {| src := [s]; src_len := sl; dst := d; dst_len := dl;
               flags := fl |};
     req_ctx := {| child_src := []; child_src_len := 0; child_dst_len := 0;
                   in_buf := None; out_buf := None |};
     trace := []; inflight := None |}.

(** A request at the moment its post-processing starts: the engine left
    [cdl] bytes in the output buffer [out]. *)
Definition toy_completing (k : Z) (h : option string) (out : list Z)
    (cdl : Z) (d : list Z) (dl : Z) : machine unit :=
  {| ctx := toy_ctx k h;
     req := {| src := []; src_len := k; dst := d; dst_len := dl; flags := 0 |};
     req_ctx := {| child_src := []; child_src_len := k; child_dst_len := cdl;
                   in_buf := None; out_buf := Some out |};
     trace := []; inflight := None |}.

Definition toy_oracle : oracle :=
  {| in_alloc := Some {| page_offset := 4090; garbage := fun _ => 0x5a |};
     out_alloc := Some {| page_offset := 64; garbage := fun _ => 0x6b |};
     prandom := fun j => Z.of_nat j mod 255 |}.

Definition toy_page : Z := 4096.

(** Encrypt "ABC" under a 16-byte modulus, and the request as encrypt
    leaves it. *)
Definition toy_plain : machine unit :=
  toy_request 16 None [0x41; 0x42; 0x43] (replicate 16 0xee) 3 16 0.

Definition toy_encrypted : machine unit :=
  match perform (pkcs1pad_encrypt toy_page toy_public)
                pkcs1pad_encrypt_sign_complete_cb toy_oracle toy_plain with
  | Some (_, s) => s
  | None => toy_plain
  end.

(** Decrypt what encrypt produced, into a buffer of 8 bytes. *)
Definition toy_cipher : machine unit :=
  toy_request 16 None (take 16 (dst (req toy_encrypted))) (replicate 8 0xee)
              16 8 CRYPTO_TFM_REQ_MAY_BACKLOG.

(** Sign "hello" with sha256 under a 128-byte modulus. *)
Definition toy_hello : machine unit :=
  toy_request 128 (Some "sha256"%string) [0x68; 0x65; 0x6c; 0x6c; 0x6f]
              (replicate 128 0) 5 128 0.

(** A 15-byte block of type 0x02 whose separator is its last byte, in an
    output buffer of 16 bytes. *)
Definition toy_block_empty_payload : list Z :=
  [0x02] ++ replicate 13 0xaa ++ [0x00] ++ [0x6b].

(** A 15-byte block that starts with 0x02 where a signature has 0x01. *)
Definition toy_block_wrong_type : list Z :=
  [0x02] ++ replicate 8 0xff ++ [0x00] ++ [0x68; 0x65; 0x6c; 0x6c; 0x6f; 0x6b].

(** A well-formed signature block of 15 bytes: 8 bytes 0xff, then "hello". *)
Definition toy_block_signature : list Z :=
  [0x01] ++ replicate 8 0xff ++ [0x00] ++ [0x68; 0x65; 0x6c; 0x6c; 0x6f].

(** An inner set-key that refuses the key. *)
Definition toy_set_key_refused (_ : unit) (_ : list Z) (_ : Z) : Z * unit :=
  (- EINVAL, tt).

(** An environment in which the second allocation of a submission
    fails. *)
Definition toy_oracle_short : oracle :=
  {| in_alloc := in_alloc toy_oracle; out_alloc := None;
     prandom := prandom toy_oracle |}.

(** The request of [toy_cipher] once decrypt has run and the engine has
    called back. *)
Definition toy_decrypted : machine unit :=
  match perform (pkcs1pad_decrypt toy_page toy_private)
                pkcs1pad_decrypt_complete_cb toy_oracle toy_cipher with
  | Some (_, s) => s
  | None => toy_cipher
  end.

(** The request of [toy_hello] as sign leaves it, and the verification
    of the signature it holds, into a buffer of 8 bytes. *)
Definition toy_signed : machine unit :=
  match perform (pkcs1pad_sign toy_page toy_public)
                pkcs1pad_encrypt_sign_complete_cb toy_oracle toy_hello with
  | Some (_, s) => s
  | None => toy_hello
  end.

Definition toy_signature : machine unit :=
  toy_request 128 (Some "sha256"%string) (take 128 (dst (req toy_signed)))
              (replicate 8 0xee) 128 8 CRYPTO_TFM_REQ_MAY_BACKLOG.

(** An output buffer of 16 bytes in which a well-formed padding is
    followed by the first bytes of the DigestInfo prefix of md5, up to the
    end of the buffer. *)
Definition toy_block_cut_digest : list Z :=
  [0x01] ++ replicate 8 0xff ++ [0x00] ++ take 6 rsa_digest_info_md5.

(** A signature block of 31 bytes made with sha1 for the message "hi",
    in an output buffer of 32 bytes. *)
Definition toy_block_sha1 : list Z :=
  sign_pad rsa_digest_info_sha1 32 2 ++ [0x68; 0x69] ++ [0x6b].

(** The inner algorithm "rsa" and the creation of "pkcs1pad(rsa,sha256)":
    [grab] is what [crypto_grab_akcipher] returns, [dup] tells whether
    [kstrdup] succeeds. *)
Definition toy_rsa_alg : akcipher_alg :=
  {| cra_name := "rsa"; cra_driver_name := "rsa-generic"; cra_flags := 0x8d;
     cra_priority := 100; cra_ctxsize := 16; reqsize := 48 |}.

Definition toy_env (grab : Z) (dup : bool) : create_env :=
  {| crypto_get_attr_type := inr (CRYPTO_ALG_TYPE_AKCIPHER, 0x0f);
     attr_alg_name_1 := inr "rsa"%string;
     attr_alg_name_2 := inr "sha256"%string;
     kzalloc_inst := true;
     kstrdup_name := dup;
     crypto_grab_akcipher := fun _ _ _ => (grab, toy_rsa_alg);
     akcipher_register_instance := fun _ => 0 |}.

Definition toy_create : create_env -> Z * registry :=
  pkcs1pad_create 64 24 160 (fun _ _ => 0).

(** A private operation that finds no leading zero: it answers
    -EINPROGRESS and reports -EOVERFLOW later. *)
Definition toy_overflowing (_ : unit) (_ : list Z) (_ _ : Z) : child_reply :=
  {| rc := - EINPROGRESS; late := - EOVERFLOW; r_dst_len := 0; r_out := [] |}.

(** * Properties *)

(** ** Arithmetic and list helpers *)

Lemma u32_small x : 0 <= x < 2 ^ 32 -> u32 x = x.
Proof. intros H. unfold u32. apply Z.mod_small. exact H. Qed.

Ltac ztest :=
  match goal with
  | |- context [?a =? ?b] => destruct (Z.eqb_spec a b) as [?Hz|?Hz]
  | |- context [?a <? ?b] => destruct (Z.ltb_spec a b) as [?Hz|?Hz]
  | |- context [?a <=? ?b] => destruct (Z.leb_spec a b) as [?Hz|?Hz]
  end.

Section Properties.

Variable PAGE_SIZE : Z.
Context {T : Type}.
Variable crypto_akcipher_set_pub_key : T -> list Z -> Z -> Z * T.
Variable crypto_akcipher_set_priv_key : T -> list Z -> Z -> Z * T.
Variable crypto_akcipher_maxsize : T -> Z.
Variable crypto_akcipher_encrypt : T -> list Z -> Z -> Z -> child_reply.
Variable crypto_akcipher_decrypt : T -> list Z -> Z -> Z -> child_reply.
Variable crypto_akcipher_sign : T -> list Z -> Z -> Z -> child_reply.
Variable crypto_akcipher_verify : T -> list Z -> Z -> Z -> child_reply.

Local Abbreviation encrypt := (pkcs1pad_encrypt PAGE_SIZE crypto_akcipher_encrypt).
Local Abbreviation decrypt := (pkcs1pad_decrypt PAGE_SIZE crypto_akcipher_decrypt).
Local Abbreviation sign := (pkcs1pad_sign PAGE_SIZE crypto_akcipher_sign).
Local Abbreviation verify := (pkcs1pad_verify PAGE_SIZE crypto_akcipher_verify).
Local Abbreviation set_key_ :=
  (set_key crypto_akcipher_set_pub_key crypto_akcipher_set_priv_key
           crypto_akcipher_maxsize).
Local Abbreviation inner_set_key_ :=
  (inner_set_key crypto_akcipher_set_pub_key crypto_akcipher_set_priv_key).

(** ** Key installation *)

(** C6 (as amended).  For both key setters, when the inner set-key call
    succeeds: a positive reply of the inner maximum-size query becomes the
    cached modulus size and the setter returns 0; every non-positive reply
    leaves the cached modulus size equal to 0; and every negative reply is
    returned to the caller as the error. *)
Theorem set_key_caches_modulus_size (priv : bool) (c : pkcs1pad_ctx T)
    (key : list Z) (keylen : Z) (ch : T) :
  inner_set_key_ priv (child c) key keylen = (0, ch) ->
  let size := crypto_akcipher_maxsize ch in
  let r := set_key_ priv c key keylen in
  (0 < size -> r.1 = 0 /\ key_size r.2 = size) /\
  (size <= 0 -> key_size r.2 = 0) /\
  (size < 0 -> r.1 = size /\ r.1 <> 0) /\
  child r.2 = ch /\ hash_name r.2 = hash_name c.
Proof.
  intros Hin size r. subst r.
  destruct priv; cbn [set_key inner_set_key] in *;
    unfold pkcs1pad_set_priv_key, pkcs1pad_set_pub_key; rewrite Hin;
    cbn [Z.eqb]; fold size;
    destruct (Z.ltb_spec 0 size), (Z.leb_spec size 0); cbn;
    repeat split; intros; try lia; reflexivity.
Qed.

(** ** Validation at submission *)

Ltac early := repeat (ztest; cbn [negb orb andb]; try lia; try reflexivity).

Lemma trace_grows (st st' : machine T) n g rest :
  trace st' = trace st ++ EvKmalloc n g :: rest -> st' <> st.
Proof.
  intros H ->. apply (f_equal length) in H.
  rewrite length_app in H. cbn in H. lia.
Qed.

Lemma proceeds_not_rejected (res : option (Z * machine T)) st e :
  proceeds res st -> ~ rejects res e st.
Proof.
  intros Hp Hr. destruct (Hp _ _ Hr) as (n & g & rest & Htr).
  exact (trace_grows _ _ _ _ _ Htr eq_refl).
Qed.

Lemma call_child_trace op f (st : machine T) r st' :
  call_child op f st = Some (r, st') ->
  exists ev, trace st' = trace st ++ [ev].
Proof.
  unfold call_child. intros H.
  destruct (sg_bytes _ _); [|discriminate]. cbn in H.
  destruct (out_buf _); [|discriminate]. cbn in H.
  injection H as _ <-. eexists. reflexivity.
Qed.

Lemma encrypt_sign_complete_trace (st : machine T) err r st' :
  pkcs1pad_encrypt_sign_complete st err = Some (r, st') ->
  trace st' = trace st ++ [EvKfree; EvKzfree].
Proof.
  unfold pkcs1pad_encrypt_sign_complete. intros H.
  destruct (err =? 0).
  - destruct (if u32 _ =? 0 then _ else _); [|discriminate]. cbn in H.
    destruct (out_buf _); [|discriminate]. cbn in H.
    destruct (sg_pcopy_from_buffer _ _ _ _); [|discriminate]. cbn in H.
    injection H as _ <-. cbn. rewrite <- app_assoc. reflexivity.
  - cbn in H. injection H as _ <-. cbn. rewrite <- app_assoc. reflexivity.
Qed.

Lemma deliver_trace (st : machine T) out err pos r st' :
  deliver st out err pos = Some (r, st') -> trace st' = trace st.
Proof.
  unfold deliver. intros H.
  destruct (_ =? 0).
  - destruct (sg_copy_from_buffer _ _ _); [|discriminate]. cbn in H.
    injection H as _ <-. reflexivity.
  - injection H as _ <-. reflexivity.
Qed.

Lemma decrypt_complete_trace (st : machine T) err r st' :
  pkcs1pad_decrypt_complete st err = Some (r, st') ->
  trace st' = trace st ++ [EvKzfree].
Proof.
  unfold pkcs1pad_decrypt_complete. intros H.
  repeat match type of H with
  | (if ?b then _ else _) = _ => destruct b
  | Some _ = Some _ => injection H as _ <-; reflexivity
  | (mbind _ ?m) = _ => let E := fresh "E" in destruct m eqn:E; [|discriminate]; cbn in H
  end.
  destruct p as [r0 s0]. injection H as _ <-. cbn.
  apply deliver_trace in E2. rewrite E2. reflexivity.
Qed.

Lemma verify_complete_trace (st : machine T) err r st' :
  pkcs1pad_verify_complete st err = Some (r, st') ->
  trace st' = trace st ++ [EvKzfree].
Proof.
  unfold pkcs1pad_verify_complete. intros H.
  repeat match type of H with
  | (if ?b then _ else _) = _ => destruct b
  | Some _ = Some _ => injection H as _ <-; reflexivity
  | (mbind _ ?m) = _ =>
      let E := fresh "E" in destruct m eqn:E; [|discriminate]; cbn in H
  | match ?m with _ => _ end = _ =>
      let E := fresh "E" in destruct m eqn:E
  end;
  match goal with
  | E : deliver _ _ _ _ = Some ?p |- _ =>
      destruct p; injection H as _ <-; cbn;
      apply deliver_trace in E; rewrite E; reflexivity
  end.
Qed.

(** Once the checks are passed, every way out of a submission has the
    allocation of a working buffer as the first event. *)
Lemma decrypt_proceeds o (st : machine T) :
  key_size (ctx st) <> 0 -> src_len (req st) = key_size (ctx st) ->
  key_size (ctx st) <= PAGE_SIZE ->
  proceeds (decrypt o st) st.
Proof.
  intros Hk Hs Hp r st' H. unfold pkcs1pad_decrypt in H.
  revert H. early. cbn [orb negb]. early. intros Hres.
  destruct (out_alloc o).
  - destruct (call_child _ _ _) as [[e s1]|] eqn:Ec; [|discriminate].
    cbn in Hres. apply call_child_trace in Ec as [ev Ht]. cbn in Ht.
    destruct (completes_now _ _).
    + apply decrypt_complete_trace in Hres. rewrite Hres, Ht.
      eexists _, _, _. rewrite <- !app_assoc. reflexivity.
    + injection Hres as _ <-. rewrite Ht.
      eexists _, _, _. rewrite <- !app_assoc. reflexivity.
  - injection Hres as _ <-. cbn. eexists _, _, []. reflexivity.
Qed.

Lemma verify_proceeds o (st : machine T) :
  key_size (ctx st) <> 0 -> key_size (ctx st) <= src_len (req st) ->
  key_size (ctx st) <= PAGE_SIZE ->
  proceeds (verify o st) st.
Proof.
  intros Hk Hs Hp r st' H. unfold pkcs1pad_verify in H.
  revert H. early. cbn [orb negb]. early. intros Hres.
  destruct (out_alloc o).
  - destruct (call_child _ _ _) as [[e s1]|] eqn:Ec; [|discriminate].
    cbn in Hres. apply call_child_trace in Ec as [ev Ht]. cbn in Ht.
    destruct (completes_now _ _).
    + apply verify_complete_trace in Hres. rewrite Hres, Ht.
      eexists _, _, _. rewrite <- !app_assoc. reflexivity.
    + injection Hres as _ <-. rewrite Ht.
      eexists _, _, _. rewrite <- !app_assoc. reflexivity.
  - injection Hres as _ <-. cbn. eexists _, _, []. reflexivity.
Qed.

(** C8.  Decrypt returns -EINVAL at once whenever no key is installed or
    the source length differs from the modulus size k; verify returns
    -EINVAL at once whenever no key is installed or the source length is
    below k.  With a key installed, decrypt is not rejected for its
    length exactly when the length equals k, verify exactly when it is at
    least k: such a request goes on to the page-size check and then to
    the allocation of the output buffer. *)
Theorem decrypt_verify_source_length o (st : machine T) :
  let k := key_size (ctx st) in
  let n := src_len (req st) in
  (k = 0 \/ n <> k -> rejects (decrypt o st) EINVAL st) /\
  (k = 0 \/ n < k -> rejects (verify o st) EINVAL st) /\
  (k <> 0 -> n = k ->
     ~ rejects (decrypt o st) EINVAL st /\
     (k <= PAGE_SIZE -> proceeds (decrypt o st) st) /\
     (PAGE_SIZE < k -> rejects (decrypt o st) ENOTSUPP st)) /\
  (k <> 0 -> k <= n ->
     ~ rejects (verify o st) EINVAL st /\
     (k <= PAGE_SIZE -> proceeds (verify o st) st) /\
     (PAGE_SIZE < k -> rejects (verify o st) ENOTSUPP st)).
Proof.
  intros k n. subst k n. unfold rejects. repeat split.
  - intros H. unfold pkcs1pad_decrypt. early.
  - intros H. unfold pkcs1pad_verify. early.
  - destruct (Z.le_gt_cases (key_size (ctx st)) PAGE_SIZE) as [Hp|Hp].
    + apply proceeds_not_rejected, decrypt_proceeds; assumption.
    + unfold pkcs1pad_decrypt. early. discriminate.
  - apply decrypt_proceeds; assumption.
  - intros Hp. unfold pkcs1pad_decrypt. early.
  - destruct (Z.le_gt_cases (key_size (ctx st)) PAGE_SIZE) as [Hp|Hp].
    + apply proceeds_not_rejected, verify_proceeds; assumption.
    + unfold pkcs1pad_verify. early. discriminate.
  - apply verify_proceeds; assumption.
  - intros Hp. unfold pkcs1pad_verify. early.
Qed.

Ltac walk H :=
  repeat match type of H with
  | (mbind _ ?m) = _ =>
      let E := fresh "E" in destruct m eqn:E; [|discriminate]; cbn in H
  | (let '(_, _) := ?p in _) = _ => destruct p
  end.

Lemma encrypt_proceeds o (st : machine T) :
  key_size (ctx st) <> 0 ->
  src_len (req st) <= u32 (key_size (ctx st) - 11) ->
  key_size (ctx st) <= dst_len (req st) ->
  key_size (ctx st) <= PAGE_SIZE ->
  proceeds (encrypt o st) st.
Proof.
  intros Hk Hs Hd Hp r st' H. unfold pkcs1pad_encrypt in H.
  revert H. early. intros Hres.
  destruct (in_alloc o); cycle 1.
  { injection Hres as _ <-. cbn. eexists _, _, []. reflexivity. }
  walk Hres.
  destruct (out_alloc o); cycle 1.
  { injection Hres as _ <-. cbn. eexists _, _, _.
    rewrite <- !app_assoc. reflexivity. }
  destruct (call_child _ _ _) as [[e1 s1]|] eqn:Ec; [|discriminate].
  cbn in Hres. apply call_child_trace in Ec as [ev Ht]. cbn in Ht.
  destruct (completes_now _ _).
  - apply encrypt_sign_complete_trace in Hres. rewrite Hres, Ht.
    eexists _, _, _. rewrite <- !app_assoc. reflexivity.
  - injection Hres as _ <-. rewrite Ht.
    eexists _, _, _. rewrite <- !app_assoc. reflexivity.
Qed.

(** X19.  The checks of encrypt on a request whose fields are values of
    [unsigned int].  Without a key (k = 0) encrypt is rejected at once
    with -EINVAL.  With a modulus size k of at least 11 bytes it is
    rejected at once with: -EOVERFLOW when the plaintext is longer than
    k - 11 (k - 10 bytes are rejected, k - 11 bytes are let through);
    otherwise -EOVERFLOW, with [dst_len] of the request set to k and
    nothing else touched, when the destination is shorter than k;
    otherwise -ENOTSUPP when k exceeds the page size.  The other
    rejections leave the request as it was, and none allocates or calls
    the inner engine.  A request with k >= 11 that passes the four
    checks goes on to allocate its working buffer. *)
Theorem encrypt_validation o (st : machine T) :
  wf_machine st ->
  let k := key_size (ctx st) in
  let n := src_len (req st) in
  let d := dst_len (req st) in
  (k = 0 -> rejects (encrypt o st) EINVAL st) /\
  (11 <= k -> k - 11 < n -> rejects (encrypt o st) EOVERFLOW st) /\
  (11 <= k -> n = k - 10 -> rejects (encrypt o st) EOVERFLOW st) /\
  (11 <= k -> n <= k - 11 -> d < k ->
     encrypt o st = Some (- EOVERFLOW, with_dst_len k st)) /\
  (11 <= k -> n <= k - 11 -> k <= d -> PAGE_SIZE < k ->
     rejects (encrypt o st) ENOTSUPP st) /\
  (11 <= k -> n <= k - 11 -> k <= d -> k <= PAGE_SIZE ->
     proceeds (encrypt o st) st /\
     forall e, ~ rejects (encrypt o st) e st).
Proof.
  intros [Hk Hn Hd Hf] k n d. subst k n d. unfold is_u32 in *.
  assert (Hu : 11 <= key_size (ctx st) ->
               u32 (key_size (ctx st) - 11) = key_size (ctx st) - 11).
  { intros. apply u32_small. lia. }
  unfold rejects. repeat split.
  - intros H0. unfold pkcs1pad_encrypt. early.
  - intros H11 Hlt. unfold pkcs1pad_encrypt. rewrite Hu by assumption. early.
  - intros H11 Hlt. unfold pkcs1pad_encrypt. rewrite Hu by assumption. early.
  - intros H11 Hle Hlt. unfold pkcs1pad_encrypt. rewrite Hu by assumption.
    early.
  - intros H11 Hle Hge Hpg. unfold pkcs1pad_encrypt.
    rewrite Hu by assumption. early.
  - apply encrypt_proceeds; try rewrite Hu; lia.
  - intros e. apply proceeds_not_rejected.
    apply encrypt_proceeds; try rewrite Hu; lia.
Qed.

(** ** The scanning loops *)

Lemma load_lookup (buf : list Z) (i : Z) :
  0 <= i -> load buf i = buf !! Z.to_nat i.
Proof. intros H. unfold load. destruct (Z.leb_spec 0 i); [reflexivity|lia]. Qed.

Lemma scan_zero_find n : forall pos (buf : list Z),
  0 <= pos -> (Z.to_nat pos + n <= length buf)%nat ->
  scan_zero n pos buf =
    Some (match list_find (fun b => b = 0x00) (take n (drop (Z.to_nat pos) buf)) with
          | Some (i, _) => pos + Z.of_nat i
          | None => pos + Z.of_nat n
          end).
Proof.
  induction n as [|n IH]; intros pos buf Hpos Hlen.
  - cbn [scan_zero]. rewrite take_0. cbn [list_find]. f_equal. lia.
  - cbn [scan_zero]. rewrite load_lookup by assumption.
    assert (Hin : (Z.to_nat pos < length buf)%nat) by lia.
    destruct (lookup_lt_is_Some_2 buf (Z.to_nat pos) Hin) as [b Hb].
    rewrite Hb. cbn [mbind option_bind].
    rewrite (drop_S _ _ _ Hb). rewrite firstn_cons. cbn [list_find].
    destruct (Z.eqb_spec b 0) as [->|Hne].
    + rewrite decide_True by reflexivity. f_equal. lia.
    + rewrite decide_False by assumption.
      rewrite IH by lia.
      replace (Z.to_nat (pos + 1)) with (S (Z.to_nat pos)) by lia.
      destruct (list_find _ _) as [[i x]|]; cbn; f_equal; lia.
Qed.

Lemma scan_ff_find n : forall pos (buf : list Z),
  0 <= pos -> (Z.to_nat pos + n <= length buf)%nat ->
  scan_ff n pos buf =
    Some (match list_find (fun b => b <> 0xff) (take n (drop (Z.to_nat pos) buf)) with
          | Some (i, _) => pos + Z.of_nat i
          | None => pos + Z.of_nat n
          end).
Proof.
  induction n as [|n IH]; intros pos buf Hpos Hlen.
  - cbn [scan_ff]. rewrite take_0. cbn [list_find]. f_equal. lia.
  - cbn [scan_ff]. rewrite load_lookup by assumption.
    assert (Hin : (Z.to_nat pos < length buf)%nat) by lia.
    destruct (lookup_lt_is_Some_2 buf (Z.to_nat pos) Hin) as [b Hb].
    rewrite Hb. cbn [mbind option_bind].
    rewrite (drop_S _ _ _ Hb). rewrite firstn_cons. cbn [list_find].
    destruct (Z.eqb_spec b 0xff) as [->|Hne]; cbn [negb].
    + rewrite decide_False by (intros H; apply H; reflexivity).
      rewrite IH by lia.
      replace (Z.to_nat (pos + 1)) with (S (Z.to_nat pos)) by lia.
      destruct (list_find _ _) as [[i x]|]; cbn; f_equal; lia.
    + rewrite decide_True by assumption. f_equal. lia.
Qed.

(** The position a scan of the first [c] bytes of [out] stops at, in
    terms of [first_from] on the block. *)
Lemma scan_block (P : Z -> Prop) `{!forall b, Decision (P b)}
    (out : list Z) (c : nat) :
  (1 <= c <= length out)%nat ->
  match list_find P (take (c - 1) (drop 1 out)) with
  | Some (i, _) => 1 + Z.of_nat i
  | None => 1 + Z.of_nat (c - 1)
  end = match first_from P (take c out) with
        | Some s => Z.of_nat s
        | None => Z.of_nat c
        end.
Proof.
  intros Hc. unfold first_from.
  replace (drop 1 (take c out)) with (take (c - 1) (drop 1 out)).
  - destruct (list_find _ _) as [[i x]|]; cbn; lia.
  - rewrite skipn_firstn_comm. reflexivity.
Qed.

Lemma first_from_Some (P : Z -> Prop) `{!forall b, Decision (P b)}
    (block : list Z) (s : nat) :
  first_from P block = Some s <->
  (1 <= s)%nat /\ (exists b, block !! s = Some b /\ P b) /\
  (forall j b, (1 <= j < s)%nat -> block !! j = Some b -> ~ P b).
Proof.
  unfold first_from. split.
  - intros Hs. apply fmap_Some in Hs as ([i x] & Hf & ->).
    apply list_find_Some in Hf as (Hx & HP & Hbefore). cbn.
    rewrite lookup_drop in Hx. split; [lia|]. split.
    + exists x. split; [exact Hx | exact HP].
    + intros j b Hj Hb. destruct j as [|j]; [lia|].
      apply (Hbefore j b); [|lia]. rewrite lookup_drop. exact Hb.
  - intros (Hs & (b & Hb & HP) & Hbefore).
    destruct s as [|s]; [lia|].
    apply fmap_Some. exists (s, b). split; [|reflexivity].
    apply list_find_Some. rewrite lookup_drop. repeat split; try assumption.
    intros j y Hy Hj. rewrite lookup_drop in Hy.
    apply (Hbefore (S j) y); [lia | exact Hy].
Qed.

Lemma first_from_lt (P : Z -> Prop) `{!forall b, Decision (P b)}
    (block : list Z) (s : nat) :
  first_from P block = Some s -> (1 <= s < length block)%nat.
Proof.
  intros Hs. apply first_from_Some in Hs as (H1 & (b & Hb & _) & _).
  apply lookup_lt_Some in Hb. lia.
Qed.

(** ** Completion of decrypt *)

Lemma decrypt_complete_eq (st : machine T) (out : list Z) :
  let k := key_size (ctx st) in
  0 < k < 2 ^ 32 ->
  out_buf (req_ctx st) = Some out -> length out = Z.to_nat k ->
  child_dst_len (req_ctx st) = k - 1 ->
  pkcs1pad_decrypt_complete st 0 =
    (b0 ← out !! 0%nat;
     if negb (b0 =? 0x02) then Some (done (- EINVAL, st)) else
     let p := match separator (take (Z.to_nat (k - 1)) out) with
              | Some s => Z.of_nat s
              | None => k - 1
              end in
     if (p <? 9) || (p =? k - 1) then Some (done (- EINVAL, st)) else
     r ← deliver st out 0 (p + 1); Some (done r)).
Proof.
  intros k Hk Hout Hlen Hcdl. unfold pkcs1pad_decrypt_complete.
  fold k. rewrite Hcdl, Hout, (u32_small (k - 1)) by lia.
  change (0 =? - EOVERFLOW) with false. cbv iota.
  rewrite !Z.eqb_refl. cbn [negb mbind option_bind].
  rewrite load_lookup by lia. change (Z.to_nat 0) with 0%nat.
  destruct (out !! 0%nat) as [b0|]; cbn [mbind option_bind]; [|reflexivity].
  destruct (negb (b0 =? 2)); [reflexivity|].
  rewrite scan_zero_find by lia. cbn [mbind option_bind].
  change (Z.to_nat 1) with 1%nat.
  destruct (Z.eq_dec k 1) as [Hk1|Hk1].
  - rewrite Hk1. change (Z.to_nat (1 - 1 - 1)) with 0%nat.
    change (Z.to_nat (1 - 1)) with 0%nat. rewrite !take_0.
    reflexivity.
  - replace (Z.to_nat (k - 1 - 1)) with (Z.to_nat (k - 1) - 1)%nat by lia.
    rewrite (scan_block (fun b => b = 0) out (Z.to_nat (k - 1))) by lia.
    fold (separator (take (Z.to_nat (k - 1)) out)).
    pose proof (first_from_lt (fun b => b = 0) (take (Z.to_nat (k - 1)) out))
      as Hlt. fold (separator (take (Z.to_nat (k - 1)) out)) in Hlt.
    destruct (separator _) as [s|].
    + specialize (Hlt s eq_refl). rewrite length_take in Hlt.
      destruct (_ || _); [reflexivity|].
      rewrite u32_small by lia. reflexivity.
    + rewrite Z2Nat.id by lia.
      destruct (_ || _); [reflexivity|].
      rewrite u32_small by lia. reflexivity.
Qed.

(** The tail of decrypt and verify on a payload inside the output. *)
Lemma deliver_payload (st : machine T) (out : list Z) (pos : Z) :
  let k := key_size (ctx st) in
  let n := k - 1 - pos in
  0 < k < 2 ^ 32 -> length out = Z.to_nat k ->
  child_dst_len (req_ctx st) = k - 1 -> 0 <= pos <= k - 1 ->
  exists r st',
    deliver st out 0 pos = Some (r, st') /\
    dst_len (req st') = n /\ trace st' = trace st /\
    ctx st' = ctx st /\ req_ctx st' = req_ctx st /\
    (r = 0 \/ r = - EOVERFLOW) /\
    (r = 0 <-> n <= dst_len (req st)) /\
    (r = 0 -> (Z.to_nat n <= length (dst (req st)))%nat ->
       take (Z.to_nat n) (dst (req st')) =
       drop (Z.to_nat pos) (take (Z.to_nat (k - 1)) out)).
Proof.
  intros k n Hk Hlen Hcdl Hpos. unfold deliver. fold k.
  rewrite Hcdl. rewrite (u32_small (k - 1 - pos)) by lia. fold n.
  destruct (Z.ltb_spec (dst_len (req st)) n) as [Hlt|Hge].
  - change (- EOVERFLOW =? 0) with false. cbv iota.
    eexists _, _. split; [reflexivity|]. cbn.
    repeat split; try reflexivity; try (right; reflexivity);
      try (intros; discriminate); try (unfold EOVERFLOW; lia).
  - rewrite Z.eqb_refl. cbn [req with_dst_len dst dst_len].
    unfold sg_copy_from_buffer, sg_pcopy_from_buffer.
    rewrite length_drop, Hlen.
    destruct (Z.leb_spec 0 n); [|lia].
    destruct (Z.leb_spec n (Z.of_nat (Z.to_nat k - Z.to_nat pos))); [|lia].
    cbn [andb Z.leb mbind option_bind].
    eexists _, _. split; [reflexivity|]. cbn.
    repeat split; try reflexivity; try (left; reflexivity); try lia.
    intros _ Hd. rewrite take_0, Nat.sub_0_r. cbn [app].
    rewrite take_app_le by (rewrite length_take, length_take, length_drop; lia).
    rewrite !take_take, skipn_firstn_comm. f_equal. lia.
Qed.

(** C3 (as amended).  Post-processing of decrypt, on an output buffer of
    k bytes, always completes, and it completes with -EINVAL exactly
    when the inner engine reported -EOVERFLOW (no leading zero) or
    -EINVAL itself, or reported success with an unusable result: an
    output length other than k - 1, a first byte other than 0x02, or a
    first 0x00 separator that is absent or at an index below 9.
    Otherwise, on inner success, the separator index s satisfies
    9 <= s < k - 1 and the payload is the k - 2 - s bytes after it,
    which may be none at all: its length is reported in [dst_len], and
    the completion is 0 with the payload copied out when the caller's
    buffer can hold it, -EOVERFLOW when it cannot. *)
Theorem decrypt_complete_invalid (st : machine T) (err : Z) (out : list Z) :
  let k := key_size (ctx st) in
  let block := take (Z.to_nat (k - 1)) out in
  let unusable :=
    child_dst_len (req_ctx st) <> k - 1 \/ block !! 0%nat <> Some 0x02 \/
    forall s, separator block = Some s -> (s < 9)%nat in
  0 < k < 2 ^ 32 ->
  out_buf (req_ctx st) = Some out -> length out = Z.to_nat k ->
  exists r st',
    pkcs1pad_decrypt_complete st err = Some (r, st') /\
    (r = - EINVAL <->
       err = - EOVERFLOW \/ err = - EINVAL \/ (err = 0 /\ unusable)) /\
    (err = 0 -> ~ unusable ->
       exists s, separator block = Some s /\ 9 <= Z.of_nat s < k - 1 /\
         let n := k - 2 - Z.of_nat s in
         dst_len (req st') = n /\
         (r = 0 \/ r = - EOVERFLOW) /\
         (r = 0 <-> n <= dst_len (req st)) /\
         (r = 0 -> (Z.to_nat n <= length (dst (req st)))%nat ->
            take (Z.to_nat n) (dst (req st')) = drop (S s) block)).
Proof.
  intros k block unusable Hk Hout Hlen.
  destruct (Z.eq_dec err 0) as [->|Herr]; cycle 1.
  { (* the inner engine failed *)
    unfold pkcs1pad_decrypt_complete.
    destruct (Z.eqb_spec err (- EOVERFLOW)) as [->|Hov].
    - change (negb (- EINVAL =? 0)) with true. cbv iota.
      eexists _, _. split; [reflexivity|]. cbn. split; [|contradiction].
      split; [intros _; left; reflexivity | reflexivity].
    - destruct (Z.eqb_spec err 0) as [?|_]; [contradiction|]. cbn [negb].
      eexists _, _. split; [reflexivity|]. cbn. split; [|contradiction].
      split; [intros ->; right; left; reflexivity |].
      intros [?|[?|[? _]]]; congruence. }
  destruct (Z.eq_dec (child_dst_len (req_ctx st)) (k - 1)) as [Hcdl|Hcdl];
    cycle 1.
  { (* wrong output length *)
    unfold pkcs1pad_decrypt_complete. fold k.
    rewrite (u32_small (k - 1)) by lia.
    change (0 =? - EOVERFLOW) with false. cbv iota.
    rewrite Z.eqb_refl. cbn [negb].
    destruct (Z.eqb_spec (child_dst_len (req_ctx st)) (k - 1)) as [?|_];
      [contradiction|]. cbn [negb].
    eexists _, _. split; [reflexivity|]. cbn. split.
    - split; [intros _; right; right; split; [reflexivity | left; assumption]
             | reflexivity].
    - intros _ Hu. exfalso. apply Hu. left. assumption. }
  rewrite (decrypt_complete_eq st out Hk Hout Hlen Hcdl). fold k block.
  assert (Hb0 : block !! 0%nat = Some 2 -> out !! 0%nat = Some 2).
  { subst block. intros H. apply lookup_take_Some in H as [H _]. exact H. }
  assert (Hsep : forall s, separator block = Some s ->
                   (1 <= s)%nat /\ Z.of_nat s < k - 1).
  { intros s Hs. apply first_from_lt in Hs. subst block.
    rewrite length_take in Hs. lia. }
  destruct (lookup_lt_is_Some_2 out 0) as [b0 Hb]; [lia|].
  rewrite Hb. cbn [mbind option_bind].
  destruct (Z.eqb_spec b0 2) as [->|Hne]; cbn [negb]; cycle 1.
  { (* wrong block type *)
    eexists _, _. split; [reflexivity|]. cbn.
    assert (Hu : unusable).
    { right; left. intros H. apply Hb0 in H. congruence. }
    split; [|intros _ Hn; exfalso; exact (Hn Hu)].
    split; [intros _; right; right; split; [reflexivity | exact Hu]
           | reflexivity]. }
  destruct (separator block) as [s|] eqn:Es; cycle 1.
  { (* no separator *)
    rewrite Z.eqb_refl, orb_true_r.
    eexists _, _. split; [reflexivity|]. cbn.
    assert (Hu : unusable) by (right; right; intros s; discriminate).
    split; [|intros _ Hn; exfalso; exact (Hn Hu)].
    split; [intros _; right; right; split; [reflexivity | exact Hu]
           | reflexivity]. }
  destruct (Hsep s eq_refl) as [Hs1 Hs2].
  destruct (Z.ltb_spec (Z.of_nat s) 9) as [Hs9|Hs9]; cbn [orb].
  { (* short padding *)
    eexists _, _. split; [reflexivity|]. cbn.
    assert (Hu : unusable).
    { right; right. intros s' [= <-]. lia. }
    split; [|intros _ Hn; exfalso; exact (Hn Hu)].
    split; [intros _; right; right; split; [reflexivity | exact Hu]
           | reflexivity]. }
  destruct (Z.eqb_spec (Z.of_nat s) (k - 1)) as [?|_]; [lia|].
  destruct (deliver_payload st out (Z.of_nat s + 1) Hk Hlen Hcdl)
    as (r & st' & Hd & Hn & _ & _ & _ & Hr & Hiff & Hcopy); [lia|].
  rewrite Hd. cbn [mbind option_bind].
  eexists _, _. split; [reflexivity|]. cbn.
  assert (Hnn : key_size (ctx st) - 1 - (Z.of_nat s + 1) = k - 2 - Z.of_nat s)
    by (unfold k; lia).
  cbv zeta in Hn, Hiff, Hcopy. rewrite Hnn in Hn, Hiff, Hcopy.
  split.
  - split.
    + intros ->. destruct Hr as [Hr|Hr]; discriminate Hr.
    + intros [H|[H|[_ Hu]]]; try discriminate H. exfalso.
      destruct Hu as [Hu|[Hu|Hu]].
      * contradiction.
      * apply Hu. subst block. rewrite lookup_take_lt by lia. exact Hb.
      * specialize (Hu s eq_refl). lia.
  - intros _ _. exists s. split; [reflexivity|]. split; [lia|].
    cbn zeta. split; [exact Hn|]. split; [exact Hr|]. split; [exact Hiff|].
    intros H0 Hd'. rewrite (Hcopy H0 Hd'). subst block k. f_equal. lia.
Qed.

(** ** Writes into a buffer, by the shape of the buffer *)

Lemma store_middle (l1 l2 : list Z) (x v : Z) :
  store (l1 ++ x :: l2) (Z.of_nat (length l1)) v = Some (l1 ++ v :: l2).
Proof.
  unfold store. rewrite length_app. cbn [length].
  destruct (Z.leb_spec 0 (Z.of_nat (length l1))); [|lia].
  destruct (Z.ltb_spec (Z.of_nat (length l1))
              (Z.of_nat (length l1 + S (length l2)))); [|lia].
  cbn [andb]. rewrite Nat2Z.id.
  rewrite insert_app_r_alt by lia. rewrite Nat.sub_diag. reflexivity.
Qed.

Lemma memset_middle (l1 mid l2 : list Z) (v : Z) :
  memset (l1 ++ mid ++ l2) (Z.of_nat (length l1)) v (Z.of_nat (length mid))
  = Some (l1 ++ replicate (length mid) v ++ l2).
Proof.
  unfold memset. rewrite !length_app.
  destruct (Z.leb_spec 0 (Z.of_nat (length l1))); [|lia].
  destruct (Z.leb_spec 0 (Z.of_nat (length mid))); [|lia].
  destruct (Z.leb_spec (Z.of_nat (length l1) + Z.of_nat (length mid))
              (Z.of_nat (length l1 + (length mid + length l2)))); [|lia].
  cbn [andb]. rewrite !Nat2Z.id.
  rewrite take_app_length.
  replace (Z.to_nat (Z.of_nat (length l1) + Z.of_nat (length mid)))
    with (length (l1 ++ mid)) by (rewrite length_app; lia).
  rewrite (app_assoc l1 mid l2), drop_app_length. reflexivity.
Qed.

Lemma memcpy_middle (l1 mid l2 from : list Z) :
  length from = length mid ->
  memcpy (l1 ++ mid ++ l2) (Z.of_nat (length l1)) from (Z.of_nat (length from))
  = Some (l1 ++ from ++ l2).
Proof.
  intros Hlen. unfold memcpy. rewrite !length_app, Hlen.
  destruct (Z.leb_spec 0 (Z.of_nat (length l1))); [|lia].
  destruct (Z.leb_spec 0 (Z.of_nat (length mid))); [|lia].
  destruct (Z.leb_spec (Z.of_nat (length l1) + Z.of_nat (length mid))
              (Z.of_nat (length l1 + (length mid + length l2)))); [|lia].
  destruct (Z.leb_spec (Z.of_nat (length mid)) (Z.of_nat (length mid)));
    [|lia].
  cbn [andb]. rewrite !Nat2Z.id.
  rewrite take_app_length.
  replace (Z.to_nat (Z.of_nat (length l1) + Z.of_nat (length mid)))
    with (length (l1 ++ mid)) by (rewrite length_app; lia).
  rewrite (app_assoc l1 mid l2), drop_app_length.
  rewrite <- Hlen, firstn_all. reflexivity.
Qed.

Lemma fill_ps_middle (rnd : nat -> Z) (mid : list Z) :
  forall l1 l2 : list Z, (1 <= length l1)%nat ->
  fill_ps (length mid) (Z.of_nat (length l1)) rnd (l1 ++ mid ++ l2)
  = Some (l1 ++ map (fun j => u8 (1 + rnd j))
                     (seq (length l1 - 1) (length mid)) ++ l2).
Proof.
  induction mid as [|x mid IH]; intros l1 l2 Hl1.
  - reflexivity.
  - cbn [length fill_ps app]. rewrite store_middle.
    cbn [mbind option_bind].
    set (v := u8 (1 + rnd (Z.to_nat (Z.of_nat (length l1) - 1)))).
    replace (l1 ++ v :: mid ++ l2) with ((l1 ++ [v]) ++ mid ++ l2)
      by (rewrite <- app_assoc; reflexivity).
    replace (Z.of_nat (length l1) + 1) with (Z.of_nat (length (l1 ++ [v])))
      by (rewrite length_app; cbn [length]; lia).
    rewrite IH by (rewrite length_app; lia).
    rewrite <- app_assoc. cbn [app seq map]. subst v.
    rewrite length_app. cbn [length].
    replace (Z.to_nat (Z.of_nat (length l1) - 1)) with (length l1 - 1)%nat
      by lia.
    replace (length l1 + 1 - 1)%nat with (S (length l1 - 1)) by lia.
    reflexivity.
Qed.

(** A list cut after its first [n] elements. *)
Lemma cut_at (l : list Z) (n : nat) :
  (n <= length l)%nat ->
  exists l1 l2, l = l1 ++ l2 /\ length l1 = n /\ length l2 = (length l - n)%nat.
Proof.
  intros H. exists (take n l), (drop n l).
  rewrite take_drop, length_take, length_drop. repeat split; lia.
Qed.

Lemma length_fresh (b : kbuf) (n : Z) : length (fresh b n) = Z.to_nat n.
Proof. unfold fresh. rewrite length_map, length_seq. reflexivity. Qed.

(** ** From submission to the call of the inner engine *)

Ltac proj :=
  cbn [ctx req req_ctx trace inflight src src_len dst dst_len flags
       child_src child_src_len child_dst_len in_buf out_buf
       with_dst_len with_dst with_req_ctx with_child with_child_dst_len
       with_in_buf with_out_buf with_inflight log key_size hash_name child
       mbind option_bind].

Lemma sg_set_buf_concat (off : Z) (buf : list Z) (next : scatterlist) :
  off <= PAGE_SIZE ->
  concat (pkcs1pad_sg_set_buf PAGE_SIZE off buf (Z.of_nat (length buf))
            (Some next))
  = buf ++ concat next.
Proof.
  intros Hoff. unfold pkcs1pad_sg_set_buf.
  destruct (Z.leb_spec (off + Z.of_nat (length buf)) PAGE_SIZE).
  - cbn [app concat]. rewrite Nat2Z.id, firstn_all. reflexivity.
  - cbn [app concat]. rewrite app_assoc, take_take_drop.
    rewrite take_ge by lia. reflexivity.
Qed.

Lemma sg_bytes_chain (off : Z) (buf : list Z) (next : scatterlist)
    (n : Z) (tail : list Z) :
  off <= PAGE_SIZE -> sg_bytes next n = Some tail ->
  sg_bytes (pkcs1pad_sg_set_buf PAGE_SIZE off buf (Z.of_nat (length buf))
              (Some next)) (Z.of_nat (length buf) + n)
  = Some (buf ++ tail).
Proof.
  intros Hoff Hn. unfold sg_bytes in *. rewrite sg_set_buf_concat by assumption.
  rewrite length_app.
  destruct (Z.leb_spec 0 n); [|discriminate].
  destruct (Z.leb_spec n (Z.of_nat (length (concat next)))); [|discriminate].
  cbn [andb] in Hn. injection Hn as <-.
  destruct (Z.leb_spec 0 (Z.of_nat (length buf) + n)); [|lia].
  destruct (Z.leb_spec (Z.of_nat (length buf) + n)
              (Z.of_nat (length buf + length (concat next)))); [|lia].
  cbn [andb]. f_equal. rewrite take_app.
  rewrite take_ge by lia. f_equal. f_equal. lia.
Qed.

Lemma sg_bytes_length (sg : scatterlist) (n : Z) (b : list Z) :
  sg_bytes sg n = Some b -> Z.of_nat (length b) = n.
Proof.
  unfold sg_bytes. destruct (Z.leb_spec 0 n); [|discriminate].
  destruct (Z.leb_spec n (Z.of_nat (length (concat sg)))); [|discriminate].
  cbn [andb]. intros [= <-]. rewrite length_take. lia.
Qed.

Lemma length_encrypt_pad rnd k len :
  0 <= k - 3 - len -> Z.of_nat (length (encrypt_pad rnd k len)) = k - 1 - len.
Proof.
  intros H. unfold encrypt_pad.
  rewrite !length_app, length_map, length_seq. cbn [length]. lia.
Qed.

(** The three writes of encrypt into a fresh buffer of k - 1 - len bytes
    build the padding of the spec. *)
Lemma encrypt_fill (rnd : nat -> Z) (buf : list Z) (k len : Z) :
  0 <= k - 3 - len -> Z.of_nat (length buf) = k - 1 - len ->
  (b ← store buf 0 0x02;
   b ← fill_ps (Z.to_nat (k - len - 2 - 1)) 1 rnd b;
   store b (k - len - 2) 0x00) = Some (encrypt_pad rnd k len).
Proof.
  intros Hm Hlen.
  destruct buf as [|x0 buf]; [cbn [length] in Hlen; lia|].
  destruct (cut_at buf (Z.to_nat (k - 3 - len))) as (mid & l2 & -> & Hmid & Hl2).
  { cbn [length] in Hlen. lia. }
  destruct l2 as [|xl [|? ?]];
    try (cbn [length] in Hlen, Hl2; rewrite length_app in Hlen, Hl2;
         cbn [length] in Hlen, Hl2; lia).
  change (store (x0 :: mid ++ [xl]) 0 2)
    with (store ([] ++ x0 :: mid ++ [xl]) (Z.of_nat (length (@nil Z))) 2).
  rewrite store_middle. cbn [app mbind option_bind].
  replace (Z.to_nat (k - len - 2 - 1)) with (length mid) by lia.
  change (fill_ps (length mid) 1 rnd (2 :: mid ++ [xl]))
    with (fill_ps (length mid) (Z.of_nat (length [2])) rnd ([2] ++ mid ++ [xl])).
  rewrite fill_ps_middle by (cbn; lia). cbn [mbind option_bind length].
  rewrite app_assoc.
  replace (k - len - 2) with
    (Z.of_nat (length ([2] ++ map (fun j => u8 (1 + rnd j))
                                  (seq (1 - 1) (length mid)))))
    by (rewrite length_app, length_map, length_seq; cbn [length]; lia).
  rewrite store_middle. rewrite <- app_assoc.
  unfold encrypt_pad. rewrite Hmid. reflexivity.
Qed.

Lemma call_child_eq op f (st : machine T) (bytes out : list Z) :
  sg_bytes (child_src (req_ctx st)) (child_src_len (req_ctx st)) = Some bytes ->
  out_buf (req_ctx st) = Some out ->
  let rep := f (child (ctx st)) bytes (child_dst_len (req_ctx st))
               (flags (req st)) in
  call_child op f st =
    Some (rc rep,
          {| ctx := ctx st; req := req st;
             req_ctx := {| child_src := child_src (req_ctx st);
                           child_src_len := child_src_len (req_ctx st);
                           child_dst_len := r_dst_len rep;
                           in_buf := in_buf (req_ctx st);
                           out_buf := Some (engine_writes (r_out rep) out) |};
             trace := trace st ++ [EvChild op bytes (child_src_len (req_ctx st))
                                     (child_dst_len (req_ctx st))];
             inflight := Some (late rep) |}).
Proof.
  intros Hb Ho rep. unfold call_child. rewrite Hb, Ho. reflexivity.
Qed.

Lemma encrypt_submit o (st : machine T) (ka kb : kbuf) (pt : list Z) :
  let k := key_size (ctx st) in
  let len := src_len (req st) in
  wf_machine st ->
  0 <= len <= k - 11 -> k <= dst_len (req st) -> k <= PAGE_SIZE ->
  in_alloc o = Some ka -> page_offset ka <= PAGE_SIZE ->
  out_alloc o = Some kb ->
  sg_bytes (src (req st)) len = Some pt ->
  let pad := encrypt_pad (prandom o) k len in
  let rep := crypto_akcipher_encrypt (child (ctx st)) (pad ++ pt) k
               (flags (req st)) in
  let st1 := after_call st OpEncrypt [EvKmalloc (k - 1 - len) (gfp_of (flags (req st)));
                EvKmalloc k (gfp_of (flags (req st)))]
               (pkcs1pad_sg_set_buf PAGE_SIZE (page_offset ka) pad
                  (k - 1 - len) (Some (src (req st))))
               (k - 1) (Some pad) kb (pad ++ pt) rep in
  encrypt o st =
    if completes_now (rc rep) (flags (req st))
    then pkcs1pad_encrypt_sign_complete st1 (rc rep)
    else Some (rc rep, st1).
Proof.
  intros k len [Hk _ Hd _] Hlen Hdst Hpg Hin Hoff Hout Hsrc pad rep st1.
  unfold is_u32 in *. fold k in Hk.
  unfold pkcs1pad_encrypt. fold k len.
  rewrite (u32_small (k - 11)), (u32_small (k - 1)),
    (u32_small (k - 1 - len)), (u32_small (k - len - 2)) by lia.
  destruct (Z.eqb_spec k 0); [lia|].
  destruct (Z.ltb_spec (k - 11) len); [lia|].
  destruct (Z.ltb_spec (dst_len (req st)) k); [lia|].
  destruct (Z.ltb_spec PAGE_SIZE k); [lia|].
  rewrite Hin, Hout.
  pose proof (encrypt_fill (prandom o) (fresh ka (k - 1 - len)) k len) as Hfill.
  rewrite length_fresh in Hfill.
  specialize (Hfill ltac:(lia) ltac:(lia)). fold pad in Hfill.
  destruct (store (fresh ka (k - 1 - len)) 0 2) as [b1|]; [|discriminate].
  cbn [mbind option_bind] in Hfill |- *.
  destruct (fill_ps _ 1 (prandom o) b1) as [b2|]; [|discriminate].
  cbn [mbind option_bind] in Hfill |- *. rewrite Hfill.
  cbn [mbind option_bind].
  assert (Hpl : Z.of_nat (length pad) = k - 1 - len)
    by (apply length_encrypt_pad; lia).
  erewrite call_child_eq; cycle 1.
  { proj. rewrite <- Hpl.
    replace (k - 1) with (Z.of_nat (length pad) + len) by lia.
    apply sg_bytes_chain; [exact Hoff | exact Hsrc]. }
  { proj. reflexivity. }
  proj. rewrite <- !app_assoc. reflexivity.
Qed.

Lemma lookup_from_elem p n t : lookup_from p n = Some t -> t ∈ p.
Proof.
  induction p as [|t' p IH]; cbn [lookup_from]; [discriminate|].
  destruct (String.eqb n (name t')).
  - intros [= ->]. left.
  - intros H. right. exact (IH H).
Qed.

Lemma template_size n t :
  rsa_lookup_asn1 n = Some t -> size t = Z.of_nat (length (data t)).
Proof.
  intros H. apply lookup_from_elem in H. unfold rsa_asn1_templates in H.
  repeat (apply elem_of_cons in H as [->|H]; [reflexivity|]).
  apply elem_of_nil in H. contradiction.
Qed.

Lemma length_sign_pad der k len :
  0 <= k - 3 - len - Z.of_nat (length der) ->
  Z.of_nat (length (sign_pad der k len)) = k - 1 - len.
Proof.
  intros H. unfold sign_pad.
  rewrite !length_app, length_replicate. cbn [length]. lia.
Qed.

(** The writes of sign into a fresh buffer of k - 1 - len bytes build
    the padding of the spec; [with_der] tells whether a DigestInfo
    template is copied in. *)
Lemma sign_fill (with_der : bool) (buf der : list Z) (k len : Z) :
  let d := Z.of_nat (length der) in
  let ps_end := k - d - len - 2 in
  0 <= k - 3 - len - d -> Z.of_nat (length buf) = k - 1 - len ->
  (with_der = false -> der = []) ->
  (b ← store buf 0 0x01;
   b ← memset b 1 0xff (ps_end - 1);
   b ← store b ps_end 0x00;
   if with_der then memcpy b (ps_end + 1) der d else Some b)
  = Some (sign_pad der k len).
Proof.
  intros d ps_end Hm Hlen Hder.
  destruct buf as [|x0 buf]; [cbn [length] in Hlen; lia|].
  destruct (cut_at buf (Z.to_nat (k - 3 - len - d)))
    as (mid & l2 & -> & Hmid & Hl2).
  { cbn [length] in Hlen. lia. }
  cbn [length] in Hlen. rewrite length_app in Hlen, Hl2.
  destruct l2 as [|xs tl]; [cbn [length] in Hlen, Hl2; lia|].
  cbn [length] in Hlen, Hl2.
  change (store (x0 :: mid ++ xs :: tl) 0 1)
    with (store ([] ++ x0 :: mid ++ xs :: tl) (Z.of_nat (length (@nil Z))) 1).
  rewrite store_middle. cbn [app mbind option_bind].
  replace (ps_end - 1) with (Z.of_nat (length mid)) by (subst ps_end; lia).
  change (memset (1 :: mid ++ xs :: tl) 1 255 (Z.of_nat (length mid)))
    with (memset ([1] ++ mid ++ xs :: tl) (Z.of_nat (length [1])) 255
            (Z.of_nat (length mid))).
  rewrite memset_middle. cbn [mbind option_bind].
  rewrite app_assoc.
  replace ps_end with (Z.of_nat (length ([1] ++ replicate (length mid) 255)))
    by (rewrite length_app, length_replicate; cbn [length]; subst ps_end; lia).
  rewrite store_middle. cbn [mbind option_bind].
  unfold sign_pad. fold d. rewrite <- Hmid.
  destruct with_der.
  - replace (([1] ++ replicate (length mid) 255) ++ 0 :: tl)
      with ((([1] ++ replicate (length mid) 255) ++ [0]) ++ tl ++ [])
      by (rewrite app_nil_r, <- !app_assoc; reflexivity).
    replace (Z.of_nat (length ([1] ++ replicate (length mid) 255)) + 1)
      with (Z.of_nat (length (([1] ++ replicate (length mid) 255) ++ [0])))
      by (rewrite !length_app; cbn [length]; lia).
    subst d. rewrite memcpy_middle by lia.
    rewrite app_nil_r, <- !app_assoc. reflexivity.
  - assert (Hd0 : d = 0) by (subst d; rewrite (Hder eq_refl); reflexivity).
    destruct tl; [|cbn [length] in Hlen; lia].
    rewrite (Hder eq_refl), <- !app_assoc. reflexivity.
Qed.

Lemma sign_with_submit o (st : machine T) (ka kb : kbuf) (msg : list Z)
    (di : option rsa_asn1_template) :
  let k := key_size (ctx st) in
  let len := src_len (req st) in
  let der := from_option data [] di in
  let dsz := from_option size 0 di in
  wf_machine st -> dsz = Z.of_nat (length der) ->
  0 <= len -> len + dsz <= k - 11 ->
  k <= dst_len (req st) -> k <= PAGE_SIZE ->
  in_alloc o = Some ka -> page_offset ka <= PAGE_SIZE ->
  out_alloc o = Some kb ->
  sg_bytes (src (req st)) len = Some msg ->
  let pad := sign_pad der k len in
  let rep := crypto_akcipher_sign (child (ctx st)) (pad ++ msg) k
               (flags (req st)) in
  let st1 := after_call st OpSign [EvKmalloc (k - 1 - len) (gfp_of (flags (req st)));
                EvKmalloc k (gfp_of (flags (req st)))]
               (pkcs1pad_sg_set_buf PAGE_SIZE (page_offset ka) pad
                  (k - 1 - len) (Some (src (req st))))
               (k - 1) (Some pad) kb (pad ++ msg) rep in
  sign_with PAGE_SIZE crypto_akcipher_sign di dsz o st =
    if completes_now (rc rep) (flags (req st))
    then pkcs1pad_encrypt_sign_complete st1 (rc rep)
    else Some (rc rep, st1).
Proof.
  intros k len der dsz [Hk _ Hd _] Hsz Hlen0 Hlen Hdst Hpg Hin Hoff Hout Hsrc
    pad rep st1.
  unfold is_u32 in *. fold k in Hk.
  unfold sign_with. fold k len.
  rewrite (u32_small (k - 11)), (u32_small (k - 1)), (u32_small (len + dsz)),
    (u32_small (k - 1 - len)), (u32_small (k - dsz - len - 2)),
    (u32_small (k - dsz - len - 2 - 1)) by lia.
  destruct (Z.ltb_spec (k - 11) (len + dsz)); [lia|].
  destruct (Z.ltb_spec (dst_len (req st)) k); [lia|].
  destruct (Z.ltb_spec PAGE_SIZE k); [lia|].
  rewrite Hin, Hout.
  pose proof (sign_fill (bool_decide (is_Some di)) (fresh ka (k - 1 - len))
                der k len) as Hfill.
  rewrite length_fresh in Hfill. cbv zeta in Hfill. rewrite <- Hsz in Hfill.
  specialize (Hfill ltac:(lia) ltac:(lia)). fold pad in Hfill.
  destruct (store (fresh ka (k - 1 - len)) 0 1) as [b1|];
    [|discriminate Hfill; destruct di; [discriminate|reflexivity]].
  cbn [mbind option_bind] in Hfill |- *.
  destruct (memset b1 1 255 _) as [b2|];
    [|discriminate Hfill; destruct di; [discriminate|reflexivity]].
  cbn [mbind option_bind] in Hfill |- *.
  destruct (store b2 _ 0) as [b3|];
    [|discriminate Hfill; destruct di; [discriminate|reflexivity]].
  cbn [mbind option_bind] in Hfill |- *.
  assert (Hcopy : match di with
                  | Some di0 => memcpy b3 (k - dsz - len - 2 + 1) (data di0)
                                  (size di0)
                  | None => Some b3
                  end = Some pad).
  { destruct di as [di0|]; cbn in Hfill, der, dsz |- *.
    - apply Hfill. discriminate.
    - apply Hfill. reflexivity. }
  rewrite Hcopy. cbn [mbind option_bind].
  assert (Hpl : Z.of_nat (length pad) = k - 1 - len)
    by (apply length_sign_pad; lia).
  erewrite call_child_eq; cycle 1.
  { proj. rewrite <- Hpl.
    replace (k - 1) with (Z.of_nat (length pad) + len) by lia.
    apply sg_bytes_chain; [exact Hoff | exact Hsrc]. }
  { proj. reflexivity. }
  proj. rewrite <- !app_assoc. reflexivity.
Qed.

Lemma decrypt_submit o (st : machine T) (kb : kbuf) (bytes : list Z) :
  let k := key_size (ctx st) in
  k <> 0 -> src_len (req st) = k -> k <= PAGE_SIZE ->
  out_alloc o = Some kb ->
  sg_bytes (src (req st)) k = Some bytes ->
  let rep := crypto_akcipher_decrypt (child (ctx st)) bytes k
               (flags (req st)) in
  let st1 := after_call st OpDecrypt [EvKmalloc k (gfp_of (flags (req st)))]
               (src (req st)) k
               (in_buf (req_ctx st)) kb bytes rep in
  decrypt o st =
    if completes_now (rc rep) (flags (req st))
    then pkcs1pad_decrypt_complete st1 (rc rep)
    else Some (rc rep, st1).
Proof.
  intros k Hk Hlen Hpg Hout Hsrc rep st1.
  unfold pkcs1pad_decrypt. fold k. rewrite Hlen, Hout.
  destruct (Z.eqb_spec k 0); [contradiction|].
  rewrite Z.eqb_refl. cbn [negb orb].
  destruct (Z.ltb_spec PAGE_SIZE k); [lia|].
  erewrite call_child_eq; cycle 1.
  { proj. exact Hsrc. }
  { proj. reflexivity. }
  proj. rewrite <- !app_assoc. reflexivity.
Qed.

Lemma verify_submit o (st : machine T) (kb : kbuf) (bytes : list Z) :
  let k := key_size (ctx st) in
  let n := src_len (req st) in
  k <> 0 -> k <= n -> k <= PAGE_SIZE ->
  out_alloc o = Some kb ->
  sg_bytes (src (req st)) n = Some bytes ->
  let rep := crypto_akcipher_verify (child (ctx st)) bytes k
               (flags (req st)) in
  let st1 := after_call st OpVerify [EvKmalloc k (gfp_of (flags (req st)))]
               (src (req st)) n
               (in_buf (req_ctx st)) kb bytes rep in
  verify o st =
    if completes_now (rc rep) (flags (req st))
    then pkcs1pad_verify_complete st1 (rc rep)
    else Some (rc rep, st1).
Proof.
  intros k n Hk Hlen Hpg Hout Hsrc rep st1.
  unfold pkcs1pad_verify. fold k n. rewrite Hout.
  destruct (Z.eqb_spec k 0); [contradiction|].
  destruct (Z.ltb_spec n k); [lia|]. cbn [orb].
  destruct (Z.ltb_spec PAGE_SIZE k); [lia|].
  erewrite call_child_eq; cycle 1.
  { proj. exact Hsrc. }
  { proj. reflexivity. }
  proj. rewrite <- !app_assoc. reflexivity.
Qed.

(** ** The blocks handed to the inner engine *)

Lemma u8_draw (r : Z) : 0 <= r < 255 -> 1 <= u8 (1 + r) <= 255.
Proof. intros H. unfold u8. rewrite Z.mod_small; lia. Qed.

Lemma encrypt_pad_bytes (rnd : nat -> Z) (k len : Z) :
  (forall j, 0 <= rnd j < 255) -> 0 <= k - 3 - len ->
  exists ps, encrypt_pad rnd k len = [0x02] ++ ps ++ [0x00] /\
             Z.of_nat (length ps) = k - 3 - len /\
             Forall (fun b => 1 <= b <= 255) ps.
Proof.
  intros Hr Hm. eexists. split; [reflexivity|]. split.
  - rewrite length_map, length_seq. lia.
  - apply Forall_forall. intros b Hb.
    apply in_map_iff in Hb as (j & <- & _). apply u8_draw, Hr.
Qed.

(** X20.  For every encrypt request with a key of k bytes and a
    plaintext of len <= k - 11 bytes (so k >= 11), a destination of at
    least k bytes and k <= PAGE_SIZE, whose source chain holds the len
    bytes it announces and whose two allocations are granted, the first
    at an offset inside a page, and with prandom_u32_max(255) answering
    below 255: the working buffer put in front of the caller's plaintext
    is 0x02, then exactly k - 3 - len padding bytes, each in [1, 255]
    and so never 0x00, then a single 0x00; and the inner engine is
    invoked on that buffer followed by the plaintext, k - 1 bytes, with
    source length k - 1 and destination length k, after the two
    allocations of k - 1 - len and of k bytes. *)
Theorem encrypt_working_buffer o (st : machine T) (pt : list Z) :
  let k := key_size (ctx st) in
  let len := src_len (req st) in
  ready PAGE_SIZE OpEncrypt o st ->
  (forall j, 0 <= prandom o j < 255) ->
  sg_bytes (src (req st)) len = Some pt ->
  exists (ps : list Z) (st1 : machine T),
    let pad := [0x02] ++ ps ++ [0x00] in
    let err := rc (crypto_akcipher_encrypt (child (ctx st)) (pad ++ pt) k
                     (flags (req st))) in
    Z.of_nat (length ps) = k - 3 - len /\
    Forall (fun b => 1 <= b <= 255) ps /\
    in_buf (req_ctx st1) = Some pad /\
    Z.of_nat (length (pad ++ pt)) = k - 1 /\
    child_src_len (req_ctx st1) = k - 1 /\
    trace st1 = trace st ++ [EvKmalloc (k - 1 - len) (gfp_of (flags (req st)));
                             EvKmalloc k (gfp_of (flags (req st)));
                             EvChild OpEncrypt (pad ++ pt) (k - 1) k] /\
    encrypt o st =
      if completes_now err (flags (req st))
      then pkcs1pad_encrypt_sign_complete st1 err
      else Some (err, st1).
Proof.
  intros k len (Hwf & Hk & Hpg & _ & [kb Hout] & Hdst & (ka & Hin & Hoff) & Hlen)
    Hrnd Hsrc.
  pose proof (wf_src_len _ Hwf) as [Hl0 _]. fold len in Hl0.
  destruct (encrypt_pad_bytes (prandom o) k len Hrnd) as (ps & Hpad & Hps & Hall);
    [lia|].
  pose proof (encrypt_submit o st ka kb pt Hwf ltac:(fold k len; lia) Hdst Hpg
                Hin ltac:(lia) Hout Hsrc) as Heq.
  cbv zeta in Heq. fold k len in Heq. rewrite Hpad in Heq.
  exists ps.
  match type of Heq with
  | _ = (if _ then _ else Some (_, ?s)) => exists s
  end.
  cbv zeta.
  split; [exact Hps|]. split; [exact Hall|].
  split; [|split; [|split; [|split; [|exact Heq]]]].
  - reflexivity.
  - apply sg_bytes_length in Hsrc. rewrite !length_app. cbn [length]. lia.
  - reflexivity.
  - reflexivity.
Qed.

(** X21.  For every sign request on a transform configured with a hash
    of the table, with a key of k bytes and a message of len bytes such
    that len + len(der_prefix) <= k - 11 (so k >= 11), a destination of
    at least k bytes and k <= PAGE_SIZE, whose source chain holds the
    len bytes it announces and whose two allocations are granted, the
    first at an offset inside a page: the block submitted to the inner
    engine, working buffer then caller's message, k - 1 bytes in all,
    is 0x01, then k - 3 - len - len(der_prefix) bytes 0xff, then a
    single 0x00, then the DER prefix of the hash, then the message.  For
    k = 128 and a 5-byte message with sha256 the working buffer has 122
    bytes. *)
Theorem sign_block o (st : machine T) (h : string) (di : rsa_asn1_template)
    (msg : list Z) :
  let k := key_size (ctx st) in
  let len := src_len (req st) in
  let der := data di in
  ready PAGE_SIZE OpSign o st ->
  hash_name (ctx st) = Some h -> rsa_lookup_asn1 h = Some di ->
  sg_bytes (src (req st)) len = Some msg ->
  exists st1 : machine T,
    let ps := replicate (Z.to_nat (k - 3 - len - Z.of_nat (length der))) 0xff in
    let pad := [0x01] ++ ps ++ [0x00] ++ der in
    let err := rc (crypto_akcipher_sign (child (ctx st)) (pad ++ msg) k
                     (flags (req st))) in
    0 <= k - 3 - len - Z.of_nat (length der) /\
    in_buf (req_ctx st1) = Some pad /\
    Z.of_nat (length pad) = k - 1 - len /\
    Z.of_nat (length (pad ++ msg)) = k - 1 /\
    child_src_len (req_ctx st1) = k - 1 /\
    trace st1 = trace st ++ [EvKmalloc (k - 1 - len) (gfp_of (flags (req st)));
                             EvKmalloc k (gfp_of (flags (req st)));
                             EvChild OpSign (pad ++ msg) (k - 1) k] /\
    sign o st =
      (if completes_now err (flags (req st))
       then pkcs1pad_encrypt_sign_complete st1 err
       else Some (err, st1)) /\
    (k = 128 -> len = 5 -> h = "sha256"%string ->
       der = rsa_digest_info_sha256 /\ length der = 19%nat /\
       length pad = 122%nat).
Proof.
  intros k len der
    (Hwf & Hk & Hpg & _ & [kb Hout] & Hdst & (ka & Hin & Hoff) & (di' & Hdi & Hlen))
    Hh Hlook Hsrc.
  unfold configured_digest in Hdi. rewrite Hh, Hlook in Hdi.
  injection Hdi as <-. cbn [from_option] in Hlen.
  pose proof (template_size _ _ Hlook) as Hsz. fold der in Hsz.
  pose proof (wf_src_len _ Hwf) as [Hl0 _]. fold len in Hl0.
  pose proof (sign_with_submit o st ka kb msg (Some di) Hwf Hsz Hl0 Hlen Hdst
                Hpg Hin ltac:(lia) Hout Hsrc) as Heq.
  cbv zeta in Heq. cbn [from_option] in Heq. fold k len der in Heq.
  assert (Hsign : sign o st =
            sign_with PAGE_SIZE crypto_akcipher_sign (Some di) (size di) o st).
  { unfold pkcs1pad_sign. fold k. rewrite Hh, Hlook.
    destruct (Z.eqb_spec k 0); [contradiction|]. reflexivity. }
  rewrite <- Hsign in Heq. unfold sign_pad in Heq.
  assert (Hpl : Z.of_nat (length (sign_pad der k len)) = k - 1 - len)
    by (apply length_sign_pad; lia).
  unfold sign_pad in Hpl.
  match type of Heq with
  | _ = (if _ then _ else Some (_, ?s)) => exists s
  end.
  cbv zeta.
  split; [lia|]. split; [reflexivity|]. split; [exact Hpl|].
  split; [|split; [reflexivity|split; [reflexivity|split; [exact Heq|]]]].
  - apply sg_bytes_length in Hsrc. rewrite length_app. lia.
  - intros Hk128 Hl5 ->.
    split; [|split]; [| |apply Nat2Z.inj; rewrite Hpl, Hk128, Hl5; reflexivity];
      vm_compute in Hlook; injection Hlook as <-; reflexivity.
Qed.

(** ** Dispatch after the inner call *)

Lemma completes_now_pending (err fl : Z) :
  completes_now err fl = false <-> pending err fl.
Proof.
  unfold completes_now, pending.
  destruct (Z.eqb_spec err (- EINPROGRESS)), (Z.eqb_spec err (- EBUSY)),
    (Z.eqb_spec (Z.land fl CRYPTO_TFM_REQ_MAY_BACKLOG) 0);
    cbn [negb andb orb]; split; intros H; try discriminate H; try reflexivity;
    try (left; assumption); try (right; split; assumption);
    destruct H as [?|[? ?]]; congruence.
Qed.

Lemma sign_digest (st : machine T) o (di : option rsa_asn1_template) :
  key_size (ctx st) <> 0 ->
  configured_digest (hash_name (ctx st)) = Some di ->
  sign o st = sign_with PAGE_SIZE crypto_akcipher_sign di
                (from_option size 0 di) o st /\
  from_option size 0 di = Z.of_nat (length (from_option data [] di)).
Proof.
  intros Hk Hdi. unfold pkcs1pad_sign, configured_digest in *.
  destruct (Z.eqb_spec (key_size (ctx st)) 0); [contradiction|].
  destruct (hash_name (ctx st)) as [h|].
  - destruct (rsa_lookup_asn1 h) as [t|] eqn:Ht; [|discriminate].
    injection Hdi as <-. cbn [from_option]. split; [reflexivity|].
    exact (template_size _ _ Ht).
  - injection Hdi as <-. split; reflexivity.
Qed.

Local Abbreviation submit := (submit_of PAGE_SIZE crypto_akcipher_encrypt
  crypto_akcipher_decrypt crypto_akcipher_sign crypto_akcipher_verify).
Local Abbreviation engine := (engine_of crypto_akcipher_encrypt
  crypto_akcipher_decrypt crypto_akcipher_sign crypto_akcipher_verify).

(** Under [ready], a submission is the call of the inner engine on a
    state [after_call], followed by the test [completes_now]. *)
Lemma submit_after_call op o (st : machine T) :
  ready PAGE_SIZE op o st ->
  exists pre csrc csl ib kb bytes,
    let k := key_size (ctx st) in
    let rep := engine op (child (ctx st)) bytes k (flags (req st)) in
    let st1 := after_call st op pre csrc csl ib kb bytes rep in
    Forall (fun e => exists n g, e = EvKmalloc n g) pre /\
    submit op o st =
      if completes_now (rc rep) (flags (req st))
      then complete_of op st1 (rc rep)
      else Some (rc rep, st1).
Proof.
  intros (Hwf & Hk & Hpg & [bytes Hsrc] & [kb Hout] & Hop).
  pose proof (wf_src_len _ Hwf) as [Hl0 _].
  destruct op.
  - destruct Hop as (Hdst & (ka & Hin & Hoff) & Hlen).
    eexists _, _, _, _, _, _. cbv zeta. split; cycle 1.
    + apply (encrypt_submit o st ka kb bytes Hwf); try assumption; lia.
    + repeat constructor; eexists _, _; reflexivity.
  - eexists _, _, _, _, _, _. cbv zeta. split; cycle 1.
    + apply (decrypt_submit o st kb bytes); try assumption.
      rewrite <- Hop. exact Hsrc.
    + repeat constructor; eexists _, _; reflexivity.
  - destruct Hop as (Hdst & (ka & Hin & Hoff) & (di & Hdi & Hlen)).
    destruct (sign_digest st o di Hk Hdi) as [Hsign Hsz].
    eexists _, _, _, _, _, _. cbv zeta. split; cycle 1.
    + cbn [submit_of]. rewrite Hsign.
      apply (sign_with_submit o st ka kb bytes di Hwf); try assumption; lia.
    + repeat constructor; eexists _, _; reflexivity.
  - eexists _, _, _, _, _, _. cbv zeta. split; cycle 1.
    + apply (verify_submit o st kb bytes); assumption.
    + repeat constructor; eexists _, _; reflexivity.
Qed.

(** C9.  For each of the four operations, on a request that reaches the
    inner engine: let [st1] be the request at the moment the inner call
    returns [err] (the call is the last event, the caller's request is
    untouched, the output buffer is still allocated).  When [err] is
    -EINPROGRESS, or -EBUSY on a request carrying the may-backlog flag,
    submit returns [err] and leaves the request as [st1]: no
    post-processing has run.  For every other [err], success or error,
    submit is the post-processing of [st1] with [err]: it runs before
    submit returns and its result is what submit returns.  The
    completion callback of the child request does nothing on
    -EINPROGRESS; on any other error it runs that same post-processing
    and hands its result to the caller's completion. *)
Theorem submit_dispatch op o (st : machine T) :
  ready PAGE_SIZE op o st ->
  exists (st1 : machine T) (pre : list event) (bytes : list Z),
    let k := key_size (ctx st) in
    let fl := flags (req st) in
    let err := rc (engine op (child (ctx st)) bytes k fl) in
    trace st1 = trace st ++ pre
                  ++ [EvChild op bytes (child_src_len (req_ctx st1)) k] /\
    Forall (fun e => exists n g, e = EvKmalloc n g) pre /\
    req st1 = req st /\ ctx st1 = ctx st /\
    is_Some (out_buf (req_ctx st1)) /\
    (pending err fl -> submit op o st = Some (err, st1)) /\
    (~ pending err fl -> submit op o st = complete_of op st1 err) /\
    (forall s : machine T, callback_of op s (- EINPROGRESS) = Some s) /\
    (forall (s : machine T) (e : Z), e <> - EINPROGRESS ->
       callback_of op s e =
         '(r, s') ← complete_of op s e; Some (log (EvComplete r) s')).
Proof.
  intros Hready.
  destruct (submit_after_call op o st Hready)
    as (pre & csrc & csl & ib & kb & bytes & Hpre & Heq).
  cbv zeta in Heq.
  match type of Heq with
  | _ = (if _ then _ else Some (_, ?s)) => exists s
  end.
  exists pre, bytes. cbv zeta.
  split; [reflexivity|]. split; [exact Hpre|].
  split; [reflexivity|]. split; [reflexivity|].
  split; [eexists; reflexivity|].
  split; [|split; [|split]].
  - intros Hp. apply completes_now_pending in Hp. rewrite Hp in Heq. exact Heq.
  - intros Hp. destruct (completes_now _ _) eqn:Hc; [exact Heq|].
    apply completes_now_pending in Hc. contradiction.
  - intros s. destruct op; reflexivity.
  - intros s e He.
    destruct op; cbn [callback_of complete_of];
      unfold pkcs1pad_encrypt_sign_complete_cb, pkcs1pad_decrypt_complete_cb,
        pkcs1pad_verify_complete_cb;
      (destruct (Z.eqb_spec e (- EINPROGRESS)); [contradiction|reflexivity]).
Qed.

(** ** Completion of verify *)

Lemma verify_complete_eq (st : machine T) (out : list Z) :
  let k := key_size (ctx st) in
  0 < k < 2 ^ 32 ->
  out_buf (req_ctx st) = Some out -> length out = Z.to_nat k ->
  child_dst_len (req_ctx st) = k - 1 ->
  pkcs1pad_verify_complete st 0 =
    (b0 ← out !! 0%nat;
     if negb (b0 =? 0x01) then Some (done (- EBADMSG, st)) else
     let p := match pad_end (take (Z.to_nat (k - 1)) out) with
              | Some s => Z.of_nat s
              | None => k - 1
              end in
     bad ← (if (p <? 9) || (p =? k - 1) then Some true
            else b ← out !! Z.to_nat p; Some (negb (b =? 0x00)));
     if bad : bool then Some (done (- EBADMSG, st)) else
     match hash_name (ctx st) with
     | Some h =>
         match rsa_lookup_asn1 h with
         | None => Some (done (- EBADMSG, st))
         | Some digest_info =>
             ne ← memcmp_ne out (p + 1) (data digest_info)
                             (Z.to_nat (size digest_info));
             if ne : bool then Some (done (- EBADMSG, st)) else
             r ← deliver st out 0 (u32 (p + 1 + size digest_info));
             Some (done r)
         end
     | None => r ← deliver st out 0 (p + 1); Some (done r)
     end).
Proof.
  intros k Hk Hout Hlen Hcdl. unfold pkcs1pad_verify_complete.
  fold k. rewrite Hcdl, Hout, (u32_small (k - 1)) by lia.
  change (0 =? - EOVERFLOW) with false. cbv iota.
  rewrite !Z.eqb_refl. cbn [negb mbind option_bind].
  rewrite load_lookup by lia. change (Z.to_nat 0) with 0%nat.
  destruct (out !! 0%nat) as [b0|]; cbn [mbind option_bind]; [|reflexivity].
  destruct (negb (b0 =? 1)); [reflexivity|].
  rewrite scan_ff_find by lia. cbn [mbind option_bind].
  change (Z.to_nat 1) with 1%nat.
  destruct (Z.eq_dec k 1) as [Hk1|Hk1].
  - rewrite Hk1. change (Z.to_nat (1 - 1 - 1)) with 0%nat.
    change (Z.to_nat (1 - 1)) with 0%nat. rewrite !take_0.
    reflexivity.
  - replace (Z.to_nat (k - 1 - 1)) with (Z.to_nat (k - 1) - 1)%nat by lia.
    rewrite (scan_block (fun b => b <> 255) out (Z.to_nat (k - 1))) by lia.
    fold (pad_end (take (Z.to_nat (k - 1)) out)).
    pose proof (first_from_lt (fun b => b <> 255) (take (Z.to_nat (k - 1)) out))
      as Hlt. fold (pad_end (take (Z.to_nat (k - 1)) out)) in Hlt.
    destruct (pad_end _) as [s|].
    + specialize (Hlt s eq_refl). rewrite length_take in Hlt.
      destruct (_ || _); [reflexivity|].
      rewrite load_lookup by lia. rewrite (u32_small (_ + 1)) by lia.
      reflexivity.
    + rewrite Z2Nat.id by lia.
      destruct (_ || _) eqn:Hb; [reflexivity|].
      rewrite Z.eqb_refl, orb_true_r in Hb. discriminate.
Qed.

Lemma deliver_codes (st : machine T) out pos r st' :
  deliver st out 0 pos = Some (r, st') -> r = 0 \/ r = - EOVERFLOW.
Proof.
  unfold deliver. intros H.
  destruct (dst_len (req st) <? _).
  - change (- EOVERFLOW =? 0) with false in H. injection H as <- _.
    right. reflexivity.
  - rewrite Z.eqb_refl in H.
    destruct (sg_copy_from_buffer _ _ _); [|discriminate]. cbn in H.
    injection H as <- _. left. reflexivity.
Qed.

Lemma memcmp_ne_mismatch n : forall (pat : list Z) pos (buf : list Z) i b c,
  0 <= pos -> (i < n)%nat ->
  pat !! i = Some c -> buf !! (Z.to_nat pos + i)%nat = Some b -> b <> c ->
  memcmp_ne buf pos pat n = Some true.
Proof.
  induction n as [|n IH]; intros pat pos buf i b c Hpos Hi Hc Hb Hne; [lia|].
  destruct pat as [|d pat]; [discriminate|]. cbn [memcmp_ne].
  rewrite load_lookup by assumption.
  destruct (lookup_lt_is_Some_2 buf (Z.to_nat pos)) as [b0 Hb0].
  { apply lookup_lt_Some in Hb. lia. }
  rewrite Hb0. cbn [mbind option_bind].
  destruct (Z.eqb_spec b0 d) as [->|Hd]; [|reflexivity].
  destruct i as [|i].
  - rewrite Nat.add_0_r in Hb. cbn in Hc. congruence.
  - apply (IH pat (pos + 1) buf i b c); try assumption; try lia.
    rewrite <- Hb. f_equal. lia.
Qed.

(** A comparison that reports a difference has met a differing byte
    inside the buffer. *)
Lemma memcmp_ne_differs n : forall (pat : list Z) pos (buf : list Z),
  0 <= pos -> memcmp_ne buf pos pat n = Some true ->
  exists i b c, pat !! i = Some c /\
                buf !! (Z.to_nat pos + i)%nat = Some b /\ b <> c.
Proof.
  induction n as [|n IH]; intros pat pos buf Hpos H;
    destruct pat as [|d pat]; cbn [memcmp_ne] in H; try discriminate H.
  rewrite load_lookup in H by assumption.
  destruct (buf !! Z.to_nat pos) as [b|] eqn:Hb; [|discriminate H].
  cbn [mbind option_bind] in H.
  destruct (Z.eqb_spec b d) as [->|Hd].
  - destruct (IH pat (pos + 1) buf ltac:(lia) H) as (i & b' & c & Hc & Hb' & Hne).
    exists (S i), b', c. split; [exact Hc|]. split; [|exact Hne].
    rewrite <- Hb'. f_equal. lia.
  - exists 0%nat, b, d. rewrite Nat.add_0_r.
    split; [reflexivity|]. split; [exact Hb | exact Hd].
Qed.

(** A block 0x01, [n] bytes 0xff, 0x00 and a rest, seen by [pad_end]. *)
Lemma pad_end_shape (n : nat) (rest : list Z) :
  let block := [0x01] ++ replicate n 0xff ++ [0x00] ++ rest in
  block !! 0%nat = Some 0x01 /\ pad_end block = Some (S n) /\
  block !! S n = Some 0x00.
Proof.
  cbv zeta. split; [reflexivity|].
  assert (H0 : ([1] ++ replicate n 255 ++ [0] ++ rest) !! S n = Some 0).
  { rewrite (lookup_app_r [1]) by (cbn [length]; lia). cbn [length].
    replace (S n - 1)%nat with n by lia.
    rewrite lookup_app_r by (rewrite length_replicate; lia).
    rewrite length_replicate, Nat.sub_diag. reflexivity. }
  split; [|exact H0].
  apply first_from_Some. split; [lia|]. split.
  - exists 0. split; [exact H0 | discriminate].
  - intros j b Hj Hb Hne. destruct j as [|j]; [lia|].
    rewrite (lookup_app_r [1]) in Hb by (cbn [length]; lia).
    cbn [length] in Hb. replace (S j - 1)%nat with j in Hb by lia.
    rewrite lookup_app_l in Hb by (rewrite length_replicate; lia).
    apply lookup_replicate in Hb as [-> _]. apply Hne. reflexivity.
Qed.

Lemma verify_complete_well_formed (st : machine T) (out : list Z) (p : nat) :
  let k := key_size (ctx st) in
  let block := take (Z.to_nat (k - 1)) out in
  0 < k < 2 ^ 32 ->
  out_buf (req_ctx st) = Some out -> length out = Z.to_nat k ->
  child_dst_len (req_ctx st) = k - 1 ->
  block !! 0%nat = Some 0x01 -> pad_end block = Some p -> (9 <= p)%nat ->
  block !! p = Some 0x00 ->
  pkcs1pad_verify_complete st 0 =
    match hash_name (ctx st) with
    | Some h =>
        match rsa_lookup_asn1 h with
        | None => Some (done (- EBADMSG, st))
        | Some digest_info =>
            ne ← memcmp_ne out (Z.of_nat p + 1) (data digest_info)
                            (Z.to_nat (size digest_info));
            if ne : bool then Some (done (- EBADMSG, st)) else
            r ← deliver st out 0 (u32 (Z.of_nat p + 1 + size digest_info));
            Some (done r)
        end
    | None => r ← deliver st out 0 (Z.of_nat p + 1); Some (done r)
    end.
Proof.
  intros k block Hk Hout Hlen Hcdl Hb0 Hp Hp9 Hsep.
  rewrite (verify_complete_eq st out Hk Hout Hlen Hcdl). fold k block.
  apply lookup_take_Some in Hb0 as [Hb0 _]. rewrite Hb0.
  cbn [mbind option_bind]. change (negb (1 =? 1)) with false. cbv iota zeta.
  rewrite Hp.
  pose proof (first_from_lt _ _ _ Hp) as Hlt. subst block.
  rewrite length_take in Hlt.
  apply lookup_take_Some in Hsep as [Hsep _].
  destruct (Z.ltb_spec (Z.of_nat p) 9); [lia|].
  destruct (Z.eqb_spec (Z.of_nat p) (k - 1)); [lia|]. cbn [orb].
  rewrite Nat2Z.id, Hsep. reflexivity.
Qed.

(** C1 (as amended).  For every verify request whose inner operation
    succeeds with output length k - 1, on an output buffer of k bytes:
    if the recovered block is structurally malformed (first byte not
    0x01, fewer than 8 bytes of 0xff padding, or no 0x00 separator after
    the padding) post-processing completes with -EBADMSG, not with
    -EINVAL, the caller's request untouched; it completes with -EBADMSG
    as well when the structure is well formed and the configured hash
    has no template or some byte of the output buffer behind the
    separator differs from the byte of the DigestInfo prefix at the same
    offset; whenever it completes with -EBADMSG one of these is the
    case; and it never completes with -EINVAL: its only results are
    -EBADMSG, 0 and -EOVERFLOW. *)
Theorem verify_complete_bad_message (st : machine T) (out : list Z) :
  let k := key_size (ctx st) in
  let block := take (Z.to_nat (k - 1)) out in
  let malformed :=
    block !! 0%nat <> Some 0x01 \/
    forall p, pad_end block = Some p ->
              (p < 9)%nat \/ block !! p <> Some 0x00 in
  let mismatch (di : rsa_asn1_template) :=
    exists p i b c, pad_end block = Some p /\ data di !! i = Some c /\
                    out !! (S p + i)%nat = Some b /\ b <> c in
  let unmatched :=
    exists h, hash_name (ctx st) = Some h /\
              match rsa_lookup_asn1 h with
              | None => True
              | Some di => mismatch di
              end in
  0 < k < 2 ^ 32 ->
  out_buf (req_ctx st) = Some out -> length out = Z.to_nat k ->
  child_dst_len (req_ctx st) = k - 1 ->
  (malformed ->
     pkcs1pad_verify_complete st 0 = Some (done (- EBADMSG, st))) /\
  (~ malformed -> unmatched ->
     pkcs1pad_verify_complete st 0 = Some (done (- EBADMSG, st))) /\
  (forall r st', pkcs1pad_verify_complete st 0 = Some (r, st') ->
     r <> - EINVAL /\ (r = - EBADMSG \/ r = 0 \/ r = - EOVERFLOW) /\
     (r = - EBADMSG -> malformed \/ unmatched)).
Proof.
  intros k block malformed mismatch unmatched Hk Hout Hlen Hcdl.
  pose proof (verify_complete_eq st out Hk Hout Hlen Hcdl) as Heq.
  fold k block in Heq.
  destruct (lookup_lt_is_Some_2 out 0) as [b0 Hb0]; [lia|].
  assert (Hblock : forall j b, block !! j = Some b -> out !! j = Some b).
  { intros j b H. subst block. apply lookup_take_Some in H as [H _]. exact H. }
  assert (Hpe : forall p, pad_end block = Some p ->
                  (1 <= p)%nat /\ Z.of_nat p < k - 1).
  { intros p Hp. apply first_from_lt in Hp. subst block.
    rewrite length_take in Hp. lia. }
  split; [|split].
  - (* malformed *)
    intros Hm. rewrite Heq, Hb0. cbn [mbind option_bind].
    destruct (Z.eqb_spec b0 1) as [->|Hne]; cbn [negb]; [|reflexivity].
    cbv zeta. destruct (pad_end block) as [p|] eqn:Hp; cycle 1.
    { rewrite Z.eqb_refl, orb_true_r. reflexivity. }
    destruct (Hpe p eq_refl) as [Hp1 Hpk].
    destruct (Z.ltb_spec (Z.of_nat p) 9) as [H9|H9]; [reflexivity|].
    destruct (Z.eqb_spec (Z.of_nat p) (k - 1)); [lia|]. cbn [orb].
    rewrite Nat2Z.id.
    destruct (lookup_lt_is_Some_2 block p) as [b Hb].
    { subst block. rewrite length_take. lia. }
    rewrite (Hblock _ _ Hb). cbn [mbind option_bind].
    destruct (Z.eqb_spec b 0) as [->|Hb0']; cbn [negb]; [|reflexivity].
    exfalso. destruct Hm as [Hm|Hm].
    + apply Hm. subst block. rewrite lookup_take_lt by lia. exact Hb0.
    + destruct (Hm p eq_refl) as [?|Hn]; [lia|]. exact (Hn Hb).
  - (* well formed, no template or a different prefix *)
    intros Hwf (h & Hh & Hdi).
    assert (H0 : block !! 0%nat = Some 1).
    { destruct (decide (block !! 0%nat = Some 1)) as [H|H]; [exact H|].
      exfalso. apply Hwf. left. exact H. }
    destruct (pad_end block) as [p|] eqn:Hp; cycle 1.
    { exfalso. apply Hwf. right. intros p. discriminate. }
    assert (H9 : (9 <= p)%nat).
    { destruct (le_lt_dec 9 p) as [H|H]; [exact H|].
      exfalso. apply Hwf. right. intros p' [= <-]. left. exact H. }
    assert (Hsep : block !! p = Some 0).
    { destruct (decide (block !! p = Some 0)) as [H|H]; [exact H|].
      exfalso. apply Hwf. right. intros p' [= <-]. right. exact H. }
    rewrite (verify_complete_well_formed st out p Hk Hout Hlen Hcdl H0 Hp H9
               Hsep), Hh.
    destruct (rsa_lookup_asn1 h) as [di|] eqn:Hlook; [|reflexivity].
    destruct Hdi as (p' & i & b & c & [= <-] & Hc & Hb & Hne).
    rewrite (memcmp_ne_mismatch _ (data di) (Z.of_nat p + 1) out i b c);
      try assumption; try lia.
    + reflexivity.
    + rewrite (template_size _ _ Hlook), Nat2Z.id.
      apply lookup_lt_Some in Hc. exact Hc.
    + rewrite <- Hb. f_equal. lia.
  - (* the results *)
    intros r st' Hres. rewrite Heq, Hb0 in Hres.
    cbn [mbind option_bind] in Hres.
    assert (Hbad : forall s : machine T,
              Some (done (- EBADMSG, s)) = Some (r, st') ->
              malformed \/ unmatched ->
              r <> - EINVAL /\ (r = - EBADMSG \/ r = 0 \/ r = - EOVERFLOW) /\
              (r = - EBADMSG -> malformed \/ unmatched)).
    { intros s Hs Hwhy. unfold done in Hs. cbn [fst snd] in Hs.
      injection Hs as <- _. split; [discriminate|].
      split; [left; reflexivity | intros _; exact Hwhy]. }
    assert (Hgood : forall pos q,
              deliver st out 0 pos = Some q -> Some (done q) = Some (r, st') ->
              r <> - EINVAL /\ (r = - EBADMSG \/ r = 0 \/ r = - EOVERFLOW) /\
              (r = - EBADMSG -> malformed \/ unmatched)).
    { intros pos [r0 s0] Hd Hs. unfold done in Hs. cbn [fst snd] in Hs.
      injection Hs as <- _.
      destruct (deliver_codes _ _ _ _ _ Hd) as [-> | ->];
        (split; [discriminate|]); (split; [|discriminate]);
        right; [left | right]; reflexivity. }
    destruct (Z.eqb_spec b0 1) as [->|Hne]; cbn [negb] in Hres; cycle 1.
    { apply (Hbad _ Hres). left. left. intros H.
      apply Hblock in H. congruence. }
    cbv zeta in Hres. destruct (pad_end block) as [p|] eqn:Hp; cycle 1.
    { rewrite Z.eqb_refl, orb_true_r in Hres. cbn [mbind option_bind] in Hres.
      apply (Hbad _ Hres). left. right. intros p Hp'. discriminate Hp'. }
    destruct (Hpe p eq_refl) as [Hp1 Hpk].
    destruct (Z.ltb_spec (Z.of_nat p) 9) as [H9|H9]; cbn [orb] in Hres.
    { cbn [mbind option_bind] in Hres. apply (Hbad _ Hres).
      left. right. intros p' [= <-]. left. lia. }
    destruct (Z.eqb_spec (Z.of_nat p) (k - 1)); [lia|].
    rewrite Nat2Z.id in Hres.
    destruct (lookup_lt_is_Some_2 block p) as [b Hb].
    { subst block. rewrite length_take. lia. }
    rewrite (Hblock _ _ Hb) in Hres. cbn [mbind option_bind] in Hres.
    destruct (Z.eqb_spec b 0) as [Hbz|Hbz]; cbn [negb] in Hres; cycle 1.
    { apply (Hbad _ Hres). left. right. intros p' [= <-]. right.
      rewrite Hb. congruence. }
    destruct (hash_name (ctx st)) as [h|] eqn:Hh; cycle 1.
    { destruct (deliver st out 0 (Z.of_nat p + 1)) as [q|] eqn:Hd;
        [|discriminate Hres].
      exact (Hgood _ _ Hd Hres). }
    destruct (rsa_lookup_asn1 h) as [di|] eqn:Hlook; cycle 1.
    { apply (Hbad _ Hres). right. exists h. split; [reflexivity|].
      rewrite Hlook. exact I. }
    destruct (memcmp_ne out (Z.of_nat p + 1) (data di) (Z.to_nat (size di)))
      as [[|]|] eqn:Hcmp; cbn [mbind option_bind] in Hres;
      [| |discriminate Hres].
    + apply (Hbad _ Hres). right. exists h. split; [reflexivity|].
      rewrite Hlook.
      assert (Hpos : 0 <= Z.of_nat p + 1) by lia.
      destruct (memcmp_ne_differs _ _ _ _ Hpos Hcmp)
        as (i & b' & c & Hc & Hbi & Hne).
      exists p, i, b', c. split; [reflexivity|]. split; [exact Hc|].
      split; [|exact Hne]. rewrite <- Hbi. f_equal. lia.
    + destruct (deliver st out 0 (u32 (Z.of_nat p + 1 + size di)))
        as [q|] eqn:Hd; [|discriminate Hres].
      exact (Hgood _ _ Hd Hres).
Qed.

(** ** The caller's view *)

Lemma final_status_logged (s : machine T) (r : Z) :
  final_status (log (EvComplete r) s) = Some r.
Proof. unfold final_status. cbn [log trace]. rewrite last_snoc. reflexivity. Qed.

(** Whichever way the engine's error [e] arrives, the caller ends up
    with the result of the post-processing of [e]. *)
Lemma perform_settled
    (submit_ : oracle -> machine T -> option (Z * machine T))
    (complete_ : machine T -> Z -> option (Z * machine T))
    (cb_ : machine T -> Z -> option (machine T))
    o (st st1 : machine T) (rep : child_reply) r s :
  let fl := flags (req st) in
  (forall s e, cb_ s e =
     if e =? - EINPROGRESS then Some s
     else '(r, s') ← complete_ s e; Some (log (EvComplete r) s')) ->
  submit_ o st =
    (if completes_now (rc rep) fl
     then complete_ st1 (rc rep) else Some (rc rep, st1)) ->
  inflight st1 = Some (late rep) ->
  settled fl rep <> - EINPROGRESS ->
  complete_ st1 (settled fl rep) = Some (r, s) ->
  completes_now r fl = true ->
  perform submit_ cb_ o st =
    Some (r, if completes_now (rc rep) fl then s else log (EvComplete r) s).
Proof.
  intros fl Hcb Hsub Hinf Hne Hc Hr. unfold perform, settled in *. fold fl.
  rewrite Hsub. destruct (completes_now (rc rep) fl) eqn:Hnow.
  - rewrite Hc. cbn [mbind option_bind]. rewrite Hr. reflexivity.
  - cbn [mbind option_bind]. rewrite Hnow, Hinf. cbn [mbind option_bind].
    rewrite Hcb.
    destruct (Z.eqb_spec (late rep) (- EINPROGRESS)); [contradiction|].
    rewrite Hc. cbn [mbind option_bind].
    rewrite final_status_logged. reflexivity.
Qed.

Lemma length_engine_writes (out old : list Z) :
  length (engine_writes out old) = length old.
Proof.
  unfold engine_writes. rewrite length_app, length_take, length_drop. lia.
Qed.

Lemma take_engine_writes (out old : list Z) (n : nat) :
  (n <= length out)%nat -> (n <= length old)%nat ->
  take n (engine_writes out old) = take n out.
Proof.
  intros Ho Hold. unfold engine_writes.
  rewrite take_app_le by (rewrite length_take; lia).
  rewrite take_take. f_equal. lia.
Qed.

(** C10.  On a transform configured with a hash name that is not in the
    DigestInfo table, sign rejects the request at once with -EINVAL,
    before any allocation or call of the inner engine; verify, for a
    request that passes its checks, does call the inner engine, and when
    the engine ends with success on a structurally valid block of k - 1
    bytes (0x01, at least 8 bytes 0xff, 0x00, anything) the caller ends
    up with -EBADMSG, from the failed table lookup of post-processing,
    the request itself untouched. *)
Theorem unknown_hash_sign_verify o (st : machine T) (h : string) :
  hash_name (ctx st) = Some h -> rsa_lookup_asn1 h = None ->
  rejects (sign o st) EINVAL st /\
  (ready PAGE_SIZE OpVerify o st ->
   forall bytes, sg_bytes (src (req st)) (src_len (req st)) = Some bytes ->
     let k := key_size (ctx st) in
     let fl := flags (req st) in
     let rep := crypto_akcipher_verify (child (ctx st)) bytes k fl in
     settled fl rep = 0 -> r_dst_len rep = k - 1 ->
     (exists n rest, (8 <= n)%nat /\ Z.of_nat (length rest) = k - 3 - Z.of_nat n /\
        take (Z.to_nat (k - 1)) (r_out rep)
        = [0x01] ++ replicate n 0xff ++ [0x00] ++ rest) ->
     exists st',
       perform (verify) (pkcs1pad_verify_complete_cb) o st
         = Some (- EBADMSG, st') /\
       In (EvChild OpVerify bytes (src_len (req st)) k) (trace st') /\
       req st' = req st).
Proof.
  intros Hh Hlook. split.
  { unfold rejects, pkcs1pad_sign. rewrite Hh, Hlook.
    destruct (key_size (ctx st) =? 0); reflexivity. }
  intros (Hwf & Hk & Hpg & _ & [kb Hout] & Hlen) bytes Hsrc k fl rep Hset Hdl
    (n & rest & Hn & Hrest & Hblock).
  pose proof (wf_key_size _ Hwf) as Hku. unfold is_u32 in Hku. fold k in Hku.
  pose proof (verify_submit o st kb bytes Hk Hlen Hpg Hout Hsrc) as Hsub.
  cbv zeta in Hsub. fold k fl rep in Hsub.
  set (st1 := after_call st OpVerify [EvKmalloc k (gfp_of (flags (req st)))]
               (src (req st))
                (src_len (req st)) (in_buf (req_ctx st)) kb bytes rep) in *.
  assert (Hlo : (Z.to_nat (k - 1) <= length (r_out rep))%nat).
  { apply (f_equal length) in Hblock. rewrite length_take in Hblock.
    rewrite !length_app, length_replicate in Hblock. cbn [length] in Hblock.
    lia. }
  set (out := engine_writes (r_out rep) (fresh kb k)).
  assert (Hout1 : out_buf (req_ctx st1) = Some out) by reflexivity.
  assert (Hlen1 : length out = Z.to_nat k).
  { subst out. rewrite length_engine_writes, length_fresh. reflexivity. }
  assert (Hblk : take (Z.to_nat (k - 1)) out
                 = [1] ++ replicate n 255 ++ [0] ++ rest).
  { subst out. rewrite take_engine_writes; [exact Hblock | exact Hlo | idtac].
    rewrite length_fresh. lia. }
  destruct (pad_end_shape n rest) as (H0 & Hp & Hsep).
  assert (Hcomplete : pkcs1pad_verify_complete st1 0
                      = Some (done (- EBADMSG, st1))).
  { rewrite (verify_complete_well_formed st1 out (S n)); try assumption;
      try (cbn [st1 after_call ctx key_size]; fold k);
      try (rewrite Hblk; assumption); try lia.
    subst st1. cbn [after_call ctx hash_name]. rewrite Hh, Hlook. reflexivity. }
  pose proof (perform_settled verify pkcs1pad_verify_complete
                pkcs1pad_verify_complete_cb o st st1 rep (- EBADMSG)
                (log EvKzfree (with_out_buf None st1))
                (fun _ _ => eq_refl) Hsub eq_refl) as Hperf.
  cbv zeta in Hperf. fold fl in Hperf. rewrite Hset in Hperf.
  specialize (Hperf ltac:(discriminate) Hcomplete eq_refl).
  eexists. split; [exact Hperf|].
  split.
  - destruct (completes_now (rc rep) fl); cbn; rewrite !in_app_iff; cbn;
      tauto.
  - destruct (completes_now (rc rep) fl); reflexivity.
Qed.

(** ** Encrypt, then decrypt *)

Lemma encrypt_sign_complete_ret (st : machine T) err r s :
  pkcs1pad_encrypt_sign_complete st err = Some (r, s) -> r = err.
Proof.
  unfold pkcs1pad_encrypt_sign_complete. intros H.
  match type of H with
  | mbind _ ?m = _ => destruct m; [|discriminate]
  end.
  cbn [mbind option_bind] in H. injection H as <- _. reflexivity.
Qed.

(** Post-processing of a successful encrypt or sign: the destination
    receives the engine's [c] bytes behind [k - c] zero bytes. *)
Lemma encrypt_sign_complete_ok (st : machine T) (out : list Z) :
  let k := key_size (ctx st) in
  let c := child_dst_len (req_ctx st) in
  0 < k < 2 ^ 32 -> 0 <= c <= k ->
  out_buf (req_ctx st) = Some out -> (Z.to_nat c <= length out)%nat ->
  (Z.to_nat k <= length (dst (req st)))%nat ->
  exists s, pkcs1pad_encrypt_sign_complete st 0 = Some (0, s) /\
    dst_len (req s) = k /\
    take (Z.to_nat k) (dst (req s))
    = replicate (Z.to_nat (k - c)) 0 ++ take (Z.to_nat c) out.
Proof.
  intros k c Hk Hc Hout Hlo Hld. unfold pkcs1pad_encrypt_sign_complete.
  fold k c. rewrite Z.eqb_refl, Hout, (u32_small (k - c)) by lia.
  assert (Hz : (if k - c =? 0 then Some (dst (req st))
                else zero_fill (dst (req st)) (k - c))
               = Some (replicate (Z.to_nat (k - c)) 0
                       ++ drop (Z.to_nat (k - c)) (dst (req st)))).
  { destruct (Z.eqb_spec (k - c) 0) as [->|_]; [reflexivity|].
    unfold zero_fill. destruct (Z.leb_spec (k - c)
      (Z.of_nat (length (dst (req st))))); [reflexivity|lia]. }
  rewrite Hz. cbn [mbind option_bind]. unfold sg_pcopy_from_buffer.
  destruct (Z.leb_spec 0 c); [|lia].
  destruct (Z.leb_spec c (Z.of_nat (length out))); [|lia].
  destruct (Z.leb_spec 0 (k - c)); [|lia].
  cbn [andb mbind option_bind].
  eexists. split; [reflexivity|]. proj. split; [reflexivity|].
  set (z := replicate (Z.to_nat (k - c)) 0).
  assert (Hlz : length z = Z.to_nat (k - c)) by apply length_replicate.
  rewrite (take_app_length' z) by (symmetry; exact Hlz).
  rewrite length_app, Hlz, length_drop.
  rewrite (take_ge (take (Z.to_nat c) out)) by (rewrite length_take; lia).
  rewrite app_assoc, take_app_length'; [reflexivity|].
  rewrite length_app, Hlz, length_take. lia.
Qed.

Lemma final_status_after_call (st : machine T) op pre csrc csl ib kb bytes rep :
  final_status (after_call st op pre csrc csl ib kb bytes rep) = None.
Proof.
  unfold final_status, after_call. cbn [trace].
  rewrite app_assoc, last_snoc. reflexivity.
Qed.

(** What a successful encrypt tells about the engine's answer. *)
Lemma perform_encrypt_success o (st st1 st' : machine T) (rep : child_reply) :
  let fl := flags (req st) in
  encrypt o st =
    (if completes_now (rc rep) fl
     then pkcs1pad_encrypt_sign_complete st1 (rc rep)
     else Some (rc rep, st1)) ->
  inflight st1 = Some (late rep) -> final_status st1 = None ->
  perform encrypt pkcs1pad_encrypt_sign_complete_cb o st = Some (0, st') ->
  settled fl rep = 0 /\
  exists s, pkcs1pad_encrypt_sign_complete st1 0 = Some (0, s) /\
            req st' = req s.
Proof.
  intros fl Hsub Hinf Hfin Hperf. unfold perform, settled in *.
  fold fl in Hperf |- *.
  rewrite Hsub in Hperf. destruct (completes_now (rc rep) fl) eqn:Hnow.
  - destruct (pkcs1pad_encrypt_sign_complete st1 (rc rep)) as [[r s]|] eqn:Hc;
      [|discriminate].
    pose proof (encrypt_sign_complete_ret _ _ _ _ Hc) as ->.
    cbn [mbind option_bind] in Hperf. rewrite Hnow in Hperf.
    injection Hperf as Hr <-. rewrite Hr in *.
    split; [reflexivity|]. exists s. split; [exact Hc | reflexivity].
  - cbn [mbind option_bind] in Hperf. rewrite Hnow, Hinf in Hperf.
    cbn [mbind option_bind] in Hperf.
    unfold pkcs1pad_encrypt_sign_complete_cb in Hperf.
    destruct (Z.eqb_spec (late rep) (- EINPROGRESS)).
    + cbn [mbind option_bind] in Hperf. rewrite Hfin in Hperf.
      discriminate Hperf.
    + destruct (pkcs1pad_encrypt_sign_complete st1 (late rep))
        as [[r s]|] eqn:Hc; [|discriminate].
      pose proof (encrypt_sign_complete_ret _ _ _ _ Hc) as ->.
      cbn [mbind option_bind] in Hperf.
      rewrite final_status_logged in Hperf.
      cbn [mbind option_bind] in Hperf. injection Hperf as Hr <-.
      rewrite Hr in *. split; [reflexivity|].
      exists s. split; [exact Hc | reflexivity].
Qed.

(** The separator of a block 0x02, padding without 0x00, 0x00, payload. *)
Lemma separator_shape (ps payload : list Z) :
  Forall (fun b => 1 <= b <= 255) ps ->
  let block := [0x02] ++ ps ++ [0x00] ++ payload in
  block !! 0%nat = Some 0x02 /\ separator block = Some (S (length ps)) /\
  drop (S (S (length ps))) block = payload.
Proof.
  intros Hps. cbv zeta. split; [reflexivity|].
  assert (H0 : ([2] ++ ps ++ [0] ++ payload) !! S (length ps) = Some 0).
  { rewrite (lookup_app_r [2]) by (cbn [length]; lia). cbn [length].
    replace (S (length ps) - 1)%nat with (length ps) by lia.
    rewrite lookup_app_r by lia. rewrite Nat.sub_diag. reflexivity. }
  split.
  - apply first_from_Some. split; [lia|]. split.
    + exists 0. split; [exact H0 | reflexivity].
    + intros j b Hj Hb ->. destruct j as [|j]; [lia|].
      rewrite (lookup_app_r [2]) in Hb by (cbn [length]; lia).
      cbn [length] in Hb. replace (S j - 1)%nat with j in Hb by lia.
      rewrite lookup_app_l in Hb by lia.
      rewrite Forall_forall in Hps.
      apply list_elem_of_lookup_2, list_elem_of_In, Hps in Hb. lia.
  - change ([2] ++ ps ++ [0] ++ payload) with (2 :: (ps ++ 0 :: payload)).
    cbn [drop]. rewrite (cons_middle 0 ps payload), app_assoc.
    replace (S (length ps)) with (length (ps ++ [0]))
      by (rewrite length_app; cbn [length]; lia).
    apply drop_app_length.
Qed.

(** C2.  For every installed key of modulus size k and every plaintext of
    length at most k - 11, assuming that the inner engine's decrypt
    inverts its encrypt on blocks of k - 1 bytes: when an encrypt request
    for that plaintext ends with success, a decrypt request on the same
    transform whose source is the k bytes left in the encrypt
    destination (its output buffer granted, its destination large enough
    for the plaintext) ends with success too, reports the length of the
    plaintext and delivers exactly the plaintext.  Either request may
    complete at once or later through the callback. *)
Theorem decrypt_inverts_encrypt (oe od : oracle) (ste ste' std : machine T)
    (pt : list Z) :
  let k := key_size (ctx ste) in
  let len := src_len (req ste) in
  ready PAGE_SIZE OpEncrypt oe ste ->
  (forall j, 0 <= prandom oe j < 255) ->
  sg_bytes (src (req ste)) len = Some pt ->
  dst_len (req ste) <= Z.of_nat (length (dst (req ste))) ->
  inner_inverts crypto_akcipher_encrypt crypto_akcipher_decrypt
    (child (ctx ste)) k ->
  perform encrypt pkcs1pad_encrypt_sign_complete_cb oe ste = Some (0, ste') ->
  ctx std = ctx ste ->
  src_len (req std) = dst_len (req ste') ->
  sg_bytes (src (req std)) (src_len (req std))
    = Some (take (Z.to_nat (dst_len (req ste'))) (dst (req ste'))) ->
  is_Some (out_alloc od) ->
  len <= dst_len (req std) <= Z.of_nat (length (dst (req std))) ->
  exists std',
    perform decrypt pkcs1pad_decrypt_complete_cb od std = Some (0, std') /\
    dst_len (req std') = len /\
    take (Z.to_nat len) (dst (req std')) = pt.
Proof.
  intros k len Hready Hrnd Hsrc Hdcap Hinv Hperf Hctx Hslen Hdsrc [kbd Hod] Hroom.
  destruct Hready as
    (Hwf & Hk & Hpg & _ & [kbe Hoe] & Hdst & (ka & Hin & Hoff) & Hlen).
  pose proof (wf_key_size _ Hwf) as Hku. unfold is_u32 in Hku.
  pose proof (wf_src_len _ Hwf) as [Hl0 _]. fold k in Hku, Hk, Hpg, Hdst, Hlen.
  fold len in Hl0, Hlen.
  (* the encrypt side *)
  destruct (encrypt_pad_bytes (prandom oe) k len Hrnd) as (ps & Hpad & Hps & Hall);
    [lia|].
  pose proof (encrypt_submit oe ste ka kbe pt Hwf ltac:(fold k len; lia) Hdst
                Hpg Hin ltac:(lia) Hoe Hsrc) as Hsub.
  cbv zeta in Hsub. fold k len in Hsub.
  set (pad := encrypt_pad (prandom oe) k len) in *.
  set (re := crypto_akcipher_encrypt (child (ctx ste)) (pad ++ pt) k
               (flags (req ste))) in *.
  match type of Hsub with
  | _ = (if _ then _ else Some (_, ?s)) => set (st1 := s) in *
  end.
  destruct (perform_encrypt_success oe ste st1 ste' re Hsub eq_refl
              (final_status_after_call _ _ _ _ _ _ _ _ _) Hperf)
    as (Hset & se & Hce & Hreq).
  assert (Hm : Z.of_nat (length (pad ++ pt)) = k - 1).
  { apply sg_bytes_length in Hsrc. rewrite length_app, Nat2Z.inj_add.
    unfold pad. rewrite length_encrypt_pad by lia. lia. }
  destruct (Hinv (pad ++ pt) (flags (req ste)) (flags (req std)) Hm Hset)
    as (Hc & Hco & Hdset & Hdlen & Hdout).
  fold re in Hc, Hco, Hdset, Hdlen, Hdout.
  destruct (encrypt_sign_complete_ok st1
              (engine_writes (r_out re) (fresh kbe k)))
    as (se' & Hce' & Hsl & Hsd).
  { change (key_size (ctx st1)) with k. lia. }
  { exact Hc. }
  { reflexivity. }
  { rewrite length_engine_writes, length_fresh.
    change (child_dst_len (req_ctx st1)) with (r_dst_len re). lia. }
  { change (dst (req st1)) with (dst (req ste)).
    change (key_size (ctx st1)) with k. lia. }
  rewrite Hce in Hce'. injection Hce' as <-.
  change (key_size (ctx st1)) with k in Hsl, Hsd.
  change (child_dst_len (req_ctx st1)) with (r_dst_len re) in Hsd.
  rewrite take_engine_writes in Hsd by (rewrite ?length_fresh; lia).
  rewrite (take_ge (r_out re)) in Hsd by lia.
  rewrite <- Hreq in Hsl, Hsd.
  (* the decrypt side *)
  rewrite Hsl in Hslen, Hdsrc. rewrite Hslen, Hsd in Hdsrc.
  assert (Hkd : key_size (ctx std) = k) by (rewrite Hctx; reflexivity).
  pose proof (decrypt_submit od std kbd _ ltac:(rewrite Hkd; exact Hk)
                ltac:(rewrite Hkd; exact Hslen) ltac:(rewrite Hkd; exact Hpg)
                Hod ltac:(rewrite Hkd; exact Hdsrc)) as Hsubd.
  cbv zeta in Hsubd. rewrite Hkd, Hctx in Hsubd.
  set (rd := crypto_akcipher_decrypt (child (ctx ste))
               (replicate (Z.to_nat (k - r_dst_len re)) 0 ++ r_out re) k
               (flags (req std))) in *.
  match type of Hsubd with
  | _ = (if _ then _ else Some (_, ?s)) => set (sd1 := s) in *
  end.
  set (out := engine_writes (r_out rd) (fresh kbd k)).
  assert (Hlo : length out = Z.to_nat k).
  { subst out. rewrite length_engine_writes, length_fresh. reflexivity. }
  assert (Hblock : take (Z.to_nat (k - 1)) out = [2] ++ ps ++ [0] ++ pt).
  { subst out. rewrite take_engine_writes.
    - rewrite Hdout, Hpad, <- !app_assoc. reflexivity.
    - apply (f_equal length) in Hdout. rewrite length_take in Hdout. lia.
    - rewrite length_fresh. lia. }
  destruct (separator_shape ps pt Hall) as (Hb0 & Hsep & Hdrop).
  assert (Hsd1k : key_size (ctx sd1) = k)
    by (subst sd1; cbn [after_call ctx]; exact Hkd).
  assert (Hcomp : exists r s,
            pkcs1pad_decrypt_complete sd1 0 = Some (done (r, s)) /\
            dst_len (req s) = len /\ r = 0 /\
            take (Z.to_nat len) (dst (req s)) = pt).
  { assert (Hob : out_buf (req_ctx sd1) = Some out).
    { subst sd1 out. cbn [after_call req_ctx out_buf]. rewrite Hkd.
      reflexivity. }
    rewrite (decrypt_complete_eq sd1 out); rewrite ?Hsd1k;
      [|lia|exact Hob|exact Hlo|exact Hdlen].
    rewrite Hblock, Hsep.
    assert (Ho0 : out !! 0%nat = Some 2).
    { rewrite <- Hblock in Hb0. apply lookup_take_Some in Hb0 as [H _].
      exact H. }
    rewrite Ho0. cbn [mbind option_bind]. change (negb (2 =? 2)) with false.
    cbv iota zeta.
    destruct (Z.ltb_spec (Z.of_nat (S (length ps))) 9); [lia|].
    destruct (Z.eqb_spec (Z.of_nat (S (length ps))) (k - 1)); [lia|].
    cbn [orb].
    destruct (deliver_payload sd1 out (Z.of_nat (S (length ps)) + 1))
      as (r & s & Hd & Hn & _ & _ & _ & _ & Hiff & Hcopy);
      rewrite ?Hsd1k; try lia; try assumption.
    rewrite Hd. cbn [mbind option_bind].
    cbv zeta in Hn, Hiff, Hcopy. rewrite Hsd1k in Hn, Hiff, Hcopy.
    replace (k - 1 - (Z.of_nat (S (length ps)) + 1)) with len
      in Hn, Hiff, Hcopy by lia.
    assert (Hr0 : r = 0) by (apply Hiff; cbn [sd1 after_call req]; lia).
    exists r, s. split; [reflexivity|]. split; [exact Hn|]. split; [exact Hr0|].
    rewrite Hcopy; [| exact Hr0 | cbn [sd1 after_call req]; lia].
    rewrite Hblock. rewrite <- Hdrop at 2. f_equal. lia. }
  destruct Hcomp as (r & s & Hcomp & Hsl' & -> & Hcopy).
  pose proof (perform_settled decrypt pkcs1pad_decrypt_complete
                pkcs1pad_decrypt_complete_cb od std sd1 rd 0
                (log EvKzfree (with_out_buf None s))
                (fun _ _ => eq_refl) Hsubd eq_refl) as Hp.
  cbv zeta in Hp. rewrite Hdset in Hp.
  specialize (Hp ltac:(discriminate) Hcomp eq_refl).
  eexists. split; [exact Hp|].
  destruct (completes_now (rc rd) (flags (req std))); split; assumption.
Qed.

End Properties.

(** * The properties on concrete requests *)

Lemma toy_inner_inverts (k : Z) :
  1 <= k -> inner_inverts toy_public toy_private tt k.
Proof.
  intros Hk m fe fd Hm. cbv zeta. intros _.
  cbn [toy_public toy_private r_dst_len r_out rc late].
  rewrite Hm. replace (Z.to_nat (k - (k - 1))) with 1%nat by lia.
  cbn [replicate app drop]. split; [lia|]. split; [reflexivity|].
  split; [reflexivity|]. split.
  - cbn [length]. lia.
  - apply take_ge. lia.
Qed.

Lemma toy_prandom_range (j : nat) : 0 <= prandom toy_oracle j < 255.
Proof. cbn [prandom toy_oracle]. apply Z.mod_pos_bound. lia. Qed.

Ltac toy_arith :=
  cbv [toy_request toy_completing toy_ctx toy_page toy_plain toy_hello
       toy_cipher CRYPTO_TFM_REQ_MAY_BACKLOG
       key_size ctx req src_len dst_len flags is_u32];
  lia.

Ltac wf_now := constructor; toy_arith.

Ltac ready_now :=
  unfold ready; cbn -[Z.pow];
  repeat match goal with
  | |- _ /\ _ => split
  | |- wf_machine _ => wf_now
  | |- is_Some _ => eexists; reflexivity
  | |- exists _, _ => eexists
  | |- _ = _ => reflexivity
  | |- _ =>
      unfold toy_page;
      cbn [page_offset from_option size mk_template length
           rsa_digest_info_sha256];
      lia
  end.

(** A chain read no further than its leading segments [pre]: the
    segments behind them do not matter. *)
Lemma sg_bytes_within (pre rest : scatterlist) (n : Z) :
  0 <= n <= Z.of_nat (length (concat pre)) ->
  sg_bytes (pre ++ rest) n = Some (take (Z.to_nat n) (concat pre)).
Proof.
  intros Hn. unfold sg_bytes. rewrite concat_app, length_app.
  destruct (Z.leb_spec 0 n); [|lia].
  destruct (Z.leb_spec n (Z.of_nat (length (concat pre)
                                    + length (concat rest)))); [|lia].
  cbn [andb]. rewrite take_app_le by lia. reflexivity.
Qed.

(** C7.  The length check of encrypt, [src_len > key_size - 11], is
    computed in [unsigned int].  Under a key whose modulus has 10 bytes
    the bound wraps around to 2^32 - 1: an empty plaintext, which has
    k - 10 bytes, is not rejected with -EOVERFLOW.  Encrypt allocates
    both buffers, calls the inner engine on a block with 7 padding
    bytes only, and returns 0. *)
Theorem encrypt_modulus_of_ten_bytes :
  exists st',
    pkcs1pad_encrypt toy_page toy_public toy_oracle
      (toy_request 10 None [] (replicate 10 0) 0 10 0) = Some (0, st') /\
    trace st' = [EvKmalloc 9 GFP_ATOMIC; EvKmalloc 10 GFP_ATOMIC;
                 EvChild OpEncrypt [0x02; 1; 2; 3; 4; 5; 6; 7; 0x00] 9 10;
                 EvKfree; EvKzfree].
Proof. eexists. split; vm_compute; reflexivity. Qed.

(** C5.  Under a key whose modulus has 8 bytes the wrapped bound lets a
    plaintext of 6 bytes pass the checks of encrypt.  The working buffer
    has 1 byte: the block type 0x02 written to its first byte is
    overwritten by the separator, the padding is empty, and the inner
    engine is called on 0x00 followed by the plaintext. *)
Theorem encrypt_buffer_of_one_byte :
  exists st',
    pkcs1pad_encrypt toy_page toy_public toy_oracle
      (toy_request 8 None (replicate 6 0x41) (replicate 8 0) 6 8 0)
    = Some (0, st') /\
    trace st' = [EvKmalloc 1 GFP_ATOMIC; EvKmalloc 8 GFP_ATOMIC;
                 EvChild OpEncrypt ([0x00] ++ replicate 6 0x41) 7 8;
                 EvKfree; EvKzfree].
Proof. eexists. split; vm_compute; reflexivity. Qed.

(** C4.  The length check of sign, [src_len + digest_size > key_size -
    11], is computed in [unsigned int].  Under a 128-byte key with
    sha256, a request announcing a message of 2^32 - 19 bytes passes it,
    the sum being 0: whatever the source chain holds, the working buffer
    is allocated with 146 bytes and the inner engine is called on its
    first 127 bytes, 0x01, 125 bytes 0xff and 0x00, with neither the DER
    prefix nor any byte of the message in the block.  Under an 8-byte key
    with sha256 the bound wraps instead, an empty message passes the
    checks, and the memset of the padding, 2^32 - 14 bytes long, leaves
    the working buffer of 7 bytes. *)
Theorem sign_length_check_wraps (msg : list Z) :
  (exists st',
     pkcs1pad_sign toy_page toy_public toy_oracle
       (toy_request 128 (Some "sha256"%string) msg (replicate 128 0)
          (2 ^ 32 - 19) 128 0) = Some (0, st') /\
     trace st' = [EvKmalloc 146 GFP_ATOMIC; EvKmalloc 128 GFP_ATOMIC;
                  EvChild OpSign ([0x01] ++ replicate 125 0xff ++ [0x00])
                          127 128;
                  EvKfree; EvKzfree]) /\
  pkcs1pad_sign toy_page toy_public toy_oracle
    (toy_request 8 (Some "sha256"%string) [] (replicate 8 0) 0 8 0) = None.
Proof.
  split; [|vm_compute; reflexivity].
  eexists. split.
  - unfold pkcs1pad_sign.
    cbv -[call_child pkcs1pad_encrypt_sign_complete completes_now].
    unfold call_child.
    cbn [req_ctx child_src child_src_len child_dst_len out_buf].
    match goal with
    | |- context [sg_bytes [?a; ?b; ?c] ?n] =>
        change (sg_bytes [a; b; c] n) with (sg_bytes ([a; b] ++ [c]) n);
        rewrite (sg_bytes_within [a; b] [c] n)
          by (vm_compute; split; discriminate)
    end.
    vm_compute. reflexivity.
  - vm_compute. reflexivity.
Qed.

(** C6, the claim as stated fails: when the size query answers 0 after
    a successful inner set-key, the setter returns 0, which is success. *)
Lemma zero_reply_is_returned_as_success :
  ~ stated_nonpositive_reply_is_error toy_set_key toy_set_key (toy_maxsize 0)
      false (toy_ctx 0 None) [] 0.
Proof.
  intros H.
  assert (Hle : toy_maxsize 0 tt <= 0) by (unfold toy_maxsize; lia).
  destruct (H tt eq_refl Hle) as [Hne _]. apply Hne. reflexivity.
Qed.

(** C6, the amended claim on a key whose modulus has 128 bytes and on
    an inner engine answering -EINVAL to the size query. *)
Lemma set_key_caches_modulus_size_witness :
  (let r := pkcs1pad_set_pub_key toy_set_key (toy_maxsize 128)
              (toy_ctx 0 None) [] 0 in
   r.1 = 0 /\ key_size r.2 = 128) /\
  (let r := pkcs1pad_set_priv_key toy_set_key (toy_maxsize (- EINVAL))
              (toy_ctx 64 None) [] 0 in
   r.1 = - EINVAL /\ key_size r.2 = 0).
Proof.
  split.
  - destruct (set_key_caches_modulus_size toy_set_key toy_set_key
                (toy_maxsize 128) false (toy_ctx 0 None) [] 0 tt eq_refl)
      as (H & _).
    apply H. reflexivity.
  - destruct (set_key_caches_modulus_size toy_set_key toy_set_key
                (toy_maxsize (- EINVAL)) true (toy_ctx 64 None) [] 0 tt eq_refl)
      as (_ & H0 & H & _).
    split; [apply H; reflexivity | apply H0; discriminate].
Defined.

(** C8 on requests with a 16-byte modulus: decrypt refuses 17 source
    bytes and verify lets them through. *)
Lemma decrypt_verify_source_length_witness :
  let st := toy_request 16 None (replicate 17 0) [] 17 0 0 in
  rejects (pkcs1pad_decrypt toy_page toy_private toy_oracle st) EINVAL st /\
  proceeds (pkcs1pad_verify toy_page toy_private toy_oracle st) st.
Proof.
  cbv zeta.
  destruct (decrypt_verify_source_length toy_page toy_private toy_private
              toy_oracle (toy_request 16 None (replicate 17 0) [] 17 0 0))
    as (Hd & _ & _ & Hv).
  split.
  - apply Hd. right. discriminate.
  - apply Hv; toy_arith.
Defined.

(** X19 on requests with a 128-byte modulus (and one with none, one
    with 8192 bytes): the four rejections, and the longest plaintext let
    through. *)
Lemma encrypt_validation_witness :
  let enc := pkcs1pad_encrypt toy_page toy_public toy_oracle in
  let st0 := toy_request 0 None [] [] 0 0 0 in
  let st1 := toy_request 128 None (replicate 118 0) (replicate 128 0) 118 128 0 in
  let st2 := toy_request 128 None (replicate 117 0) [] 117 0 0 in
  let st3 := toy_request 8192 None [] [] 0 8192 0 in
  let st4 := toy_request 128 None (replicate 117 0) (replicate 128 0) 117 128 0 in
  rejects (enc st0) EINVAL st0 /\
  rejects (enc st1) EOVERFLOW st1 /\
  enc st2 = Some (- EOVERFLOW, with_dst_len 128 st2) /\
  rejects (enc st3) ENOTSUPP st3 /\
  proceeds (enc st4) st4.
Proof.
  cbv zeta. split; [|split; [|split; [|split]]].
  - destruct (encrypt_validation toy_page toy_public toy_oracle
                (toy_request 0 None [] [] 0 0 0)) as (H & _); [wf_now|].
    apply H. reflexivity.
  - destruct (encrypt_validation toy_page toy_public toy_oracle
                (toy_request 128 None (replicate 118 0) (replicate 128 0)
                   118 128 0)) as (_ & _ & H & _); [wf_now|].
    apply H; toy_arith.
  - destruct (encrypt_validation toy_page toy_public toy_oracle
                (toy_request 128 None (replicate 117 0) [] 117 0 0))
      as (_ & _ & _ & H & _); [wf_now|].
    apply H; toy_arith.
  - destruct (encrypt_validation toy_page toy_public toy_oracle
                (toy_request 8192 None [] [] 0 8192 0))
      as (_ & _ & _ & _ & H & _); [wf_now|].
    apply H; toy_arith.
  - destruct (encrypt_validation toy_page toy_public toy_oracle
                (toy_request 128 None (replicate 117 0) (replicate 128 0)
                   117 128 0)) as (_ & _ & _ & _ & _ & H); [wf_now|].
    apply H; toy_arith.
Defined.

(** C3, the claim as stated fails: a block whose separator is its last
    byte (index 14 = k - 2 for k = 16) is accepted, and the payload
    delivered with success is empty. *)
Lemma empty_payload_is_delivered :
  ~ stated_payload_nonempty
      (toy_completing 16 None toy_block_empty_payload 15 (replicate 16 0) 16).
Proof.
  intros H.
  pose proof (H _ ltac:(vm_compute; reflexivity)) as Hlt.
  vm_compute in Hlt. discriminate Hlt.
Qed.

(** C3, the amended claim on that block: post-processing succeeds,
    finds the separator at index 14 and reports a payload of 0 bytes;
    and on the engine's -EOVERFLOW it completes with -EINVAL. *)
Lemma decrypt_complete_invalid_witness :
  let st := toy_completing 16 None toy_block_empty_payload 15
              (replicate 16 0) 16 in
  (exists r st', pkcs1pad_decrypt_complete st 0 = Some (r, st') /\
     r <> - EINVAL /\
     separator (take 15 toy_block_empty_payload) = Some 14%nat /\
     dst_len (req st') = 0) /\
  (exists r st', pkcs1pad_decrypt_complete st (- EOVERFLOW) = Some (r, st') /\
     r = - EINVAL).
Proof.
  cbv zeta. split.
  - destruct (decrypt_complete_invalid
                (toy_completing 16 None toy_block_empty_payload 15
                   (replicate 16 0) 16) 0 toy_block_empty_payload)
      as (r & st' & Hres & Hiff & Hok); [toy_arith | reflexivity | reflexivity |].
    assert (Hgood : ~ (child_dst_len (req_ctx (toy_completing 16 None
                         toy_block_empty_payload 15 (replicate 16 0) 16))
                       <> key_size (ctx (toy_completing 16 None
                            toy_block_empty_payload 15 (replicate 16 0) 16)) - 1
                       \/ take (Z.to_nat (key_size (ctx (toy_completing 16 None
                            toy_block_empty_payload 15 (replicate 16 0) 16)) - 1))
                            toy_block_empty_payload !! 0%nat <> Some 2
                       \/ forall s, separator (take (Z.to_nat (key_size (ctx
                            (toy_completing 16 None toy_block_empty_payload 15
                               (replicate 16 0) 16)) - 1))
                            toy_block_empty_payload) = Some s -> (s < 9)%nat)).
    { intros [Hc | [Hb | Hs]].
      - apply Hc. reflexivity.
      - apply Hb. reflexivity.
      - specialize (Hs 14%nat eq_refl). lia. }
    destruct (Hok eq_refl Hgood) as (s & Hs & _ & Hn & _).
    vm_compute in Hs. injection Hs as <-.
    exists r, st'. split; [exact Hres|]. split; [|split; [reflexivity|exact Hn]].
    intros Hr. destruct (proj1 Hiff Hr)
      as [He | [He | [_ Hu]]]; [discriminate He | discriminate He |].
    exact (Hgood Hu).
  - destruct (decrypt_complete_invalid
                (toy_completing 16 None toy_block_empty_payload 15
                   (replicate 16 0) 16) (- EOVERFLOW) toy_block_empty_payload)
      as (r & st' & Hres & Hiff & _); [toy_arith | reflexivity | reflexivity |].
    exists r, st'. split; [exact Hres|]. apply Hiff. left. reflexivity.
Defined.

(** C1, the claim as stated fails: on a block of type 0x02, which is
    structurally malformed for a signature, post-processing of verify
    completes with -EBADMSG and not with -EINVAL. *)
Lemma malformed_block_is_bad_message :
  ~ stated_malformed_is_invalid
      (toy_completing 16 (Some "sha256"%string) toy_block_wrong_type 15
         (replicate 16 0) 16)
      toy_block_wrong_type.
Proof.
  intros H. destruct H as [st' Hst'].
  - left. vm_compute. discriminate.
  - vm_compute in Hst'. discriminate Hst'.
Qed.

(** C1, the amended claim on that block. *)
Lemma verify_complete_bad_message_witness :
  let st := toy_completing 16 (Some "sha256"%string) toy_block_wrong_type 15
              (replicate 16 0) 16 in
  pkcs1pad_verify_complete st 0 = Some (done (- EBADMSG, st)).
Proof.
  cbv zeta.
  destruct (verify_complete_bad_message
              (toy_completing 16 (Some "sha256"%string) toy_block_wrong_type 15
                 (replicate 16 0) 16) toy_block_wrong_type)
    as (H & _); [toy_arith | reflexivity | reflexivity | reflexivity |].
  apply H. left. vm_compute. discriminate.
Defined.

(** X20 on the encryption of "ABC" under a 16-byte modulus: 10 padding
    bytes, a working buffer of 12 bytes, an inner call on 15 bytes. *)
Lemma encrypt_working_buffer_witness :
  exists (ps : list Z) (st1 : machine unit),
    Z.of_nat (length ps) = 10 /\
    Forall (fun b => 1 <= b <= 255) ps /\
    in_buf (req_ctx st1) = Some ([0x02] ++ ps ++ [0x00]) /\
    trace st1 = [EvKmalloc 12 GFP_ATOMIC; EvKmalloc 16 GFP_ATOMIC;
                 EvChild OpEncrypt (([0x02] ++ ps ++ [0x00])
                                    ++ [0x41; 0x42; 0x43]) 15 16].
Proof.
  assert (Hready : ready toy_page OpEncrypt toy_oracle toy_plain)
    by ready_now.
  destruct (encrypt_working_buffer toy_page toy_public toy_oracle toy_plain
              [0x41; 0x42; 0x43] Hready toy_prandom_range eq_refl)
    as (ps & st1 & Hlen & Hall & Hbuf & _ & _ & Htr & _).
  exists ps, st1. split; [exact Hlen|]. split; [exact Hall|].
  split; [exact Hbuf | exact Htr].
Defined.

(** X21 on the signature of "hello" with sha256 under a 128-byte
    modulus: 101 bytes 0xff and a working buffer of 122 bytes. *)
Lemma sign_block_witness :
  exists st1 : machine unit,
    let pad := [0x01] ++ replicate 101 0xff ++ [0x00]
               ++ rsa_digest_info_sha256 in
    in_buf (req_ctx st1) = Some pad /\ length pad = 122%nat /\
    trace st1 = [EvKmalloc 122 GFP_ATOMIC; EvKmalloc 128 GFP_ATOMIC;
                 EvChild OpSign (pad ++ [0x68; 0x65; 0x6c; 0x6c; 0x6f])
                         127 128].
Proof.
  assert (Hready : ready toy_page OpSign toy_oracle toy_hello) by ready_now.
  destruct (sign_block toy_page toy_public toy_oracle toy_hello "sha256"
              (mk_template "sha256" rsa_digest_info_sha256)
              [0x68; 0x65; 0x6c; 0x6c; 0x6f] Hready eq_refl eq_refl eq_refl)
    as (st1 & _ & Hbuf & _ & _ & _ & Htr & _ & Hex).
  exists st1. cbv zeta. split; [exact Hbuf|]. split; [|exact Htr].
  apply Hex; reflexivity.
Defined.

(** C9 on the decryption of the toy ciphertext: the private operation
    answers -EINPROGRESS, which is what decrypt returns, with the output
    buffer still allocated; encrypt, whose engine answers 0, returns the
    result of its post-processing. *)
Lemma submit_dispatch_witness :
  (exists st1 : machine unit,
     pkcs1pad_decrypt toy_page toy_private toy_oracle toy_cipher
       = Some (- EINPROGRESS, st1) /\
     is_Some (out_buf (req_ctx st1))) /\
  (exists st1 : machine unit,
     pkcs1pad_encrypt toy_page toy_public toy_oracle toy_plain
       = pkcs1pad_encrypt_sign_complete st1 0).
Proof.
  split.
  - assert (Hready : ready toy_page OpDecrypt toy_oracle toy_cipher)
      by ready_now.
    destruct (submit_dispatch toy_page toy_public toy_private toy_public
                toy_private OpDecrypt toy_oracle toy_cipher Hready)
      as (st1 & pre & bytes & _ & _ & _ & _ & Hout & Hpend & _).
    exists st1. split; [|exact Hout].
    apply Hpend. left. reflexivity.
  - assert (Hready : ready toy_page OpEncrypt toy_oracle toy_plain)
      by ready_now.
    destruct (submit_dispatch toy_page toy_public toy_private toy_public
                toy_private OpEncrypt toy_oracle toy_plain Hready)
      as (st1 & pre & bytes & _ & _ & _ & _ & _ & _ & Hnow & _).
    exists st1. apply Hnow. intros [H | [H _]]; discriminate H.
Defined.

(** C10 on a transform configured with the hash "sha3", which the table
    does not have: sign is rejected, verify of a well-formed signature
    block ends with -EBADMSG. *)
Lemma unknown_hash_sign_verify_witness :
  let st := toy_request 16 (Some "sha3"%string) (0 :: toy_block_signature)
              (replicate 16 0) 16 16 0 in
  rejects (pkcs1pad_sign toy_page toy_public toy_oracle st) EINVAL st /\
  exists st',
    perform (pkcs1pad_verify toy_page toy_private)
            pkcs1pad_verify_complete_cb toy_oracle st
    = Some (- EBADMSG, st').
Proof.
  cbv zeta.
  destruct (unknown_hash_sign_verify toy_page toy_public toy_private toy_oracle
              (toy_request 16 (Some "sha3"%string) (0 :: toy_block_signature)
                 (replicate 16 0) 16 16 0) "sha3" eq_refl eq_refl)
    as (Hsign & Hverify).
  split; [exact Hsign|].
  assert (Hready : ready toy_page OpVerify toy_oracle
            (toy_request 16 (Some "sha3"%string) (0 :: toy_block_signature)
               (replicate 16 0) 16 16 0)) by ready_now.
  assert (Hshape : exists n rest, (8 <= n)%nat /\
            Z.of_nat (length rest) = 16 - 3 - Z.of_nat n /\
            take (Z.to_nat (16 - 1)) toy_block_signature
            = [1] ++ replicate n 255 ++ [0] ++ rest).
  { exists 8%nat, [0x68; 0x65; 0x6c; 0x6c; 0x6f].
    split; [lia|]. split; reflexivity. }
  destruct (Hverify Hready (0 :: toy_block_signature) eq_refl eq_refl eq_refl
              Hshape) as (st' & Hperf & _).
  exists st'. exact Hperf.
Defined.

(** C2 on "ABC" under a 16-byte modulus: decrypt of what encrypt left
    in its destination delivers "ABC". *)
Lemma decrypt_inverts_encrypt_witness :
  exists std',
    perform (pkcs1pad_decrypt toy_page toy_private)
            pkcs1pad_decrypt_complete_cb toy_oracle toy_cipher
    = Some (0, std') /\
    dst_len (req std') = 3 /\
    take 3 (dst (req std')) = [0x41; 0x42; 0x43].
Proof.
  apply (decrypt_inverts_encrypt toy_page toy_public toy_private toy_oracle
           toy_oracle toy_plain toy_encrypted toy_cipher [0x41; 0x42; 0x43]).
  - ready_now.
  - exact toy_prandom_range.
  - reflexivity.
  - vm_compute. discriminate.
  - apply toy_inner_inverts. toy_arith.
  - vm_compute. reflexivity.
  - reflexivity.
  - vm_compute. reflexivity.
  - vm_compute. reflexivity.
  - eexists. reflexivity.
  - vm_compute. split; discriminate.
Defined.

(** * Further properties *)

(** ** The DigestInfo table *)

Lemma lookup_from_name p n t : lookup_from p n = Some t -> name t = n.
Proof.
  induction p as [|t' p IH]; cbn [lookup_from]; [discriminate|].
  destruct (String.eqb_spec n (name t')) as [->|_].
  - intros [= ->]. reflexivity.
  - exact IH.
Qed.

Lemma lookup_from_complete p t :
  NoDup (map name p) -> t ∈ p -> lookup_from p (name t) = Some t.
Proof.
  induction p as [|t' p IH]; intros Hnd Hin; [inversion Hin|].
  cbn [lookup_from]. cbn [map] in Hnd. apply list.NoDup_cons in Hnd as [Hnotin Hnd].
  destruct (String.eqb_spec (name t) (name t')) as [Heq|Hne].
  - apply elem_of_cons in Hin as [->|Hin]; [reflexivity|].
    exfalso. apply Hnotin. rewrite <- Heq. apply list_elem_of_fmap.
    exists t. split; [reflexivity|exact Hin].
  - apply elem_of_cons in Hin as [->|Hin]; [contradiction|].
    exact (IH Hnd Hin).
Qed.

Lemma templates_names_distinct : NoDup (map name rsa_asn1_templates).
Proof.
  cbn [map rsa_asn1_templates name mk_template].
  repeat (apply list.NoDup_cons; split;
          [intros H; repeat (apply elem_of_cons in H as [H|H]; [discriminate H|]);
           apply elem_of_nil in H; exact H|]).
  apply NoDup_nil_2.
Qed.

(** X1.  The table lookup finds a template exactly when it is the entry
    of the table that carries the queried name, and it fails exactly for
    the names other than md5, sha1, rmd160, sha256, sha384, sha512 and
    sha224 (names are compared as whole strings, case included). *)
Theorem rsa_lookup_asn1_table (n : string) (t : rsa_asn1_template) :
  (rsa_lookup_asn1 n = Some t <-> t ∈ rsa_asn1_templates /\ name t = n) /\
  (rsa_lookup_asn1 n = None <->
     n ∉ ["md5"; "sha1"; "rmd160"; "sha256"; "sha384"; "sha512"; "sha224"]%string).
Proof.
  split.
  - split.
    + intros H. split; [exact (lookup_from_elem _ _ _ H)|].
      exact (lookup_from_name _ _ _ H).
    + intros [Hin <-]. apply lookup_from_complete;
        [exact templates_names_distinct | exact Hin].
  - unfold rsa_lookup_asn1, rsa_asn1_templates.
    cbn [lookup_from name mk_template].
    rewrite !not_elem_of_cons.
    repeat match goal with
    | |- context [String.eqb n ?s] => destruct (String.eqb_spec n s)
    end; split; intros H; try discriminate H; try tauto.
    repeat split; try assumption. apply not_elem_of_nil.
Qed.

(** X2.  Every DigestInfo prefix of the table is a consistent DER
    header: a SEQUENCE (0x30) whose length byte counts the rest of the
    prefix plus the digest, holding an AlgorithmIdentifier SEQUENCE made
    of an OID (0x06) and a NULL (0x05 0x00), and then the header of the
    OCTET STRING (0x04) that announces the digest length; the [size]
    field of the entry is the number of bytes of the prefix. *)
Theorem digest_info_is_der (t : rsa_asn1_template) :
  t ∈ rsa_asn1_templates ->
  exists (oid : list Z) (digest_len : Z),
    let oid_len := Z.of_nat (length oid) in
    data t = [0x30; size t - 2 + digest_len; 0x30; oid_len + 4; 0x06; oid_len]
             ++ oid ++ [0x05; 0x00; 0x04; digest_len] /\
    size t = Z.of_nat (length (data t)) /\
    0 < digest_len /\ size t - 2 + digest_len < 128.
Proof.
  intros H.
  exists (take (Z.to_nat (size t - 10)) (drop 6 (data t))),
         (default 0 (list.last (data t))).
  unfold rsa_asn1_templates in H.
  repeat (apply elem_of_cons in H as [->|H];
          [vm_compute; repeat split; reflexivity|]).
  apply elem_of_nil in H. contradiction.
Qed.

Section Further.

Variable PAGE_SIZE : Z.
Context {T : Type}.
Variable crypto_akcipher_set_pub_key : T -> list Z -> Z -> Z * T.
Variable crypto_akcipher_set_priv_key : T -> list Z -> Z -> Z * T.
Variable crypto_akcipher_maxsize : T -> Z.
Variable crypto_akcipher_encrypt : T -> list Z -> Z -> Z -> child_reply.
Variable crypto_akcipher_decrypt : T -> list Z -> Z -> Z -> child_reply.
Variable crypto_akcipher_sign : T -> list Z -> Z -> Z -> child_reply.
Variable crypto_akcipher_verify : T -> list Z -> Z -> Z -> child_reply.

Local Abbreviation encrypt := (pkcs1pad_encrypt PAGE_SIZE crypto_akcipher_encrypt).
Local Abbreviation decrypt := (pkcs1pad_decrypt PAGE_SIZE crypto_akcipher_decrypt).
Local Abbreviation sign := (pkcs1pad_sign PAGE_SIZE crypto_akcipher_sign).
Local Abbreviation verify := (pkcs1pad_verify PAGE_SIZE crypto_akcipher_verify).
Local Abbreviation set_key_ :=
  (set_key crypto_akcipher_set_pub_key crypto_akcipher_set_priv_key
           crypto_akcipher_maxsize).
Local Abbreviation inner_set_key_ :=
  (inner_set_key crypto_akcipher_set_pub_key crypto_akcipher_set_priv_key).
Local Abbreviation submit := (submit_of PAGE_SIZE crypto_akcipher_encrypt
  crypto_akcipher_decrypt crypto_akcipher_sign crypto_akcipher_verify).
Local Abbreviation engine := (engine_of crypto_akcipher_encrypt
  crypto_akcipher_decrypt crypto_akcipher_sign crypto_akcipher_verify).

(** ** The size query *)

Lemma s32_small (x : Z) : is_int x -> s32 x = x.
Proof.
  unfold is_int, s32. intros H. rewrite Z.mod_small by lia. lia.
Qed.

Lemma s32_high (x : Z) : 2 ^ 31 <= x < 2 ^ 32 -> s32 x = x - 2 ^ 32.
Proof.
  unfold s32. intros H.
  replace (x + 2 ^ 31) with (x - 2 ^ 31 + 1 * 2 ^ 32) by lia.
  rewrite Z_mod_plus_full, Z.mod_small by lia. lia.
Qed.

(** The answer of the size query by the cached modulus size. *)
Lemma get_max_size_cases (c : pkcs1pad_ctx T) :
  is_u32 (key_size c) ->
  pkcs1pad_get_max_size c =
    if key_size c =? 0 then - EINVAL
    else if key_size c <? 2 ^ 31 then key_size c else key_size c - 2 ^ 32.
Proof.
  unfold is_u32, pkcs1pad_get_max_size. intros Hk.
  destruct (Z.eqb_spec (key_size c) 0) as [Hz|Hz]; [reflexivity|].
  destruct (Z.ltb_spec (key_size c) (2 ^ 31)).
  - apply s32_small. unfold is_int. lia.
  - apply s32_high. lia.
Qed.

(** X3.  [pkcs1pad_get_max_size] returns an [int]: the cached modulus
    size, an [unsigned int], converted, and -EINVAL when it is 0.  For
    a cached size in the range of [unsigned int] the answer is -EINVAL
    for 0, the size itself below 2^31 and the size less 2^32, a negative
    number, from 2^31 on; it is never 0.  After a key setter has run on
    an inner engine whose size query answers an [int]: when the inner
    set-key fails, the setter returns that error and the answer is what
    it was before (the previous modulus size stays cached); when it
    succeeds and the inner size query answers a positive size, that
    size; when it succeeds and the size query answers zero or an error,
    the setter returns that answer and the size query of the padding
    transform answers -EINVAL. *)
Theorem get_max_size_follows_set_key (priv : bool) (c : pkcs1pad_ctx T)
    (key : list Z) (keylen err : Z) (ch : T) :
  is_u32 (key_size c) -> is_int (crypto_akcipher_maxsize ch) ->
  inner_set_key_ priv (child c) key keylen = (err, ch) ->
  let r := set_key_ priv c key keylen in
  let size := crypto_akcipher_maxsize ch in
  (err <> 0 ->
     r.1 = err /\ pkcs1pad_get_max_size r.2 = pkcs1pad_get_max_size c) /\
  (err = 0 -> 0 < size -> r.1 = 0 /\ pkcs1pad_get_max_size r.2 = size) /\
  (err = 0 -> size <= 0 ->
     r.1 = size /\ pkcs1pad_get_max_size r.2 = - EINVAL) /\
  pkcs1pad_get_max_size r.2 <> 0 /\
  is_int (pkcs1pad_get_max_size r.2) /\
  pkcs1pad_get_max_size c =
    (if key_size c =? 0 then - EINVAL
     else if key_size c <? 2 ^ 31 then key_size c else key_size c - 2 ^ 32).
Proof.
  intros Hk Hsz Hin r size. fold size in Hsz.
  assert (Hr : is_u32 (key_size r.2) /\
               (err <> 0 -> r.1 = err /\ key_size r.2 = key_size c) /\
               (err = 0 -> 0 < size -> r.1 = 0 /\ key_size r.2 = size) /\
               (err = 0 -> size <= 0 -> r.1 = size /\ key_size r.2 = 0)).
  { subst r. unfold is_u32, is_int in *.
    destruct priv; cbn [set_key inner_set_key] in *;
      unfold pkcs1pad_set_priv_key, pkcs1pad_set_pub_key; rewrite Hin;
      fold size;
      destruct (Z.eqb_spec err 0) as [->|Herr];
      destruct (Z.ltb_spec 0 size), (Z.leb_spec size 0);
      cbn [fst snd key_size];
      repeat split; intros; try lia; try reflexivity. }
  destruct Hr as (Hu & Hfail & Hpos & Hnon).
  pose proof (get_max_size_cases r.2 Hu) as Hq.
  split; [|split; [|split; [|split; [|split]]]].
  - intros Herr. destruct (Hfail Herr) as [H1 H2]. split; [exact H1|].
    rewrite Hq, H2. symmetry. apply get_max_size_cases. exact Hk.
  - intros Herr Hs. destruct (Hpos Herr Hs) as [H1 H2]. split; [exact H1|].
    rewrite Hq, H2. unfold is_int in Hsz.
    destruct (Z.eqb_spec size 0); [lia|].
    destruct (Z.ltb_spec size (2 ^ 31)); [reflexivity | lia].
  - intros Herr Hs. destruct (Hnon Herr Hs) as [H1 H2]. split; [exact H1|].
    rewrite Hq, H2. reflexivity.
  - rewrite Hq. unfold is_u32, EINVAL in *.
    destruct (Z.eqb_spec (key_size r.2) 0); [lia|].
    destruct (Z.ltb_spec (key_size r.2) (2 ^ 31)); lia.
  - rewrite Hq. unfold is_u32, is_int, EINVAL in *.
    destruct (Z.eqb_spec (key_size r.2) 0); [lia|].
    destruct (Z.ltb_spec (key_size r.2) (2 ^ 31)); lia.
  - apply get_max_size_cases. exact Hk.
Qed.

(** ** Buffers as scatterlists *)

(** X4.  [pkcs1pad_sg_set_buf] describes the first [len] bytes of a
    buffer that starts at offset [off] of its page by one segment when
    they end inside that page and by two otherwise, followed by the chain
    [next]: the segments hold exactly those bytes in order, and for a
    buffer of at most one page no segment crosses a page boundary (the
    first ends at or before the end of the page it starts in, the second
    starts a page and is shorter than one). *)
Theorem sg_set_buf_pages (off len : Z) (buf : list Z)
    (next : option scatterlist) :
  0 <= off < PAGE_SIZE -> 0 <= len <= Z.of_nat (length buf) ->
  exists segs,
    pkcs1pad_sg_set_buf PAGE_SIZE off buf len next = segs ++ default [] next /\
    concat segs = take (Z.to_nat len) buf /\
    (length segs = 1%nat \/ length segs = 2%nat) /\
    (length segs = 1%nat <-> off + len <= PAGE_SIZE) /\
    (len <= PAGE_SIZE ->
       (forall s0, segs !! 0%nat = Some s0 ->
          off + Z.of_nat (length s0) <= PAGE_SIZE) /\
       (forall s1, segs !! 1%nat = Some s1 ->
          Z.of_nat (length s1) < PAGE_SIZE)).
Proof.
  intros Hoff Hlen. unfold pkcs1pad_sg_set_buf.
  destruct (Z.leb_spec (off + len) PAGE_SIZE) as [Hfit|Hcross].
  - exists [take (Z.to_nat len) buf]. split; [|split; [|split; [|split]]].
    + destruct next; [reflexivity|]. cbn [default app]. reflexivity.
    + cbn [concat]. apply app_nil_r.
    + left. reflexivity.
    + split; intros; [exact Hfit | reflexivity].
    + intros _. split.
      * intros s0 [= <-]. rewrite length_take. lia.
      * intros s1 H. discriminate H.
  - exists [take (Z.to_nat (PAGE_SIZE - off)) buf;
            take (Z.to_nat (off + len - PAGE_SIZE))
                 (drop (Z.to_nat (PAGE_SIZE - off)) buf)].
    split; [|split; [|split; [|split]]].
    + destruct next; reflexivity.
    + cbn [concat]. rewrite app_nil_r, take_take_drop. f_equal. lia.
    + right. reflexivity.
    + split; intros H; [discriminate H | lia].
    + intros Hpage. split.
      * intros s0 [= <-]. rewrite length_take. lia.
      * intros s1 [= <-]. rewrite length_take, length_drop. lia.
Qed.

(** ** Post-processing: what it leaves behind *)

Ltac proj :=
  cbn [ctx req req_ctx trace inflight src src_len dst dst_len flags
       child_src child_src_len child_dst_len in_buf out_buf
       with_dst_len with_dst with_req_ctx with_child with_child_dst_len
       with_in_buf with_out_buf with_inflight log key_size hash_name child
       mbind option_bind fst snd] in *.

(** X5.  Post-processing of encrypt and sign returns the error it is
    given, sets [dst_len] to the modulus size k and releases both working
    buffers, whatever the error.  On an error the destination bytes are
    left as they were.  On success, with an engine result of c <= k bytes,
    the first k bytes of the destination become k - c zero bytes followed
    by the c bytes of the result, and the bytes behind them are
    untouched. *)
Theorem encrypt_sign_complete_result (st : machine T) (err : Z) (out : list Z) :
  let k := key_size (ctx st) in
  let c := child_dst_len (req_ctx st) in
  let left_behind (s : machine T) :=
    dst_len (req s) = k /\
    in_buf (req_ctx s) = None /\ out_buf (req_ctx s) = None /\
    trace s = trace st ++ [EvKfree; EvKzfree] /\
    ctx s = ctx st /\ src (req s) = src (req st) /\
    src_len (req s) = src_len (req st) in
  (err <> 0 ->
     exists s, pkcs1pad_encrypt_sign_complete st err = Some (err, s) /\
       left_behind s /\ dst (req s) = dst (req st)) /\
  (err = 0 -> 0 < k < 2 ^ 32 -> 0 <= c <= k ->
   out_buf (req_ctx st) = Some out -> (Z.to_nat c <= length out)%nat ->
   (Z.to_nat k <= length (dst (req st)))%nat ->
     exists s, pkcs1pad_encrypt_sign_complete st err = Some (0, s) /\
       left_behind s /\
       dst (req s) = replicate (Z.to_nat (k - c)) 0 ++ take (Z.to_nat c) out
                     ++ drop (Z.to_nat k) (dst (req st))).
Proof.
  intros k c left_behind. subst left_behind. cbv beta. split.
  - intros Herr. unfold pkcs1pad_encrypt_sign_complete.
    destruct (Z.eqb_spec err 0) as [?|_]; [contradiction|].
    cbn [mbind option_bind]. eexists. split; [reflexivity|]. proj.
    rewrite <- app_assoc. repeat split; reflexivity.
  - intros -> Hk Hc Hout Hlo Hld. unfold pkcs1pad_encrypt_sign_complete.
    fold k c. rewrite Z.eqb_refl, Hout, (u32_small (k - c)) by lia.
    assert (Hz : (if k - c =? 0 then Some (dst (req st))
                  else zero_fill (dst (req st)) (k - c))
                 = Some (replicate (Z.to_nat (k - c)) 0
                         ++ drop (Z.to_nat (k - c)) (dst (req st)))).
    { destruct (Z.eqb_spec (k - c) 0) as [->|_]; [reflexivity|].
      unfold zero_fill. destruct (Z.leb_spec (k - c)
        (Z.of_nat (length (dst (req st))))); [reflexivity|lia]. }
    rewrite Hz. cbn [mbind option_bind]. unfold sg_pcopy_from_buffer.
    destruct (Z.leb_spec 0 c); [|lia].
    destruct (Z.leb_spec c (Z.of_nat (length out))); [|lia].
    destruct (Z.leb_spec 0 (k - c)); [|lia].
    cbn [andb mbind option_bind].
    eexists. split; [reflexivity|]. proj. rewrite <- app_assoc.
    split; [repeat split; reflexivity|].
    set (z := replicate (Z.to_nat (k - c)) 0).
    assert (Hlz : length z = Z.to_nat (k - c)) by apply length_replicate.
    rewrite (take_app_length' z) by (symmetry; exact Hlz).
    rewrite length_app, Hlz, length_drop.
    rewrite (take_ge (take (Z.to_nat c) out)) by (rewrite length_take; lia).
    f_equal. f_equal.
    rewrite drop_app_ge by lia. rewrite Hlz, drop_drop. f_equal. lia.
Qed.

(** The tail of decrypt and verify touches the caller's request only. *)
Lemma deliver_frame (st : machine T) (out : list Z) (pos r : Z) (s : machine T) :
  deliver st out 0 pos = Some (r, s) ->
  ctx s = ctx st /\ req_ctx s = req_ctx st /\ trace s = trace st /\
  inflight s = inflight st /\
  src (req s) = src (req st) /\ src_len (req s) = src_len (req st) /\
  flags (req s) = flags (req st) /\
  dst_len (req s) = u32 (child_dst_len (req_ctx st) - pos) /\
  length (dst (req s)) = length (dst (req st)) /\
  (r = 0 /\ dst_len (req s) <= dst_len (req st) \/
   r = - EOVERFLOW /\ dst_len (req st) < dst_len (req s) /\
   dst (req s) = dst (req st)).
Proof.
  unfold deliver. intros H.
  destruct (Z.ltb_spec (dst_len (req st))
              (u32 (child_dst_len (req_ctx st) - pos))) as [Hlt|Hge].
  - change (- EOVERFLOW =? 0) with false in H. cbv iota in H.
    injection H as <- <-. proj. repeat split; try reflexivity.
    right. repeat split. exact Hlt.
  - rewrite Z.eqb_refl in H. proj.
    unfold sg_copy_from_buffer, sg_pcopy_from_buffer in H.
    destruct (_ && _) eqn:Hb; [|discriminate H].
    cbn [mbind option_bind] in H. injection H as <- <-. proj.
    repeat split; try reflexivity.
    + rewrite length_app, !length_take, !length_drop.
      apply andb_prop in Hb as [Hb _]. apply andb_prop in Hb as [H0 H1].
      apply Z.leb_le in H0, H1. rewrite length_drop in H1. lia.
    + left. split; [reflexivity | exact Hge].
Qed.

(** The ways out of the post-processing of decrypt: the label [done]
    after an error of the engine, after a rejected block, or after the
    tail [deliver]. *)
Lemma decrypt_complete_cases (st : machine T) (err r : Z) (st' : machine T) :
  pkcs1pad_decrypt_complete st err = Some (r, st') ->
  exists s, st' = log EvKzfree (with_out_buf None s) /\
    ((s = st /\ err <> 0 /\
      r = (if err =? - EOVERFLOW then - EINVAL else err)) \/
     (s = st /\ err = 0 /\ r = - EINVAL) \/
     (err = 0 /\ exists out pos, deliver st out 0 pos = Some (r, s))).
Proof.
  unfold pkcs1pad_decrypt_complete, done. intros H.
  destruct (Z.eqb_spec err (- EOVERFLOW)) as [->|Hov].
  { change (negb (- EINVAL =? 0)) with true in H. cbv iota in H.
    cbn [fst snd] in H. injection H as <- <-.
    exists st. split; [reflexivity|]. left.
    repeat split; discriminate. }
  destruct (Z.eqb_spec err 0) as [->|Hne]; cbn [negb] in H; cycle 1.
  { cbn [fst snd] in H. injection H as <- <-.
    exists st. split; [reflexivity|]. left. repeat split; assumption. }
  repeat match type of H with
  | (if ?b then _ else _) = _ => destruct b
  | Some (fst (_, _), _) = Some _ =>
      cbn [fst snd] in H; injection H as <- <-;
      exists st; split; [reflexivity|]; right; left; repeat split; reflexivity
  | mbind _ ?m = _ =>
      let E := fresh "E" in destruct m eqn:E; [|discriminate H];
      cbn [mbind option_bind] in H
  end.
  destruct p as [r0 s0]. cbn [fst snd] in H. injection H as <- <-.
  exists s0. split; [reflexivity|]. right; right. split; [reflexivity|].
  eexists _, _. eassumption.
Qed.

Lemma verify_complete_cases (st : machine T) (err r : Z) (st' : machine T) :
  pkcs1pad_verify_complete st err = Some (r, st') ->
  exists s, st' = log EvKzfree (with_out_buf None s) /\
    ((s = st /\ err <> 0 /\
      r = (if err =? - EOVERFLOW then - EINVAL else err)) \/
     (s = st /\ err = 0 /\ (r = - EINVAL \/ r = - EBADMSG)) \/
     (err = 0 /\ exists out pos, deliver st out 0 pos = Some (r, s))).
Proof.
  unfold pkcs1pad_verify_complete, done. intros H.
  destruct (Z.eqb_spec err (- EOVERFLOW)) as [->|Hov].
  { change (negb (- EINVAL =? 0)) with true in H. cbv iota in H.
    cbn [fst snd] in H. injection H as <- <-.
    exists st. split; [reflexivity|]. left.
    repeat split; discriminate. }
  destruct (Z.eqb_spec err 0) as [->|Hne]; cbn [negb] in H; cycle 1.
  { cbn [fst snd] in H. injection H as <- <-.
    exists st. split; [reflexivity|]. left. repeat split; assumption. }
  repeat match type of H with
  | (if ?b then _ else _) = _ => destruct b
  | Some (fst (_, _), _) = Some _ =>
      cbn [fst snd] in H; injection H as <- <-;
      exists st; split; [reflexivity|]; right; left;
      repeat split; first [left; reflexivity | right; reflexivity | reflexivity]
  | mbind _ ?m = _ =>
      let E := fresh "E" in destruct m eqn:E; [|discriminate H];
      cbn [mbind option_bind] in H
  | match ?m with _ => _ end = _ => destruct m
  end;
  match goal with
  | E : deliver _ _ _ _ = Some ?p |- _ =>
      destruct p as [rr ss]; cbn [fst snd] in H; injection H as <- <-;
      exists ss; split; [reflexivity|]; right; right; split; [reflexivity|];
      eexists _, _; exact E
  end.
Qed.

(** X6.  Post-processing of decrypt and of verify, whatever the engine
    reported and whatever the block holds: the output buffer is wiped and
    released, exactly once; the result is 0 only when the engine reported
    0; unless the result is 0 the bytes of the caller's destination are
    left as they were, so that no part of a rejected block reaches the
    caller; and unless it is 0 or -EOVERFLOW the whole request is left as
    it was.  With -EOVERFLOW, [dst_len] holds the length the caller's
    buffer needs, which is larger than the one announced. *)
Theorem unpad_failure_keeps_destination (op : akcipher_op)
    (st st' : machine T) (err r : Z) :
  op = OpDecrypt \/ op = OpVerify ->
  complete_of op st err = Some (r, st') ->
  out_buf (req_ctx st') = None /\
  trace st' = trace st ++ [EvKzfree] /\ ctx st' = ctx st /\
  (r = 0 -> err = 0) /\
  (err <> 0 -> r = if err =? - EOVERFLOW then - EINVAL else err) /\
  (r <> 0 -> dst (req st') = dst (req st)) /\
  (r <> 0 -> r <> - EOVERFLOW -> req st' = req st) /\
  (r = - EOVERFLOW -> dst_len (req st) < dst_len (req st')) /\
  length (dst (req st')) = length (dst (req st)).
Proof.
  intros Hop Hres.
  assert (Hcases : exists s, st' = log EvKzfree (with_out_buf None s) /\
    ((s = st /\ err <> 0 /\
      r = (if err =? - EOVERFLOW then - EINVAL else err)) \/
     (s = st /\ err = 0 /\ (r = - EINVAL \/ r = - EBADMSG)) \/
     (err = 0 /\ exists out pos, deliver st out 0 pos = Some (r, s)))).
  { destruct Hop as [-> | ->]; cbn [complete_of] in Hres.
    - destruct (decrypt_complete_cases _ _ _ _ Hres) as (s & Hs & Hc).
      exists s. split; [exact Hs|].
      destruct Hc as [Hc | [(? & ? & ?) | Hc]]; [left; exact Hc | | right; right; exact Hc].
      right; left. repeat split; try assumption. left. assumption.
    - exact (verify_complete_cases _ _ _ _ Hres). }
  destruct Hcases as (s & -> & Hc). proj.
  destruct Hc as [(-> & Hne & Hr) | [(-> & -> & Hr) | (-> & out & pos & Hd)]].
  - repeat split; try reflexivity; try (intros; assumption).
    + intros ->. destruct (err =? - EOVERFLOW); [discriminate Hr | congruence].
    + intros ->. exfalso. destruct (Z.eqb_spec err (- EOVERFLOW)); [discriminate Hr|].
      congruence.
  - repeat split; try reflexivity; try (intros; congruence).
    all: intros ->; destruct Hr as [Hr|Hr]; discriminate Hr.
  - destruct (deliver_frame _ _ _ _ _ Hd)
      as (Hctx & Hrc & Htr & _ & _ & _ & _ & _ & Hlen & Hr).
    rewrite Htr, Hctx. repeat split; try reflexivity; try (intros; congruence).
    + intros Hr0. destruct Hr as [[-> _] | (_ & _ & Hdst)]; [congruence | exact Hdst].
    + intros Hr0 Hov. destruct Hr as [[-> _] | (-> & _ & _)]; congruence.
    + intros ->. destruct Hr as [[Hr _] | (_ & Hlt & _)]; [discriminate Hr | exact Hlt].
Qed.

(** ** The working buffers *)

Ltac step H :=
  match type of H with
  | (if ?b then _ else _) = _ => let E := fresh "Eb" in destruct b eqn:E
  | (let '(_, _) := ?p in _) = _ => destruct p
  | match ?m with _ => _ end = _ => let E := fresh "Em" in destruct m eqn:E
  | mbind _ ?m = _ =>
      let E := fresh "Ex" in destruct m eqn:E; [|discriminate H];
      cbn [mbind option_bind] in H
  end.

Lemma call_child_frame op f (st : machine T) e s :
  call_child op f st = Some (e, s) ->
  (exists bytes, trace s = trace st ++ [EvChild op bytes
     (child_src_len (req_ctx st)) (child_dst_len (req_ctx st))]) /\
  is_Some (out_buf (req_ctx s)) /\ in_buf (req_ctx s) = in_buf (req_ctx st) /\
  is_Some (inflight s) /\ req s = req st /\ ctx s = ctx st.
Proof.
  unfold call_child. intros H. repeat step H.
  injection H as _ <-. proj.
  repeat split; try reflexivity; eexists; reflexivity.
Qed.

Lemma final_status_child (s : machine T) tr op bytes a b :
  trace s = tr ++ [EvChild op bytes a b] -> final_status s = None.
Proof. intros H. unfold final_status. rewrite H, last_snoc. reflexivity. Qed.

(** What post-processing does to the working buffers, and that its
    result is never one of the codes that mean "still in progress". *)
Lemma complete_releases op (st : machine T) err r st' fl :
  complete_of op st err = Some (r, st') ->
  out_buf (req_ctx st') = None /\
  (if pads op then in_buf (req_ctx st') = None
   else in_buf (req_ctx st') = in_buf (req_ctx st)) /\
  (completes_now err fl = true -> completes_now r fl = true).
Proof.
  intros H.
  assert (Hpad : forall s : machine T,
            pkcs1pad_encrypt_sign_complete s err = Some (r, st') ->
            out_buf (req_ctx st') = None /\ in_buf (req_ctx st') = None /\
            (completes_now err fl = true -> completes_now r fl = true)).
  { intros s Hs. pose proof (encrypt_sign_complete_ret _ _ _ _ Hs) as ->.
    unfold pkcs1pad_encrypt_sign_complete in Hs. repeat step Hs;
      injection Hs as <-; proj; repeat split; auto. }
  assert (Hunpad : (exists s, st' = log EvKzfree (with_out_buf None s) /\
    ((s = st /\ err <> 0 /\
      r = (if err =? - EOVERFLOW then - EINVAL else err)) \/
     (s = st /\ err = 0 /\ (r = - EINVAL \/ r = - EBADMSG)) \/
     (err = 0 /\ exists out pos, deliver st out 0 pos = Some (r, s)))) ->
    out_buf (req_ctx st') = None /\ in_buf (req_ctx st') = in_buf (req_ctx st) /\
    (completes_now err fl = true -> completes_now r fl = true)).
  { intros (s & -> & Hc). proj.
    destruct Hc as [(-> & Hne & Hr) | [(-> & -> & Hr) | (-> & out & pos & Hd)]].
    - repeat split. subst r.
      destruct (err =? - EOVERFLOW); [reflexivity | auto].
    - repeat split. destruct Hr as [-> | ->]; reflexivity.
    - destruct (deliver_frame _ _ _ _ _ Hd)
        as (_ & Hrc & _ & _ & _ & _ & _ & _ & _ & Hr).
      rewrite Hrc. repeat split.
      destruct Hr as [[-> _] | [-> _]]; reflexivity. }
  destruct op; cbn [complete_of pads] in *.
  - exact (Hpad _ H).
  - apply Hunpad.
    destruct (decrypt_complete_cases _ _ _ _ H) as (s & Hs & Hc).
    exists s. split; [exact Hs|].
    destruct Hc as [Hc | [(? & ? & ?) | Hc]];
      [left; exact Hc | | right; right; exact Hc].
    right; left. repeat split; try assumption. left. assumption.
  - exact (Hpad _ H).
  - apply Hunpad. exact (verify_complete_cases _ _ _ _ H).
Qed.

(** The two ways a submission ends: everything released and a final
    result, or the request left with the engine. *)
Lemma submit_outcome op o (st : machine T) r st1 :
  released st -> submit op o st = Some (r, st1) ->
  (released st1 /\ completes_now r (flags (req st)) = true) \/
  (completes_now r (flags (req st)) = false /\
   is_Some (out_buf (req_ctx st1)) /\ is_Some (inflight st1) /\
   final_status st1 = None /\
   (if pads op then True else in_buf (req_ctx st1) = None)).
Proof.
  intros [Hi Ho] H.
  destruct op; cbn [submit_of pads] in H |- *;
    unfold pkcs1pad_encrypt, pkcs1pad_decrypt, pkcs1pad_sign, sign_with,
      pkcs1pad_verify in H;
    repeat step H;
    try (injection H as <- <-; left; split;
         [split; proj; first [assumption | reflexivity] | reflexivity]);
    match goal with
    | Ec : call_child _ _ _ = Some (_, ?s) |- _ =>
        destruct (call_child_frame _ _ _ _ _ Ec)
          as ([bytes Htr] & Hob & Hib & Hinf & _ & _)
    end.
  all: match type of H with
       | Some _ = Some _ =>
           injection H as <- <-; right;
           repeat split; try assumption;
           try exact (final_status_child _ _ _ _ _ _ Htr);
           rewrite Hib; proj; assumption
       | _ =>
           left;
           match goal with
           | Eb : completes_now _ _ = true |- _ =>
               first
               [ destruct (complete_releases OpEncrypt _ _ _ _ (flags (req st)) H)
                   as (Hr1 & Hr2 & Hr3)
               | destruct (complete_releases OpDecrypt _ _ _ _ (flags (req st)) H)
                   as (Hr1 & Hr2 & Hr3)
               | destruct (complete_releases OpVerify _ _ _ _ (flags (req st)) H)
                   as (Hr1 & Hr2 & Hr3) ];
               cbn [pads] in Hr2; split; [split; [|exact Hr1] | exact (Hr3 Eb)];
               first [exact Hr2 | rewrite Hr2, Hib; proj; assumption]
           end
       end.
Qed.

(** X7.  A request that starts without working buffers never keeps one
    beyond its completion.  When a submission returns, either the inner
    engine still holds the request (the value returned is -EINPROGRESS,
    or -EBUSY on a request that may be backlogged) and the output buffer
    is still allocated for it, or both working buffers are released.
    And whenever the caller has its final status, from the submission or
    from the completion callback, both working buffers are released:
    on success and on every error. *)
Theorem working_buffers_released (op : akcipher_op) (o : oracle)
    (st : machine T) :
  released st ->
  (forall r st1, submit op o st = Some (r, st1) ->
     (pending r (flags (req st)) -> is_Some (out_buf (req_ctx st1))) /\
     (~ pending r (flags (req st)) -> released st1)) /\
  (forall r st', perform (submit op) (callback_of op) o st = Some (r, st') ->
     released st').
Proof.
  intros Hrel. split.
  - intros r st1 H.
    destruct (submit_outcome op o st r st1 Hrel H)
      as [[Hr Hnow] | (Hnow & Hob & _)].
    + split; [|intros _; exact Hr].
      intros Hp. apply completes_now_pending in Hp. congruence.
    + split; [intros _; exact Hob|].
      intros Hp. exfalso. apply Hp, completes_now_pending, Hnow.
  - intros r st' H. unfold perform in H.
    destruct (submit op o st) as [[ret st1]|] eqn:Hsub; [|discriminate H].
    cbn [mbind option_bind] in H.
    destruct (submit_outcome op o st ret st1 Hrel Hsub)
      as [[Hr Hnow] | (Hnow & _ & _ & Hfin & Hib)].
    + rewrite Hnow in H. injection H as _ <-. exact Hr.
    + rewrite Hnow in H.
      destruct (inflight st1) as [e|]; [|discriminate H].
      cbn [mbind option_bind] in H.
      destruct (callback_of op st1 e) as [st2|] eqn:Hcb; [|discriminate H].
      cbn [mbind option_bind] in H.
      destruct (final_status st2) as [s|] eqn:Hfs; [|discriminate H].
      cbn [mbind option_bind] in H. injection H as _ <-.
      assert (Hc : exists r' s', complete_of op st1 e = Some (r', s') /\
                                 st2 = log (EvComplete r') s').
      { destruct op; cbn [callback_of complete_of] in *;
          unfold pkcs1pad_encrypt_sign_complete_cb,
            pkcs1pad_decrypt_complete_cb, pkcs1pad_verify_complete_cb in Hcb;
          (destruct (Z.eqb_spec e (- EINPROGRESS));
           [injection Hcb as <-; congruence|]);
          match type of Hcb with
          | mbind _ ?c = _ =>
              destruct c as [[r' s']|]; [|discriminate Hcb]
          end;
          cbn [mbind option_bind] in Hcb; injection Hcb as <-;
          exists r', s'; split; reflexivity. }
      destruct Hc as (r' & s' & Hc & ->).
      destruct (complete_releases op _ _ _ _ 0 Hc) as (Hr1 & Hr2 & _).
      split; proj; [|exact Hr1].
      destruct op; cbn [pads] in *; congruence.
Qed.

(** ** Allocation failures *)

(** X8.  When an allocation of a working buffer fails on a request that
    has passed the checks, the submission returns -ENOMEM at once: the
    inner engine is not called, the caller's request and the transform
    are as they were, and no working buffer stays allocated.  Encrypt
    and sign, whose second allocation is the one that fails, release the
    padded block they had built before they return. *)
Theorem allocation_failure (op : akcipher_op) (o : oracle) (st : machine T) :
  validated PAGE_SIZE op st -> released st ->
  (if pads op then in_alloc o = None \/ out_alloc o = None
   else out_alloc o = None) ->
  let k := key_size (ctx st) in
  let g := gfp_of (flags (req st)) in
  let n := k - 1 - src_len (req st) in
  exists st',
    submit op o st = Some (- ENOMEM, st') /\
    req st' = req st /\ ctx st' = ctx st /\ released st' /\
    inflight st' = inflight st /\
    trace st' = trace st ++
      (if pads op then
         match in_alloc o with
         | None => [EvKmalloc n g]
         | Some _ => [EvKmalloc n g; EvKmalloc k g; EvKfree]
         end
       else [EvKmalloc k g]).
Proof.
  intros (Hwf & Hk & Hpg & Hop) [Hi Ho] Hfail k g n.
  pose proof (wf_key_size _ Hwf) as Hku. unfold is_u32 in Hku. fold k in Hku.
  pose proof (wf_src_len _ Hwf) as [Hl0 _].
  set (len := src_len (req st)) in *.
  destruct op; cbn [pads submit_of] in *.
  - (* encrypt *)
    destruct Hop as [Hdst Hlen]. fold k in Hdst, Hlen, Hk, Hpg.
    unfold pkcs1pad_encrypt. fold k len.
    rewrite (u32_small (k - 11)), (u32_small (k - 1)),
      (u32_small (k - 1 - len)), (u32_small (k - len - 2)) by lia.
    destruct (Z.eqb_spec k 0); [lia|].
    destruct (Z.ltb_spec (k - 11) len); [lia|].
    destruct (Z.ltb_spec (dst_len (req st)) k); [lia|].
    destruct (Z.ltb_spec PAGE_SIZE k); [lia|].
    destruct (in_alloc o) as [ka|].
    + destruct Hfail as [Hfail|Hfail]; [discriminate Hfail|]. rewrite Hfail.
      pose proof (encrypt_fill (prandom o) (fresh ka (k - 1 - len)) k len)
        as Hfill.
      rewrite length_fresh in Hfill.
      specialize (Hfill ltac:(lia) ltac:(lia)).
      destruct (store (fresh ka (k - 1 - len)) 0 2) as [b1|]; [|discriminate].
      cbn [mbind option_bind] in Hfill |- *.
      destruct (fill_ps _ 1 (prandom o) b1) as [b2|]; [|discriminate].
      cbn [mbind option_bind] in Hfill |- *. rewrite Hfill.
      cbn [mbind option_bind].
      eexists. split; [reflexivity|]. unfold released. proj.
      rewrite <- !app_assoc. repeat split; assumption.
    + eexists. split; [reflexivity|]. unfold released. proj.
      repeat split; assumption.
  - (* decrypt *)
    fold k in Hop, Hk, Hpg. unfold pkcs1pad_decrypt. fold k len.
    rewrite Hop, Hfail.
    destruct (Z.eqb_spec k 0); [lia|]. rewrite Z.eqb_refl. cbn [negb orb].
    destruct (Z.ltb_spec PAGE_SIZE k); [lia|].
    eexists. split; [reflexivity|]. unfold released. proj.
    repeat split; assumption.
  - (* sign *)
    destruct Hop as (Hdst & di & Hdi & Hlen). fold k in Hdst, Hlen, Hk, Hpg.
    destruct (sign_digest PAGE_SIZE crypto_akcipher_sign st o di Hk Hdi)
      as [Hsign Hsz].
    rewrite Hsign. unfold sign_with. fold k len.
    set (der := from_option data [] di) in *.
    set (dsz := from_option size 0 di) in *.
    rewrite (u32_small (k - 11)), (u32_small (k - 1)), (u32_small (len + dsz)),
      (u32_small (k - 1 - len)), (u32_small (k - dsz - len - 2)),
      (u32_small (k - dsz - len - 2 - 1)) by lia.
    destruct (Z.ltb_spec (k - 11) (len + dsz)); [lia|].
    destruct (Z.ltb_spec (dst_len (req st)) k); [lia|].
    destruct (Z.ltb_spec PAGE_SIZE k); [lia|].
    destruct (in_alloc o) as [ka|].
    + destruct Hfail as [Hfail|Hfail]; [discriminate Hfail|]. rewrite Hfail.
      pose proof (sign_fill (bool_decide (is_Some di)) (fresh ka (k - 1 - len))
                    der k len) as Hfill.
      rewrite length_fresh in Hfill. cbv zeta in Hfill. rewrite <- Hsz in Hfill.
      specialize (Hfill ltac:(lia) ltac:(lia)).
      destruct (store (fresh ka (k - 1 - len)) 0 1) as [b1|];
        [|discriminate Hfill; destruct di; [discriminate|reflexivity]].
      cbn [mbind option_bind] in Hfill |- *.
      destruct (memset b1 1 255 _) as [b2|];
        [|discriminate Hfill; destruct di; [discriminate|reflexivity]].
      cbn [mbind option_bind] in Hfill |- *.
      destruct (store b2 _ 0) as [b3|];
        [|discriminate Hfill; destruct di; [discriminate|reflexivity]].
      cbn [mbind option_bind] in Hfill |- *.
      assert (Hcopy : match di with
                      | Some di0 => memcpy b3 (k - dsz - len - 2 + 1) (data di0)
                                      (size di0)
                      | None => Some b3
                      end = Some (sign_pad der k len)).
      { destruct di as [di0|]; cbn in Hfill, der, dsz |- *.
        - apply Hfill. discriminate.
        - apply Hfill. reflexivity. }
      rewrite Hcopy. cbn [mbind option_bind].
      eexists. split; [reflexivity|]. unfold released. proj.
      rewrite <- !app_assoc. repeat split; assumption.
    + eexists. split; [reflexivity|]. unfold released. proj.
      repeat split; assumption.
  - (* verify *)
    fold k in Hop, Hk, Hpg. unfold pkcs1pad_verify. fold k len.
    rewrite Hfail.
    destruct (Z.eqb_spec k 0); [lia|].
    destruct (Z.ltb_spec len k); [lia|]. cbn [orb].
    destruct (Z.ltb_spec PAGE_SIZE k); [lia|].
    eexists. split; [reflexivity|]. unfold released. proj.
    repeat split; assumption.
Qed.

(** ** Validation of sign *)

Lemma u32_wrap (x : Z) : 2 ^ 32 <= x < 2 ^ 33 -> u32 x = x - 2 ^ 32.
Proof.
  intros H. unfold u32.
  replace x with (x - 2 ^ 32 + 1 * 2 ^ 32) at 1 by lia.
  rewrite Z_mod_plus_full. apply Z.mod_small. lia.
Qed.

Lemma sign_with_proceeds di ds o (st : machine T) :
  u32 (src_len (req st) + ds) <= u32 (key_size (ctx st) - 11) ->
  key_size (ctx st) <= dst_len (req st) ->
  key_size (ctx st) <= PAGE_SIZE ->
  proceeds (sign_with PAGE_SIZE crypto_akcipher_sign di ds o st) st.
Proof.
  intros Hs Hd Hp r st' H. unfold sign_with in H.
  destruct (Z.ltb_spec (u32 (key_size (ctx st) - 11))
              (u32 (src_len (req st) + ds))); [lia|].
  destruct (Z.ltb_spec (dst_len (req st)) (key_size (ctx st))); [lia|].
  destruct (Z.ltb_spec PAGE_SIZE (key_size (ctx st))); [lia|].
  destruct (in_alloc o); cycle 1.
  { injection H as _ <-. cbn. eexists _, _, []. reflexivity. }
  repeat match type of H with
  | mbind _ (store _ _ _) = _ => step H
  | mbind _ (memset _ _ _ _) = _ => step H
  | mbind _ (match _ with _ => _ end) = _ => step H
  end.
  destruct (out_alloc o); cycle 1.
  { injection H as _ <-. cbn. eexists _, _, _.
    rewrite <- !app_assoc. reflexivity. }
  destruct (call_child _ _ _) as [[e1 s1]|] eqn:Ec; [|discriminate].
  cbn in H. apply call_child_trace in Ec as [ev Ht]. cbn in Ht.
  destruct (completes_now _ _).
  - apply encrypt_sign_complete_trace in H. rewrite H, Ht.
    eexists _, _, _. rewrite <- !app_assoc. reflexivity.
  - injection H as _ <-. rewrite Ht.
    eexists _, _, _. rewrite <- !app_assoc. reflexivity.
Qed.

(** X9.  The checks of sign, in the order of the code.  Without a key
    the request is rejected with -EINVAL.  With a key of k >= 11 bytes and
    a DigestInfo template of ds bytes (0 without a hash): a message of
    more than k - 11 - ds bytes is rejected with -EOVERFLOW; otherwise a
    destination shorter than k gets -EOVERFLOW with [dst_len] set to k;
    otherwise a modulus larger than a page gets -ENOTSUPP; otherwise the
    request goes on to allocate.  All rejections leave the request
    untouched (but for [dst_len] in the one case), with no allocation
    and no call of the engine.  The sum of the message length and ds is
    computed in [unsigned int]: when it reaches 2^32 it wraps around, and
    a request whose wrapped sum is at most k - 11 passes the length
    check. *)
Theorem sign_validation o (st : machine T) (di : option rsa_asn1_template) :
  wf_machine st ->
  let k := key_size (ctx st) in
  let n := src_len (req st) in
  let d := dst_len (req st) in
  let ds := from_option size 0 di in
  (k = 0 -> rejects (sign o st) EINVAL st) /\
  (k <> 0 -> configured_digest (hash_name (ctx st)) = Some di -> 11 <= k ->
     (k - 11 < n + ds < 2 ^ 32 -> rejects (sign o st) EOVERFLOW st) /\
     (n + ds <= k - 11 -> d < k ->
        sign o st = Some (- EOVERFLOW, with_dst_len k st)) /\
     (n + ds <= k - 11 -> k <= d -> PAGE_SIZE < k ->
        rejects (sign o st) ENOTSUPP st) /\
     (n + ds <= k - 11 -> k <= d -> k <= PAGE_SIZE ->
        proceeds (sign o st) st /\ forall e, ~ rejects (sign o st) e st) /\
     (2 ^ 32 <= n + ds -> n + ds - 2 ^ 32 <= k - 11 -> k <= d ->
      k <= PAGE_SIZE -> proceeds (sign o st) st)).
Proof.
  intros [Hk Hn Hd Hf] k n d ds. unfold is_u32 in *. fold k in Hk.
  fold n in Hn. fold d in Hd. split.
  { intros H0. unfold rejects, pkcs1pad_sign. fold k. rewrite H0. reflexivity. }
  intros Hk0 Hdi H11.
  destruct (sign_digest PAGE_SIZE crypto_akcipher_sign st o di Hk0 Hdi)
    as [Hsign Hsz]. fold ds in Hsign, Hsz.
  assert (Hds : 0 <= ds) by lia.
  rewrite Hsign. unfold rejects.
  assert (Hu : u32 (k - 11) = k - 11) by (apply u32_small; lia).
  split; [|split; [|split; [|split]]].
  - intros Hlen. unfold sign_with. fold k n. rewrite Hu, u32_small by lia.
    destruct (Z.ltb_spec (k - 11) (n + ds)); [reflexivity|lia].
  - intros Hlen Hdst. unfold sign_with. fold k n d. rewrite Hu, u32_small by lia.
    destruct (Z.ltb_spec (k - 11) (n + ds)); [lia|].
    destruct (Z.ltb_spec d k); [reflexivity|lia].
  - intros Hlen Hdst Hpg. unfold sign_with. fold k n d.
    rewrite Hu, u32_small by lia.
    destruct (Z.ltb_spec (k - 11) (n + ds)); [lia|].
    destruct (Z.ltb_spec d k); [lia|].
    destruct (Z.ltb_spec PAGE_SIZE k); [reflexivity|lia].
  - intros Hlen Hdst Hpg.
    assert (Hp : proceeds (sign_with PAGE_SIZE crypto_akcipher_sign di ds o st)
                   st).
    { apply sign_with_proceeds; fold k n d; try assumption.
      rewrite Hu, u32_small by lia. exact Hlen. }
    split; [exact Hp|]. intros e. exact (proceeds_not_rejected _ _ _ Hp).
  - intros Hwrap Hlen Hdst Hpg.
    apply sign_with_proceeds; fold k n d; try assumption.
    rewrite Hu, u32_wrap by lia. exact Hlen.
Qed.

(** ** The events of one operation *)

Lemma complete_trace op (st : machine T) err r st' :
  complete_of op st err = Some (r, st') ->
  trace st' = trace st ++ (if pads op then [EvKfree; EvKzfree] else [EvKzfree]).
Proof.
  destruct op; cbn [complete_of pads]; intros H.
  - exact (encrypt_sign_complete_trace _ _ _ _ H).
  - exact (decrypt_complete_trace _ _ _ _ H).
  - exact (encrypt_sign_complete_trace _ _ _ _ H).
  - exact (verify_complete_trace _ _ _ _ H).
Qed.

Lemma callback_eq op (s : machine T) (e : Z) :
  callback_of op s e =
    if e =? - EINPROGRESS then Some s
    else '(r, s') ← complete_of op s e; Some (log (EvComplete r) s').
Proof. destruct op; reflexivity. Qed.

(** X10.  Every operation that reaches the inner engine and ends, with
    success or with an error, has done exactly this, in this order: the
    allocations of its working buffers, one call of the inner engine,
    the release of the working buffers (of both for encrypt and sign, of
    the output buffer for decrypt and verify), and then, only when the
    call of the engine had left the request in progress, one call of the
    caller's completion callback, with the final status.  A request
    completed within the submission never calls the caller's callback. *)
Theorem one_call_then_release (op : akcipher_op) (o : oracle)
    (st st' : machine T) (r : Z) :
  ready PAGE_SIZE op o st ->
  perform (submit op) (callback_of op) o st = Some (r, st') ->
  exists (pre : list event) (bytes : list Z) (csl : Z),
    let k := key_size (ctx st) in
    let fl := flags (req st) in
    let rep := engine op (child (ctx st)) bytes k fl in
    Forall (fun e => exists n g, e = EvKmalloc n g) pre /\
    trace st' = trace st ++ pre ++ [EvChild op bytes csl k]
                ++ (if pads op then [EvKfree; EvKzfree] else [EvKzfree])
                ++ (if completes_now (rc rep) fl then [] else [EvComplete r]).
Proof.
  intros Hready H.
  destruct (submit_after_call PAGE_SIZE crypto_akcipher_encrypt
              crypto_akcipher_decrypt crypto_akcipher_sign
              crypto_akcipher_verify op o st Hready)
    as (pre & csrc & csl & ib & kb & bytes & Hpre & Heq).
  cbv zeta in Heq. exists pre, bytes, csl. cbv zeta. split; [exact Hpre|].
  set (rep := engine op (child (ctx st)) bytes (key_size (ctx st))
                (flags (req st))) in *.
  set (st1 := after_call st op pre csrc csl ib kb bytes rep) in *.
  unfold perform in H. rewrite Heq in H.
  destruct (completes_now (rc rep) (flags (req st))) eqn:Hnow.
  - destruct (complete_of op st1 (rc rep)) as [[ret s1]|] eqn:Hc;
      [|discriminate H].
    cbn [mbind option_bind] in H.
    destruct (complete_releases op _ _ _ _ (flags (req st)) Hc) as (_ & _ & Hr).
    rewrite (Hr Hnow) in H. injection H as _ <-.
    rewrite (complete_trace _ _ _ _ _ Hc). subst st1. cbn [after_call trace].
    rewrite app_nil_r, <- !app_assoc. reflexivity.
  - cbn [mbind option_bind] in H. rewrite Hnow in H.
    change (inflight st1) with (Some (late rep)) in H.
    cbn [mbind option_bind] in H. rewrite callback_eq in H.
    destruct (Z.eqb_spec (late rep) (- EINPROGRESS)).
    + cbn [mbind option_bind] in H.
      unfold st1 in H. rewrite final_status_after_call in H. discriminate H.
    + destruct (complete_of op st1 (late rep)) as [[ret s1]|] eqn:Hc;
        [|discriminate H].
      cbn [mbind option_bind] in H. rewrite final_status_logged in H.
      cbn [mbind option_bind] in H. injection H as <- <-.
      cbn [log trace]. rewrite (complete_trace _ _ _ _ _ Hc).
      subst st1. cbn [after_call trace]. rewrite <- !app_assoc. reflexivity.
Qed.

(** ** Completion of verify: the accepted blocks *)

Lemma memcmp_ne_match (pat : list Z) : forall pos (buf : list Z),
  0 <= pos ->
  take (length pat) (drop (Z.to_nat pos) buf) = pat ->
  memcmp_ne buf pos pat (length pat) = Some false.
Proof.
  induction pat as [|d pat IH]; intros pos buf Hpos Heq; [reflexivity|].
  cbn [length memcmp_ne]. rewrite load_lookup by assumption.
  destruct (drop (Z.to_nat pos) buf) as [|b rest] eqn:Hd;
    [cbn in Heq; discriminate Heq|].
  cbn [length] in Heq. rewrite firstn_cons in Heq. injection Heq as -> Hrest.
  assert (Hb : buf !! Z.to_nat pos = Some d).
  { rewrite <- (Nat.add_0_r (Z.to_nat pos)), <- lookup_drop, Hd. reflexivity. }
  rewrite Hb. cbn [mbind option_bind]. rewrite Z.eqb_refl.
  apply IH; [lia|].
  replace (Z.to_nat (pos + 1)) with (S (Z.to_nat pos)) by lia.
  rewrite (drop_S _ _ _ Hb) in Hd. injection Hd as ->. exact Hrest.
Qed.

(** A comparison that runs past the end of the buffer: every byte from
    [pos] to the end of [buf] equals the pattern, which is longer. *)
Lemma memcmp_ne_overread (n : nat) : forall (pat : list Z) pos (buf tail : list Z),
  0 <= pos -> pat = drop (Z.to_nat pos) buf ++ tail ->
  (length (drop (Z.to_nat pos) buf) < n <= length pat)%nat ->
  memcmp_ne buf pos pat n = None.
Proof.
  induction n as [|n IH]; intros pat pos buf tail Hpos Hpat Hn; [lia|].
  destruct pat as [|d pat]; [cbn [length] in Hn; lia|].
  cbn [memcmp_ne]. rewrite load_lookup by assumption.
  destruct (drop (Z.to_nat pos) buf) as [|b rest] eqn:Hd.
  - assert (Hnone : buf !! Z.to_nat pos = None).
    { apply lookup_ge_None. apply (f_equal length) in Hd.
      rewrite length_drop in Hd. cbn [length] in Hd. lia. }
    rewrite Hnone. reflexivity.
  - injection Hpat as -> Hpat.
    assert (Hb : buf !! Z.to_nat pos = Some b).
    { rewrite <- (Nat.add_0_r (Z.to_nat pos)), <- lookup_drop, Hd. reflexivity. }
    rewrite Hb. cbn [mbind option_bind]. rewrite Z.eqb_refl.
    rewrite (drop_S _ _ _ Hb) in Hd. injection Hd as Hrest.
    apply (IH pat (pos + 1) buf tail); [lia | |].
    + replace (Z.to_nat (pos + 1)) with (S (Z.to_nat pos)) by lia.
      rewrite Hrest. exact Hpat.
    + replace (Z.to_nat (pos + 1)) with (S (Z.to_nat pos)) by lia.
      rewrite Hrest. cbn [length] in Hn. lia.
Qed.

(** Post-processing of verify on a well-formed block that carries the
    DigestInfo prefix of the transform (none for a transform without a
    hash): the rest of the block is delivered. *)
Lemma verify_complete_accepts (st : machine T) (out : list Z) (p : nat)
    (di : option rsa_asn1_template) :
  let k := key_size (ctx st) in
  let block := take (Z.to_nat (k - 1)) out in
  let der := from_option data [] di in
  0 < k < 2 ^ 32 ->
  out_buf (req_ctx st) = Some out -> length out = Z.to_nat k ->
  child_dst_len (req_ctx st) = k - 1 ->
  block !! 0%nat = Some 0x01 -> pad_end block = Some p -> (9 <= p)%nat ->
  block !! p = Some 0x00 ->
  configured_digest (hash_name (ctx st)) = Some di ->
  take (length der) (drop (S p) block) = der ->
  Z.of_nat p + 1 + Z.of_nat (length der) <= k - 1 /\
  pkcs1pad_verify_complete st 0 =
    (r ← deliver st out 0 (Z.of_nat p + 1 + Z.of_nat (length der));
     Some (done r)).
Proof.
  intros k block der Hk Hout Hlen Hcdl Hb0 Hp Hp9 Hsep Hdi Hder.
  assert (Hfit : Z.of_nat p + 1 + Z.of_nat (length der) <= k - 1).
  { apply (f_equal length) in Hder. apply first_from_lt in Hp as Hlt.
    subst block.
    rewrite length_take, length_drop in Hder. rewrite length_take in Hder, Hlt.
    lia. }
  split; [exact Hfit|].
  rewrite (verify_complete_well_formed st out p Hk Hout Hlen Hcdl Hb0 Hp Hp9
             Hsep).
  unfold configured_digest in Hdi.
  destruct (hash_name (ctx st)) as [h|]; cycle 1.
  { injection Hdi as <-. cbn [from_option length] in der |- *.
    rewrite Z.add_0_r. reflexivity. }
  destruct (rsa_lookup_asn1 h) as [t|] eqn:Hlook; [|discriminate Hdi].
  injection Hdi as <-. cbn [from_option] in der. fold der.
  rewrite (template_size _ _ Hlook). fold der. rewrite Nat2Z.id.
  rewrite memcmp_ne_match; [|lia|].
  - cbn [mbind option_bind]. rewrite u32_small by lia. reflexivity.
  - replace (Z.to_nat (Z.of_nat p + 1)) with (S p) by lia.
    subst block. rewrite skipn_firstn_comm, take_take in Hder.
    rewrite <- Hder at 2. f_equal.
    apply (f_equal length) in Hder. rewrite length_take, length_drop in Hder.
    lia.
Qed.

(** X11.  Post-processing of verify on a block of k - 1 bytes that is
    well formed (0x01, at least 8 bytes 0xff, 0x00) and continues with
    the DigestInfo prefix of the configured hash, byte for byte (with
    nothing, on a transform without a hash): the payload is everything
    behind the prefix, at most k - 11 bytes less the prefix.  Its length
    is stored in [dst_len]; the result is 0 and the payload is copied to
    the destination when the announced destination length can hold it,
    and -EOVERFLOW otherwise.  The prefix itself is never delivered. *)
Theorem verify_complete_delivers (st : machine T) (out : list Z) (p : nat)
    (di : option rsa_asn1_template) :
  let k := key_size (ctx st) in
  let block := take (Z.to_nat (k - 1)) out in
  let der := from_option data [] di in
  let n := k - 2 - Z.of_nat p - Z.of_nat (length der) in
  0 < k < 2 ^ 32 ->
  out_buf (req_ctx st) = Some out -> length out = Z.to_nat k ->
  child_dst_len (req_ctx st) = k - 1 ->
  block !! 0%nat = Some 0x01 -> pad_end block = Some p -> (9 <= p)%nat ->
  block !! p = Some 0x00 ->
  configured_digest (hash_name (ctx st)) = Some di ->
  take (length der) (drop (S p) block) = der ->
  exists r st',
    pkcs1pad_verify_complete st 0 = Some (r, st') /\
    0 <= n <= k - 11 - Z.of_nat (length der) /\
    dst_len (req st') = n /\
    (r = 0 \/ r = - EOVERFLOW) /\
    (r = 0 <-> n <= dst_len (req st)) /\
    (r = 0 -> (Z.to_nat n <= length (dst (req st)))%nat ->
       take (Z.to_nat n) (dst (req st')) = drop (S p + length der) block).
Proof.
  intros k block der n Hk Hout Hlen Hcdl Hb0 Hp Hp9 Hsep Hdi Hder.
  destruct (verify_complete_accepts st out p di Hk Hout Hlen Hcdl Hb0 Hp Hp9
              Hsep Hdi Hder) as [Hfit Heq].
  fold k der in Hfit, Heq. rewrite Heq.
  destruct (deliver_payload st out (Z.of_nat p + 1 + Z.of_nat (length der))
              Hk Hlen Hcdl)
    as (r & st' & Hd & Hn & _ & _ & _ & Hr & Hiff & Hcopy); [lia|].
  rewrite Hd. cbn [mbind option_bind]. unfold done. cbn [fst snd].
  cbv zeta in Hn, Hiff, Hcopy. fold k in Hn, Hiff, Hcopy.
  replace (k - 1 - (Z.of_nat p + 1 + Z.of_nat (length der))) with n
    in Hn, Hiff, Hcopy by (unfold n; lia).
  eexists _, _. split; [reflexivity|]. proj.
  split; [unfold n; lia|]. split; [exact Hn|]. split; [exact Hr|].
  split; [exact Hiff|].
  intros H0 Hroom. rewrite (Hcopy H0 Hroom). fold block. f_equal. lia.
Qed.

(** X12.  Post-processing of verify compares the bytes behind the
    separator with the whole DigestInfo prefix of the configured hash
    without looking at how many bytes the output buffer still holds.  On
    a well-formed block in which everything from the separator to the
    end of the k-byte output buffer agrees with the beginning of the
    prefix, and the prefix is longer, the comparison goes on past the
    end of the buffer: the read is outside the allocation. *)
Theorem verify_complete_reads_past_buffer (st : machine T) (out : list Z)
    (p : nat) (h : string) (t : rsa_asn1_template) (tail : list Z) :
  let k := key_size (ctx st) in
  let block := take (Z.to_nat (k - 1)) out in
  0 < k < 2 ^ 32 ->
  out_buf (req_ctx st) = Some out -> length out = Z.to_nat k ->
  child_dst_len (req_ctx st) = k - 1 ->
  block !! 0%nat = Some 0x01 -> pad_end block = Some p -> (9 <= p)%nat ->
  block !! p = Some 0x00 ->
  hash_name (ctx st) = Some h -> rsa_lookup_asn1 h = Some t ->
  data t = drop (S p) out ++ tail -> tail <> [] ->
  pkcs1pad_verify_complete st 0 = None.
Proof.
  intros k block Hk Hout Hlen Hcdl Hb0 Hp Hp9 Hsep Hh Hlook Hdata Htail.
  rewrite (verify_complete_well_formed st out p Hk Hout Hlen Hcdl Hb0 Hp Hp9
             Hsep), Hh, Hlook.
  rewrite (template_size _ _ Hlook), Nat2Z.id.
  rewrite (memcmp_ne_overread _ (data t) (Z.of_nat p + 1) out tail);
    [reflexivity | lia | |].
  - replace (Z.to_nat (Z.of_nat p + 1)) with (S p) by lia. exact Hdata.
  - replace (Z.to_nat (Z.of_nat p + 1)) with (S p) by lia.
    rewrite Hdata, length_app. destruct tail; [contradiction|].
    cbn [length]. lia.
Qed.

Lemma templates_differ (t1 t2 : rsa_asn1_template) :
  t1 ∈ rsa_asn1_templates -> t2 ∈ rsa_asn1_templates -> t1 <> t2 ->
  exists i c1 c2, data t1 !! i = Some c1 /\ data t2 !! i = Some c2 /\ c1 <> c2.
Proof.
  intros H1 H2 Hne. unfold rsa_asn1_templates in H1, H2.
  repeat (apply elem_of_cons in H1 as [->|H1]);
    try (apply elem_of_nil in H1; contradiction);
    repeat (apply elem_of_cons in H2 as [->|H2]);
    try (apply elem_of_nil in H2; contradiction);
    first
    [ exfalso; apply Hne; reflexivity
    | exists 1%nat; eexists _, _;
      split; [reflexivity | split; [reflexivity | discriminate]]
    | exists 7%nat; eexists _, _;
      split; [reflexivity | split; [reflexivity | discriminate]] ].
Qed.

(** The bytes of a signature block, by position. *)
Lemma sign_block_lookup (n : nat) (rest : list Z) (i : nat) :
  ([0x01] ++ replicate n 0xff ++ [0x00] ++ rest) !! (S (S n) + i)%nat
  = rest !! i.
Proof.
  rewrite (lookup_app_r [1]) by (cbn [length]; lia). cbn [length].
  rewrite lookup_app_r by (rewrite length_replicate; lia).
  rewrite length_replicate.
  rewrite (lookup_app_r [0]) by (cbn [length]; lia). cbn [length].
  f_equal. lia.
Qed.

Lemma sign_block_drop (n : nat) (rest : list Z) :
  drop (S (S n)) ([0x01] ++ replicate n 0xff ++ [0x00] ++ rest) = rest.
Proof.
  replace ([1] ++ replicate n 255 ++ [0] ++ rest)
    with (([1] ++ replicate n 255 ++ [0]) ++ rest)
    by (rewrite <- !app_assoc; reflexivity).
  apply drop_app_length'.
  rewrite !length_app, length_replicate. cbn [length]. lia.
Qed.

(** X13.  A signature block built for one hash of the table is rejected
    by a transform configured with another: on a block of k - 1 bytes
    made of the padding, the DigestInfo prefix of [t1] and a message,
    post-processing of verify on a transform whose hash has the different
    template [t2] completes with -EBADMSG, and the caller's request is
    left untouched. *)
Theorem verify_rejects_other_digest (st : machine T) (out : list Z)
    (h : string) (t1 t2 : rsa_asn1_template) (len : Z) (msg : list Z) :
  let k := key_size (ctx st) in
  0 < k < 2 ^ 32 ->
  out_buf (req_ctx st) = Some out -> length out = Z.to_nat k ->
  child_dst_len (req_ctx st) = k - 1 ->
  hash_name (ctx st) = Some h -> rsa_lookup_asn1 h = Some t2 ->
  t1 ∈ rsa_asn1_templates -> t1 <> t2 ->
  0 <= len -> len + Z.of_nat (length (data t1)) <= k - 11 ->
  take (Z.to_nat (k - 1)) out = sign_pad (data t1) k len ++ msg ->
  pkcs1pad_verify_complete st 0 = Some (done (- EBADMSG, st)).
Proof.
  intros k Hk Hout Hlen Hcdl Hh Hlook Ht1 Hne Hl0 Hl Hblock.
  set (n := Z.to_nat (k - 3 - len - Z.of_nat (length (data t1)))).
  assert (Hshape : take (Z.to_nat (k - 1)) out
                   = [1] ++ replicate n 255 ++ [0] ++ (data t1 ++ msg)).
  { rewrite Hblock. unfold sign_pad. fold n. rewrite <- !app_assoc.
    reflexivity. }
  destruct (pad_end_shape n (data t1 ++ msg)) as (H0 & Hp & Hsep).
  rewrite (verify_complete_well_formed st out (S n) Hk Hout Hlen Hcdl);
    fold k; rewrite ?Hshape; try assumption; [|lia].
  rewrite Hh, Hlook.
  destruct (templates_differ t1 t2 Ht1 (lookup_from_elem _ _ _ Hlook) Hne)
    as (i & c1 & c2 & Hc1 & Hc2 & Hc).
  rewrite (memcmp_ne_mismatch _ (data t2) (Z.of_nat (S n) + 1) out i c1 c2);
    try assumption; try lia.
  - reflexivity.
  - rewrite (template_size _ _ Hlook), Nat2Z.id.
    apply lookup_lt_Some in Hc2. exact Hc2.
  - assert (Hb : take (Z.to_nat (k - 1)) out !! (S (S n) + i)%nat = Some c1).
    { rewrite Hshape, sign_block_lookup, lookup_app_l
        by (apply lookup_lt_Some in Hc1; exact Hc1).
      exact Hc1. }
    apply lookup_take_Some in Hb as [Hb _]. rewrite <- Hb. f_equal. lia.
Qed.

(** ** Sign, then verify *)

(** What a successful encrypt or sign tells about the engine's answer. *)
Lemma perform_padded_success
    (submit_ : oracle -> machine T -> option (Z * machine T))
    o (st st1 st' : machine T) (rep : child_reply) :
  let fl := flags (req st) in
  submit_ o st =
    (if completes_now (rc rep) fl
     then pkcs1pad_encrypt_sign_complete st1 (rc rep)
     else Some (rc rep, st1)) ->
  inflight st1 = Some (late rep) -> final_status st1 = None ->
  perform submit_ pkcs1pad_encrypt_sign_complete_cb o st = Some (0, st') ->
  settled fl rep = 0 /\
  exists s, pkcs1pad_encrypt_sign_complete st1 0 = Some (0, s) /\
            req st' = req s.
Proof.
  intros fl Hsub Hinf Hfin Hperf. unfold perform, settled in *.
  fold fl in Hperf |- *.
  rewrite Hsub in Hperf. destruct (completes_now (rc rep) fl) eqn:Hnow.
  - destruct (pkcs1pad_encrypt_sign_complete st1 (rc rep)) as [[r s]|] eqn:Hc;
      [|discriminate].
    pose proof (encrypt_sign_complete_ret _ _ _ _ Hc) as ->.
    cbn [mbind option_bind] in Hperf. rewrite Hnow in Hperf.
    injection Hperf as Hr <-. rewrite Hr in *.
    split; [reflexivity|]. exists s. split; [exact Hc | reflexivity].
  - cbn [mbind option_bind] in Hperf. rewrite Hnow, Hinf in Hperf.
    cbn [mbind option_bind] in Hperf.
    unfold pkcs1pad_encrypt_sign_complete_cb in Hperf.
    destruct (Z.eqb_spec (late rep) (- EINPROGRESS)).
    + cbn [mbind option_bind] in Hperf. rewrite Hfin in Hperf.
      discriminate Hperf.
    + destruct (pkcs1pad_encrypt_sign_complete st1 (late rep))
        as [[r s]|] eqn:Hc; [|discriminate].
      pose proof (encrypt_sign_complete_ret _ _ _ _ Hc) as ->.
      cbn [mbind option_bind] in Hperf.
      rewrite final_status_logged in Hperf.
      cbn [mbind option_bind] in Hperf. injection Hperf as Hr <-.
      rewrite Hr in *. split; [reflexivity|].
      exists s. split; [exact Hc | reflexivity].
Qed.

(** X14.  For every installed key of modulus size k, every transform
    (with a hash of the table, or without a hash) and every sign request
    whose message of len bytes and DigestInfo prefix of ds bytes (0
    without a hash) satisfy len + ds <= k - 11, so that k >= 11, with an
    announced destination length of at least k that the destination
    buffer really has, k <= PAGE_SIZE, a source chain holding the len
    bytes and both allocations granted, the first at an offset inside a
    page; assuming that the inner engine's verify inverts its sign on
    blocks of k - 1 bytes: when the sign request ends with success, a
    verify request on the same transform whose source is the k bytes
    left in the destination of sign (its output buffer granted, its
    destination large enough for the message) ends with success, reports
    the length of the message and delivers exactly the message, without
    the DigestInfo prefix.  Either request may complete at once or later
    through the callback.  Requests that pass the length check of sign
    only because its unsigned arithmetic wraps are not covered. *)
Theorem verify_inverts_sign (os ov : oracle) (sts sts' stv : machine T)
    (msg : list Z) :
  let k := key_size (ctx sts) in
  let len := src_len (req sts) in
  ready PAGE_SIZE OpSign os sts ->
  sg_bytes (src (req sts)) len = Some msg ->
  dst_len (req sts) <= Z.of_nat (length (dst (req sts))) ->
  inner_inverts crypto_akcipher_sign crypto_akcipher_verify
    (child (ctx sts)) k ->
  perform sign pkcs1pad_encrypt_sign_complete_cb os sts = Some (0, sts') ->
  ctx stv = ctx sts ->
  src_len (req stv) = dst_len (req sts') ->
  sg_bytes (src (req stv)) (src_len (req stv))
    = Some (take (Z.to_nat (dst_len (req sts'))) (dst (req sts'))) ->
  is_Some (out_alloc ov) ->
  len <= dst_len (req stv) <= Z.of_nat (length (dst (req stv))) ->
  exists stv',
    perform verify pkcs1pad_verify_complete_cb ov stv = Some (0, stv') /\
    dst_len (req stv') = len /\
    take (Z.to_nat len) (dst (req stv')) = msg.
Proof.
  intros k len Hready Hsrc Hdcap Hinv Hperf Hctx Hslen Hvsrc [kbv Hov] Hroom.
  destruct Hready as
    (Hwf & Hk & Hpg & _ & [kbs Hos] & Hdst & (ka & Hin & Hoff)
     & (di & Hdi & Hlen)).
  pose proof (wf_key_size _ Hwf) as Hku. unfold is_u32 in Hku.
  pose proof (wf_src_len _ Hwf) as [Hl0 _]. fold k in Hku, Hk, Hpg, Hdst, Hlen.
  fold len in Hl0, Hlen.
  (* the sign side *)
  destruct (sign_digest PAGE_SIZE crypto_akcipher_sign sts os di Hk Hdi)
    as [Hsign Hsz].
  set (der := from_option data [] di) in *.
  set (dsz := from_option size 0 di) in *.
  pose proof (sign_with_submit PAGE_SIZE crypto_akcipher_sign os sts ka kbs msg
                di Hwf Hsz Hl0 Hlen Hdst Hpg Hin ltac:(lia) Hos Hsrc) as Hsub.
  cbv zeta in Hsub. fold k len der dsz in Hsub. rewrite <- Hsign in Hsub.
  set (pad := sign_pad der k len) in *.
  set (rs := crypto_akcipher_sign (child (ctx sts)) (pad ++ msg) k
               (flags (req sts))) in *.
  match type of Hsub with
  | _ = (if _ then _ else Some (_, ?s)) => set (st1 := s) in *
  end.
  destruct (perform_padded_success sign os sts st1 sts' rs Hsub eq_refl
              (final_status_after_call _ _ _ _ _ _ _ _ _) Hperf)
    as (Hset & se & Hce & Hreq).
  assert (Hpl : Z.of_nat (length pad) = k - 1 - len)
    by (apply length_sign_pad; lia).
  assert (Hm : Z.of_nat (length (pad ++ msg)) = k - 1).
  { apply sg_bytes_length in Hsrc. rewrite length_app, Nat2Z.inj_add. lia. }
  destruct (Hinv (pad ++ msg) (flags (req sts)) (flags (req stv)) Hm Hset)
    as (Hc & Hco & Hvset & Hvlen & Hvout).
  fold rs in Hc, Hco, Hvset, Hvlen, Hvout.
  destruct (encrypt_sign_complete_ok st1
              (engine_writes (r_out rs) (fresh kbs k)))
    as (se' & Hce' & Hsl & Hsd).
  { change (key_size (ctx st1)) with k. lia. }
  { exact Hc. }
  { reflexivity. }
  { rewrite length_engine_writes, length_fresh.
    change (child_dst_len (req_ctx st1)) with (r_dst_len rs). lia. }
  { change (dst (req st1)) with (dst (req sts)).
    change (key_size (ctx st1)) with k. lia. }
  rewrite Hce in Hce'. injection Hce' as <-.
  change (key_size (ctx st1)) with k in Hsl, Hsd.
  change (child_dst_len (req_ctx st1)) with (r_dst_len rs) in Hsd.
  rewrite take_engine_writes in Hsd by (rewrite ?length_fresh; lia).
  rewrite (take_ge (r_out rs)) in Hsd by lia.
  rewrite <- Hreq in Hsl, Hsd.
  (* the verify side *)
  rewrite Hsl in Hslen, Hvsrc. rewrite Hsd in Hvsrc.
  assert (Hkv : key_size (ctx stv) = k) by (rewrite Hctx; reflexivity).
  pose proof (verify_submit PAGE_SIZE crypto_akcipher_verify ov stv kbv _
                ltac:(rewrite Hkv; exact Hk)
                ltac:(rewrite Hkv, Hslen; lia) ltac:(rewrite Hkv; exact Hpg)
                Hov Hvsrc) as Hsubv.
  cbv zeta in Hsubv. rewrite Hkv, Hctx in Hsubv.
  set (rv := crypto_akcipher_verify (child (ctx sts))
               (replicate (Z.to_nat (k - r_dst_len rs)) 0 ++ r_out rs) k
               (flags (req stv))) in *.
  match type of Hsubv with
  | _ = (if _ then _ else Some (_, ?s)) => set (sv1 := s) in *
  end.
  set (out := engine_writes (r_out rv) (fresh kbv k)).
  assert (Hlo : length out = Z.to_nat k).
  { subst out. rewrite length_engine_writes, length_fresh. reflexivity. }
  set (n := Z.to_nat (k - 3 - len - Z.of_nat (length der))).
  assert (Hblock : take (Z.to_nat (k - 1)) out
                   = [1] ++ replicate n 255 ++ [0] ++ (der ++ msg)).
  { subst out. rewrite take_engine_writes.
    - rewrite Hvout. unfold pad, sign_pad. fold n. rewrite <- !app_assoc.
      reflexivity.
    - apply (f_equal length) in Hvout. rewrite length_take in Hvout. lia.
    - rewrite length_fresh. lia. }
  destruct (pad_end_shape n (der ++ msg)) as (Hb0 & Hp & Hsep).
  assert (Hsv1k : key_size (ctx sv1) = k)
    by (subst sv1; cbn [after_call ctx]; exact Hkv).
  assert (Hob : out_buf (req_ctx sv1) = Some out).
  { subst sv1 out. cbn [after_call req_ctx out_buf]. rewrite Hkv.
    reflexivity. }
  assert (Hcomp : exists r s,
            pkcs1pad_verify_complete sv1 0 = Some (done (r, s)) /\
            dst_len (req s) = len /\ r = 0 /\
            take (Z.to_nat len) (dst (req s)) = msg).
  { destruct (verify_complete_accepts sv1 out (S n) di) as [Hfit Heq];
      rewrite ?Hsv1k; try (rewrite Hblock; assumption); try assumption;
      try lia.
    { subst sv1. cbn [after_call ctx]. rewrite Hctx. exact Hdi. }
    { rewrite Hblock. fold der.
      rewrite sign_block_drop, take_app_length. reflexivity. }
    fold der in Hfit, Heq. rewrite Hsv1k in Hfit. rewrite Heq.
    destruct (deliver_payload sv1 out
                (Z.of_nat (S n) + 1 + Z.of_nat (length der)))
      as (r & s & Hd & Hn & _ & _ & _ & _ & Hiff & Hcopy);
      rewrite ?Hsv1k; try lia; try assumption.
    rewrite Hd. cbn [mbind option_bind].
    cbv zeta in Hn, Hiff, Hcopy. rewrite Hsv1k in Hn, Hiff, Hcopy.
    assert (Hnl : k - 1 - (Z.of_nat (S n) + 1 + Z.of_nat (length der)) = len)
      by (unfold n; lia).
    rewrite Hnl in Hn, Hiff, Hcopy.
    assert (Hr0 : r = 0) by (apply Hiff; cbn [sv1 after_call req]; lia).
    exists r, s. split; [reflexivity|]. split; [exact Hn|]. split; [exact Hr0|].
    rewrite Hcopy; [| exact Hr0 | cbn [sv1 after_call req]; lia].
    rewrite Hblock.
    replace (Z.to_nat (Z.of_nat (S n) + 1 + Z.of_nat (length der)))
      with (length ([1] ++ replicate n 255 ++ [0] ++ der))
      by (rewrite !length_app, length_replicate; cbn [length]; lia).
    replace ([1] ++ replicate n 255 ++ [0] ++ der ++ msg)
      with (([1] ++ replicate n 255 ++ [0] ++ der) ++ msg)
      by (rewrite <- !app_assoc; reflexivity).
    apply drop_app_length. }
  destruct Hcomp as (r & s & Hcomp & Hsl' & -> & Hcopy).
  pose proof (perform_settled verify pkcs1pad_verify_complete
                pkcs1pad_verify_complete_cb ov stv sv1 rv 0
                (log EvKzfree (with_out_buf None s))
                (fun _ _ => eq_refl) Hsubv eq_refl) as Hpf.
  cbv zeta in Hpf. rewrite Hvset in Hpf.
  specialize (Hpf ltac:(discriminate) Hcomp eq_refl).
  eexists. split; [exact Hpf|].
  destruct (completes_now (rc rv) (flags (req stv))); split; assumption.
Qed.

(** ** Encrypt under a modulus of fewer than 11 bytes *)

Lemma u32_negative (x : Z) : - 2 ^ 32 <= x < 0 -> u32 x = x + 2 ^ 32.
Proof.
  intros H. unfold u32.
  replace x with (x + 2 ^ 32 + (-1) * 2 ^ 32) at 1 by lia.
  rewrite Z_mod_plus_full. apply Z.mod_small. lia.
Qed.

(** X17.  The bound k - 11 on the plaintext is computed in [unsigned
    int].  When the inner engine has reported a modulus size k below 11
    the subtraction wraps around to 2^32 + k - 11, so that the length
    check of encrypt lets every plaintext of up to that many bytes
    through, and a request with a large enough destination goes on to
    allocate.  For a plaintext of k - 1 bytes the working buffer is then
    allocated with 0 bytes, and the write of the block type 0x02 to its
    first byte is outside the allocation. *)
Theorem encrypt_small_modulus o (st : machine T) :
  wf_machine st ->
  let k := key_size (ctx st) in
  let n := src_len (req st) in
  0 < k < 11 -> k <= dst_len (req st) -> k <= PAGE_SIZE ->
  (n <= 2 ^ 32 + k - 11 ->
     proceeds (encrypt o st) st /\ forall e, ~ rejects (encrypt o st) e st) /\
  (n = k - 1 -> is_Some (in_alloc o) -> encrypt o st = None).
Proof.
  intros [Hk Hn Hd Hf] k n Hsmall Hdst Hpg. unfold is_u32 in *.
  fold k in Hk. fold n in Hn.
  assert (Hu : u32 (k - 11) = 2 ^ 32 + k - 11)
    by (rewrite u32_negative; lia).
  split.
  - intros Hlen.
    assert (Hp : proceeds (encrypt o st) st).
    { apply encrypt_proceeds; fold k n; try assumption; try lia. }
    split; [exact Hp|]. intros e. exact (proceeds_not_rejected _ _ _ Hp).
  - intros Hlen [ka Hka]. unfold pkcs1pad_encrypt. fold k n.
    rewrite Hu, Hka, Hlen.
    destruct (Z.eqb_spec k 0); [lia|].
    destruct (Z.ltb_spec (2 ^ 32 + k - 11) (k - 1)); [lia|].
    destruct (Z.ltb_spec (dst_len (req st)) k); [lia|].
    destruct (Z.ltb_spec PAGE_SIZE k); [lia|].
    replace (k - 1 - (k - 1)) with 0 by lia. reflexivity.
Qed.

(** ** Errors of the inner engine *)

Lemma completes_now_error (e fl : Z) :
  e <> - EINPROGRESS -> e <> - EBUSY -> completes_now e fl = true.
Proof.
  intros H1 H2. unfold completes_now.
  destruct (Z.eqb_spec e (- EINPROGRESS)); [contradiction|].
  destruct (Z.eqb_spec e (- EBUSY)); [contradiction|]. reflexivity.
Qed.

(** Under [ready], the bytes of [handed_over] are the bytes of the
    inner call, with the source length of the child request. *)
Lemma submit_hands_over op o (st : machine T) (bytes : list Z) :
  ready PAGE_SIZE op o st ->
  handed_over op o st = Some bytes ->
  exists pre csrc ib kb,
    let k := key_size (ctx st) in
    let rep := engine op (child (ctx st)) bytes k (flags (req st)) in
    let st1 := after_call st op pre csrc
                 (if pads op then k - 1 else src_len (req st))
                 ib kb bytes rep in
    Forall (fun e => exists n g, e = EvKmalloc n g) pre /\
    submit op o st =
      if completes_now (rc rep) (flags (req st))
      then complete_of op st1 (rc rep)
      else Some (rc rep, st1).
Proof.
  intros (Hwf & Hk & Hpg & [src_bytes Hsrc] & [kb Hout] & Hop) Hho.
  pose proof (wf_src_len _ Hwf) as [Hl0 _].
  unfold handed_over in Hho. rewrite Hsrc in Hho.
  cbn [mbind option_bind] in Hho.
  destruct op; cbn [pads].
  - injection Hho as <-.
    destruct Hop as (Hdst & (ka & Hin & Hoff) & Hlen).
    eexists _, _, _, _. cbv zeta. split; cycle 1.
    + apply (encrypt_submit PAGE_SIZE crypto_akcipher_encrypt o st ka kb
               src_bytes Hwf); try assumption; lia.
    + repeat constructor; eexists _, _; reflexivity.
  - injection Hho as <-. rewrite Hop in Hsrc |- *.
    eexists _, _, _, _. cbv zeta. split; cycle 1.
    + apply (decrypt_submit PAGE_SIZE crypto_akcipher_decrypt o st kb
               src_bytes); assumption.
    + repeat constructor; eexists _, _; reflexivity.
  - destruct Hop as (Hdst & (ka & Hin & Hoff) & (di & Hdi & Hlen)).
    rewrite Hdi in Hho. cbn [mbind option_bind] in Hho. injection Hho as <-.
    destruct (sign_digest PAGE_SIZE crypto_akcipher_sign st o di Hk Hdi)
      as [Hsign Hsz].
    eexists _, _, _, _. cbv zeta. split; cycle 1.
    + cbn [submit_of]. rewrite Hsign.
      apply (sign_with_submit PAGE_SIZE crypto_akcipher_sign o st ka kb
               src_bytes di Hwf); try assumption; lia.
    + repeat constructor; eexists _, _; reflexivity.
  - injection Hho as <-.
    eexists _, _, _, _. cbv zeta. split; cycle 1.
    + apply (verify_submit PAGE_SIZE crypto_akcipher_verify o st kb
               src_bytes); assumption.
    + repeat constructor; eexists _, _; reflexivity.
Qed.

(** X18.  An error of the inner engine reaches the caller.  Take a
    request that passes the checks of its operation and reaches the
    engine (source chain holding the bytes it announces, allocations
    granted), and let [bytes] be what it hands to the engine: the
    caller's source for decrypt and verify, the padded block followed by
    the source for encrypt and sign.  When the engine's answer on these
    bytes, returned from the call or reported later to the callback, is
    an error other than -EINPROGRESS and -EBUSY, the caller ends up
    with: that error, and [dst_len] set to the modulus size, for encrypt
    and sign; that error, except -EOVERFLOW for which the caller gets
    -EINVAL, and [dst_len] as it was, for decrypt and verify.  The
    request has then done its allocations, the one call of the engine on
    [bytes], the release of its buffers and, when the error came through
    the callback, the completion of the caller's request, and nothing
    else; the bytes of the caller's destination are untouched and the
    output buffer is released. *)
Theorem engine_error_reaches_caller (op : akcipher_op) (o : oracle)
    (st : machine T) (bytes : list Z) :
  ready PAGE_SIZE op o st ->
  handed_over op o st = Some bytes ->
  let k := key_size (ctx st) in
  let fl := flags (req st) in
  let rep := engine op (child (ctx st)) bytes k fl in
  let e := settled fl rep in
  let r := if pads op then e
           else if e =? - EOVERFLOW then - EINVAL else e in
  e <> 0 -> e <> - EINPROGRESS -> e <> - EBUSY ->
  exists (st' : machine T) (pre : list event),
    perform (submit op) (callback_of op) o st = Some (r, st') /\
    Forall (fun ev => exists n g, ev = EvKmalloc n g) pre /\
    trace st' =
      trace st ++ pre
      ++ [EvChild op bytes (if pads op then k - 1 else src_len (req st)) k]
      ++ (if pads op then [EvKfree; EvKzfree] else [EvKzfree])
      ++ (if completes_now (rc rep) fl then [] else [EvComplete r]) /\
    dst (req st') = dst (req st) /\
    dst_len (req st') = (if pads op then k else dst_len (req st)) /\
    out_buf (req_ctx st') = None.
Proof.
  intros Hready Hho.
  destruct (submit_hands_over op o st bytes Hready Hho)
    as (pre & csrc & ib & kb & Hpre & Heq).
  cbv zeta in Heq |- *.
  set (csl := if pads op then key_size (ctx st) - 1 else src_len (req st))
    in *.
  set (rep := engine op (child (ctx st)) bytes (key_size (ctx st))
                (flags (req st))) in *.
  set (st1 := after_call st op pre csrc csl ib kb bytes rep) in *.
  set (e := settled (flags (req st)) rep).
  intros He0 Hep Heb.
  assert (Hc : exists s,
            complete_of op st1 e
              = Some (if pads op then e
                      else if e =? - EOVERFLOW then - EINVAL else e, s) /\
            trace s = trace st1 ++ (if pads op then [EvKfree; EvKzfree]
                                    else [EvKzfree]) /\
            dst (req s) = dst (req st) /\
            dst_len (req s) = (if pads op then key_size (ctx st)
                               else dst_len (req st)) /\
            out_buf (req_ctx s) = None).
  { assert (Hpad : exists s,
              pkcs1pad_encrypt_sign_complete st1 e = Some (e, s) /\
              trace s = trace st1 ++ [EvKfree; EvKzfree] /\
              dst (req s) = dst (req st) /\
              dst_len (req s) = key_size (ctx st) /\
              out_buf (req_ctx s) = None).
    { unfold pkcs1pad_encrypt_sign_complete.
      destruct (Z.eqb_spec e 0); [contradiction|].
      cbn [mbind option_bind]. eexists. split; [reflexivity|].
      proj. rewrite <- app_assoc. repeat split; reflexivity. }
    assert (Hmap : negb ((if e =? - EOVERFLOW then - EINVAL else e) =? 0)
                   = true).
    { destruct (Z.eqb_spec e (- EOVERFLOW)); [reflexivity|].
      destruct (Z.eqb_spec e 0); [contradiction | reflexivity]. }
    destruct op; cbn [complete_of pads].
    - exact Hpad.
    - unfold pkcs1pad_decrypt_complete. rewrite Hmap.
      eexists. split; [reflexivity|]. unfold done. proj.
      repeat split; reflexivity.
    - exact Hpad.
    - unfold pkcs1pad_verify_complete. rewrite Hmap.
      eexists. split; [reflexivity|]. unfold done. proj.
      repeat split; reflexivity. }
  destruct Hc as (s & Hc & Htr & Hdst & Hlen & Hob).
  pose proof (perform_settled (submit op) (complete_of op) (callback_of op)
                o st st1 rep _ s (callback_eq op) Heq eq_refl Hep Hc) as Hperf.
  cbv zeta in Hperf. fold e in Hperf.
  assert (Hnow : completes_now
                   (if pads op then e
                    else if e =? - EOVERFLOW then - EINVAL else e)
                   (flags (req st)) = true).
  { destruct (pads op); [apply completes_now_error; assumption|].
    destruct (e =? - EOVERFLOW); [reflexivity|].
    apply completes_now_error; assumption. }
  specialize (Hperf Hnow).
  eexists _, pre. split; [exact Hperf|]. split; [exact Hpre|].
  assert (Hts : trace s =
            trace st ++ pre ++ [EvChild op bytes csl (key_size (ctx st))]
            ++ (if pads op then [EvKfree; EvKzfree] else [EvKzfree])).
  { rewrite Htr. subst st1. cbn [after_call trace].
    rewrite <- !app_assoc. reflexivity. }
  destruct (completes_now (rc rep) (flags (req st))).
  - rewrite app_nil_r. repeat split; assumption.
  - proj. rewrite Hts, <- !app_assoc. repeat split; assumption.
Qed.

End Further.

(** ** Registration *)

Lemma substring_all (s : string) : forall n : nat,
  (String.length s <= n)%nat -> substring 0 n s = s.
Proof.
  induction s as [|c s IH]; intros n Hn.
  - destruct n; reflexivity.
  - destruct n as [|n]; [cbn [String.length] in Hn; lia|].
    cbn [substring]. f_equal. apply IH. cbn [String.length] in Hn. lia.
Qed.

Lemma snprintf_fits (size : Z) (text : string) :
  (size <=? (snprintf size text).1) = false ->
  (snprintf size text).2 = text /\ Z.of_nat (String.length text) < size.
Proof.
  unfold snprintf. cbn [fst snd]. intros H. apply Z.leb_gt in H.
  split; [|exact H]. apply substring_all. lia.
Qed.

Section Registered.

Variable CRYPTO_MAX_ALG_NAME : Z.
Variable sizeof_pkcs1pad_ctx : Z.
Variable sizeof_pkcs1pad_request : Z.
Variable crypto_requires_sync : Z -> Z -> Z.

Local Abbreviation create :=
  (pkcs1pad_create CRYPTO_MAX_ALG_NAME sizeof_pkcs1pad_ctx
     sizeof_pkcs1pad_request crypto_requires_sync).

(** X15.  When [pkcs1pad_create] returns 0 it has registered one
    instance, built on the inner algorithm that [crypto_grab_akcipher]
    found for the first name: its name and its driver name are
    "pkcs1pad(<inner>)", or "pkcs1pad(<inner>,<hash>)" when a hash name
    was given, in full, since a name that does not fit in
    CRYPTO_MAX_ALG_NAME characters with its NUL makes the call fail; it
    takes over the ASYNC flag and the priority of the inner algorithm and
    adds the size of its own request to the inner one.  The hash name is
    not looked up in the DigestInfo table here.  The instance holds the
    copy of the hash name made by [kstrdup]: when that copy could not be
    allocated, the instance is registered all the same, under the name
    with the hash, and without a hash name in its context. *)
Theorem create_registers (e : create_env) (s : registry) :
  (forall err, crypto_get_attr_type e = inl err -> err <> 0) ->
  (forall err, attr_alg_name_1 e = inl err -> err <> 0) ->
  create e = (0, s) ->
  exists type mask rsa_name rsa_alg inst,
    let h := requested_hash e in
    crypto_get_attr_type e = inr (type, mask) /\
    Z.land (Z.lxor type CRYPTO_ALG_TYPE_AKCIPHER) mask = 0 /\
    attr_alg_name_1 e = inr rsa_name /\
    crypto_grab_akcipher e rsa_name 0 (crypto_requires_sync type mask)
      = (0, rsa_alg) /\
    registered s = Some inst /\ akcipher_register_instance e inst = 0 /\
    cra_name (alg inst) = pkcs1pad_name (cra_name rsa_alg) h /\
    cra_driver_name (alg inst) = pkcs1pad_name (cra_driver_name rsa_alg) h /\
    Z.of_nat (String.length (cra_name (alg inst))) < CRYPTO_MAX_ALG_NAME /\
    Z.of_nat (String.length (cra_driver_name (alg inst)))
      < CRYPTO_MAX_ALG_NAME /\
    cra_flags (alg inst) = Z.land (cra_flags rsa_alg) CRYPTO_ALG_ASYNC /\
    cra_priority (alg inst) = cra_priority rsa_alg /\
    cra_ctxsize (alg inst) = sizeof_pkcs1pad_ctx /\
    reqsize (alg inst) = sizeof_pkcs1pad_request + reqsize rsa_alg /\
    inst_hash_name inst = (if kstrdup_name e then h else None) /\
    inst_allocated s = true /\ spawn_grabbed s = true /\
    name_allocated s = bool_decide (is_Some (inst_hash_name inst)).
Proof.
  intros Htype Hname H. unfold pkcs1pad_create in H. cbv zeta in H.
  unfold requested_hash.
  destruct (crypto_get_attr_type e) as [terr|[type mask]] eqn:Hty.
  { injection H as H _. exfalso. exact (Htype _ eq_refl H). }
  destruct (Z.eqb_spec (Z.land (Z.lxor type CRYPTO_ALG_TYPE_AKCIPHER) mask) 0)
    as [Hmask|_]; cbn [negb] in H; [|discriminate H].
  destruct (attr_alg_name_1 e) as [nerr|rsa_name] eqn:Hn1.
  { injection H as H _. exfalso. exact (Hname _ eq_refl H). }
  destruct (kzalloc_inst e); cbn [negb] in H; [|discriminate H].
  destruct (crypto_grab_akcipher e rsa_name 0 (crypto_requires_sync type mask))
    as [gerr rsa_alg] eqn:Hgrab.
  destruct (Z.eqb_spec gerr 0) as [->|Hg]; cbn [negb] in H; cycle 1.
  { unfold out_free_inst in H. injection H as H _. contradiction. }
  exists type, mask, rsa_name, rsa_alg.
  destruct (attr_alg_name_2 e) as [herr|hn].
  - (* no hash name *)
    destruct (_ || _) eqn:Hfit in H;
      [unfold out_drop_alg, out_free_inst in H; discriminate H|].
    apply orb_false_iff in Hfit as [Hfa Hfb].
    apply snprintf_fits in Hfa as [Hna Hla].
    apply snprintf_fits in Hfb as [Hnb Hlb].
    rewrite Hna, Hnb in H.
    match type of H with
    | (if negb (?r =? 0) then _ else _) = _ =>
        destruct (Z.eqb_spec r 0) as [Hreg|Hreg]; cbn [negb] in H;
        [|unfold out_free_hash, out_drop_alg, out_free_inst in H;
          injection H as H _; contradiction]
    end.
    injection H as <-. eexists. cbv zeta.
    cbn [registered alg inst_hash_name cra_name cra_driver_name cra_flags
         cra_priority cra_ctxsize reqsize inst_allocated spawn_grabbed
         name_allocated pkcs1pad_name].
    repeat split; try reflexivity; try assumption.
    destruct (kstrdup_name e); reflexivity.
  - (* a hash name *)
    destruct (_ || _) eqn:Hfit in H;
      [unfold out_free_hash, out_drop_alg, out_free_inst in H; discriminate H|].
    apply orb_false_iff in Hfit as [Hfa Hfb].
    apply snprintf_fits in Hfa as [Hna Hla].
    apply snprintf_fits in Hfb as [Hnb Hlb].
    rewrite Hna, Hnb in H.
    match type of H with
    | (if negb (?r =? 0) then _ else _) = _ =>
        destruct (Z.eqb_spec r 0) as [Hreg|Hreg]; cbn [negb] in H;
        [|unfold out_free_hash, out_drop_alg, out_free_inst in H;
          injection H as H _; contradiction]
    end.
    injection H as <-. eexists. cbv zeta.
    cbn [registered alg inst_hash_name cra_name cra_driver_name cra_flags
         cra_priority cra_ctxsize reqsize inst_allocated spawn_grabbed
         name_allocated pkcs1pad_name].
    repeat split; try reflexivity; try assumption.
    destruct (kstrdup_name e); reflexivity.
Qed.

(** X16.  When [pkcs1pad_create] fails, whatever the step that failed,
    it has registered nothing, it has released the instance if it had
    allocated it, and it has dropped the inner algorithm if it had
    grabbed it.  The copy of the hash name is released on the two
    failures that come after [crypto_grab_akcipher] (a name that is too
    long, a registration that fails); it is still allocated after the
    call exactly when [crypto_grab_akcipher] itself fails on a request
    that named a hash, whose copy had been made: that path frees the
    instance only. *)
Theorem create_failure_releases (e : create_env) (err : Z) (s : registry) :
  create e = (err, s) -> err <> 0 ->
  registered s = None /\ inst_allocated s = false /\ spawn_grabbed s = false /\
  (name_allocated s = true <->
     exists type mask rsa_name h,
       crypto_get_attr_type e = inr (type, mask) /\
       Z.land (Z.lxor type CRYPTO_ALG_TYPE_AKCIPHER) mask = 0 /\
       attr_alg_name_1 e = inr rsa_name /\
       attr_alg_name_2 e = inr h /\
       kzalloc_inst e = true /\ kstrdup_name e = true /\
       (crypto_grab_akcipher e rsa_name 0
          (crypto_requires_sync type mask)).1 = err).
Proof.
  intros H Herr. unfold pkcs1pad_create in H. cbv zeta in H.
  destruct (crypto_get_attr_type e) as [terr|[type mask]] eqn:Hty.
  { injection H as <- <-. cbn. repeat split; try discriminate.
    intros (? & ? & ? & ? & Hc & _). discriminate Hc. }
  destruct (Z.eqb_spec (Z.land (Z.lxor type CRYPTO_ALG_TYPE_AKCIPHER) mask) 0)
    as [Hmask|Hmask]; cbn [negb] in H; cycle 1.
  { injection H as <- <-. cbn. repeat split; try discriminate.
    intros (? & ? & ? & ? & [= <- <-] & Hc & _). contradiction. }
  destruct (attr_alg_name_1 e) as [nerr|rsa_name] eqn:Hn1.
  { injection H as <- <-. cbn. repeat split; try discriminate.
    intros (? & ? & ? & ? & _ & _ & Hc & _). discriminate Hc. }
  destruct (kzalloc_inst e) eqn:Hkz; cbn [negb] in H; cycle 1.
  { injection H as <- <-. cbn. repeat split; try discriminate.
    intros (? & ? & ? & ? & _ & _ & _ & _ & Hc & _). discriminate Hc. }
  destruct (crypto_grab_akcipher e rsa_name 0 (crypto_requires_sync type mask))
    as [gerr rsa_alg] eqn:Hgrab.
  destruct (Z.eqb_spec gerr 0) as [->|Hg]; cbn [negb] in H; cycle 1.
  { (* crypto_grab_akcipher fails *)
    unfold out_free_inst in H. injection H as <- <-.
    cbn [registered inst_allocated spawn_grabbed name_allocated].
    repeat split.
    - intros Hna. exists type, mask, rsa_name.
      destruct (attr_alg_name_2 e) as [herr|h]; [discriminate Hna|].
      exists h. destruct (kstrdup_name e); [|discriminate Hna].
      rewrite Hgrab. repeat split; reflexivity || assumption.
    - intros (? & ? & ? & h & _ & _ & _ & -> & _ & -> & _). reflexivity. }
  match goal with
  | |- _ /\ _ /\ _ /\ (_ <-> ?R) => assert (Hno : ~ R)
  end.
  { intros (? & ? & ? & ? & [= <- <-] & _ & [= <-] & _ & _ & _ & Hc).
    rewrite Hgrab in Hc. cbn [fst] in Hc. congruence. }
  destruct (attr_alg_name_2 e) as [herr|hn].
  - destruct (_ || _) in H.
    { unfold out_drop_alg, out_free_inst in H. injection H as <- <-.
      cbn [registered inst_allocated spawn_grabbed name_allocated].
      repeat split; [discriminate | intros Hc; contradiction]. }
    match type of H with
    | (if negb (?r =? 0) then _ else _) = _ =>
        destruct (Z.eqb_spec r 0) as [Hreg|Hreg]; cbn [negb] in H
    end.
    { injection H as <- _. contradiction. }
    unfold out_free_hash, out_drop_alg, out_free_inst in H.
    injection H as <- <-.
    cbn [registered inst_allocated spawn_grabbed name_allocated].
    repeat split; [discriminate | intros Hc; contradiction].
  - destruct (_ || _) in H.
    { unfold out_free_hash, out_drop_alg, out_free_inst in H.
      injection H as <- <-.
      cbn [registered inst_allocated spawn_grabbed name_allocated].
      repeat split; [discriminate | intros Hc; contradiction]. }
    match type of H with
    | (if negb (?r =? 0) then _ else _) = _ =>
        destruct (Z.eqb_spec r 0) as [Hreg|Hreg]; cbn [negb] in H
    end.
    { injection H as <- _. contradiction. }
    unfold out_free_hash, out_drop_alg, out_free_inst in H.
    injection H as <- <-.
    cbn [registered inst_allocated spawn_grabbed name_allocated].
    repeat split; [discriminate | intros Hc; contradiction].
Qed.

End Registered.

(** * The further properties on concrete requests *)

(** X2 on the entry of sha256, whose prefix has 19 bytes. *)
Lemma digest_info_is_der_witness :
  exists (oid : list Z) (digest_len : Z),
    rsa_digest_info_sha256
    = [0x30; 19 - 2 + digest_len; 0x30; Z.of_nat (length oid) + 4; 0x06;
       Z.of_nat (length oid)] ++ oid ++ [0x05; 0x00; 0x04; digest_len] /\
    0 < digest_len.
Proof.
  destruct (digest_info_is_der (mk_template "sha256" rsa_digest_info_sha256))
    as (oid & dl & Hdata & _ & Hpos & _).
  { do 3 apply list_elem_of_further. apply list_elem_of_here. }
  exists oid, dl. split; [exact Hdata | exact Hpos].
Defined.

(** X3 on a key of 256 bytes, and on a key that the inner engine
    refuses while a modulus of 128 bytes is cached. *)
Lemma get_max_size_follows_set_key_witness :
  pkcs1pad_get_max_size
    (pkcs1pad_set_pub_key toy_set_key (toy_maxsize 256) (toy_ctx 0 None) [] 0).2
  = 256 /\
  pkcs1pad_get_max_size
    (pkcs1pad_set_priv_key toy_set_key_refused (toy_maxsize 256)
       (toy_ctx 128 None) [] 0).2
  = 128.
Proof.
  assert (Hint : is_int (toy_maxsize 256 tt))
    by (unfold is_int, toy_maxsize; lia).
  split.
  - destruct (get_max_size_follows_set_key toy_set_key toy_set_key
                (toy_maxsize 256) false (toy_ctx 0 None) [] 0 0 tt)
      as (_ & H & _); [unfold is_u32; cbn; lia | exact Hint | reflexivity |].
    apply H; [reflexivity | unfold toy_maxsize; lia].
  - destruct (get_max_size_follows_set_key toy_set_key toy_set_key_refused
                (toy_maxsize 256) true (toy_ctx 128 None) [] 0 (- EINVAL) tt)
      as (H & _); [unfold is_u32; cbn; lia | exact Hint | reflexivity |].
    destruct H as [_ H]; [discriminate|]. exact H.
Defined.

(** X4 on a buffer of 12 bytes that starts 6 bytes before the end of
    its page: two segments of 6 bytes. *)
Lemma sg_set_buf_pages_witness :
  exists s0 s1 : list Z,
    pkcs1pad_sg_set_buf toy_page 4090 (replicate 12 0x5a) 12 None = [s0; s1] /\
    s0 ++ s1 = replicate 12 0x5a /\ Z.of_nat (length s0) <= 6.
Proof.
  destruct (sg_set_buf_pages toy_page 4090 12 (replicate 12 0x5a) None)
    as (segs & Heq & Hcat & _ & _ & Hpage);
    [unfold toy_page; lia | cbn; lia |].
  destruct (Hpage ltac:(unfold toy_page; lia)) as [H0 _].
  exists (replicate 6 0x5a), (replicate 6 0x5a).
  assert (Hsegs : segs = [replicate 6 0x5a; replicate 6 0x5a]).
  { rewrite app_nil_r in Heq. rewrite <- Heq. reflexivity. }
  split; [rewrite Heq, Hsegs; reflexivity|]. split; [reflexivity|].
  specialize (H0 (replicate 6 0x5a)). rewrite Hsegs in H0.
  specialize (H0 eq_refl). unfold toy_page in H0. lia.
Defined.

Ltac validated_now :=
  unfold validated; cbn -[Z.pow];
  repeat match goal with
  | |- _ /\ _ => split
  | |- wf_machine _ => wf_now
  | |- exists _, _ => eexists
  | |- _ = _ => reflexivity
  | |- _ =>
      unfold toy_page;
      cbn [from_option size mk_template length rsa_digest_info_sha256];
      lia
  end.

(** X6 on a block of type 0x01 handed to the post-processing of
    decrypt: -EINVAL, the request as it was, the output buffer
    released. *)
Lemma unpad_failure_keeps_destination_witness :
  let st := toy_completing 16 None (toy_block_signature ++ [0x6b]) 15
              (replicate 16 0xee) 16 in
  exists st', pkcs1pad_decrypt_complete st 0 = Some (- EINVAL, st') /\
    req st' = req st /\ out_buf (req_ctx st') = None.
Proof.
  cbv zeta.
  set (st := toy_completing 16 None (toy_block_signature ++ [0x6b]) 15
               (replicate 16 0xee) 16).
  destruct (unpad_failure_keeps_destination OpDecrypt st
              (log EvKzfree (with_out_buf None st)) 0 (- EINVAL)
              (or_introl eq_refl) eq_refl)
    as (Hob & _ & _ & _ & _ & _ & Hreq & _).
  eexists. split; [reflexivity|]. split; [|exact Hob].
  apply Hreq; discriminate.
Defined.

(** X7 on the encryption of "ABC": nothing is left allocated. *)
Lemma working_buffers_released_witness : released toy_encrypted.
Proof.
  destruct (working_buffers_released toy_page toy_public toy_private
              toy_public toy_private OpEncrypt toy_oracle toy_plain)
    as [_ H].
  { split; reflexivity. }
  apply (H 0). vm_compute. reflexivity.
Defined.

(** X8 on the encryption of "ABC" when the output buffer cannot be
    allocated: the padded block of 12 bytes is released again. *)
Lemma allocation_failure_witness :
  exists st',
    pkcs1pad_encrypt toy_page toy_public toy_oracle_short toy_plain
      = Some (- ENOMEM, st') /\
    released st' /\
    trace st' = [EvKmalloc 12 GFP_ATOMIC; EvKmalloc 16 GFP_ATOMIC; EvKfree].
Proof.
  destruct (allocation_failure toy_page toy_public toy_private toy_public
              toy_private OpEncrypt toy_oracle_short toy_plain)
    as (st' & Hsub & _ & _ & Hrel & _ & Htr).
  - validated_now.
  - split; reflexivity.
  - right. reflexivity.
  - exists st'. split; [exact Hsub|]. split; [exact Hrel | exact Htr].
Defined.

(** X9 under a 128-byte modulus with sha256, whose prefix has 19
    bytes: a message of 99 bytes is rejected, "hello" goes on. *)
Lemma sign_validation_witness :
  let st := toy_request 128 (Some "sha256"%string) (replicate 99 0)
              (replicate 128 0) 99 128 0 in
  rejects (pkcs1pad_sign toy_page toy_public toy_oracle st) EOVERFLOW st /\
  proceeds (pkcs1pad_sign toy_page toy_public toy_oracle toy_hello) toy_hello.
Proof.
  cbv zeta. split.
  - destruct (sign_validation toy_page toy_public toy_oracle
                (toy_request 128 (Some "sha256"%string) (replicate 99 0)
                   (replicate 128 0) 99 128 0)
                (Some (mk_template "sha256" rsa_digest_info_sha256)))
      as (_ & H); [wf_now|].
    destruct H as (H & _); [toy_arith | reflexivity | toy_arith |].
    apply H. cbn. lia.
  - destruct (sign_validation toy_page toy_public toy_oracle toy_hello
                (Some (mk_template "sha256" rsa_digest_info_sha256)))
      as (_ & H); [wf_now|].
    destruct H as (_ & _ & _ & H & _); [toy_arith | reflexivity | toy_arith |].
    apply H; cbn; unfold toy_page; lia.
Defined.

(** X10 on the decryption of the toy ciphertext, which the engine
    completes later: one allocation, one call, the release, and the
    caller's callback with 0. *)
Lemma one_call_then_release_witness :
  exists (pre : list event) (bytes : list Z) (csl : Z),
    Forall (fun e => exists n g, e = EvKmalloc n g) pre /\
    trace toy_decrypted
    = pre ++ [EvChild OpDecrypt bytes csl 16; EvKzfree; EvComplete 0].
Proof.
  destruct (one_call_then_release toy_page toy_public toy_private toy_public
              toy_private OpDecrypt toy_oracle toy_cipher toy_decrypted 0)
    as (pre & bytes & csl & Hpre & Htr).
  - ready_now.
  - vm_compute. reflexivity.
  - exists pre, bytes, csl. split; [exact Hpre | exact Htr].
Defined.

(** X11 on the signature block of "hello" without a DigestInfo: the
    five bytes behind the separator are delivered. *)
Lemma verify_complete_delivers_witness :
  let st := toy_completing 16 None (toy_block_signature ++ [0x6b]) 15
              (replicate 16 0) 16 in
  exists st', pkcs1pad_verify_complete st 0 = Some (0, st') /\
    dst_len (req st') = 5 /\
    take 5 (dst (req st')) = [0x68; 0x65; 0x6c; 0x6c; 0x6f].
Proof.
  cbv zeta.
  destruct (verify_complete_delivers
              (toy_completing 16 None (toy_block_signature ++ [0x6b]) 15
                 (replicate 16 0) 16)
              (toy_block_signature ++ [0x6b]) 9 None)
    as (r & st' & Hres & _ & Hlen & _ & Hiff & Hcopy);
    try reflexivity; try toy_arith.
  assert (Hr : r = 0) by (apply Hiff; cbn; lia).
  rewrite Hr in Hres. exists st'. split; [exact Hres|]. split; [exact Hlen|].
  apply (Hcopy Hr). cbn. lia.
Defined.

(** X12 on a transform with md5, whose prefix has 18 bytes, and an
    output buffer that ends 6 bytes behind the separator. *)
Lemma verify_complete_reads_past_buffer_witness :
  pkcs1pad_verify_complete
    (toy_completing 16 (Some "md5"%string) toy_block_cut_digest 15
       (replicate 16 0) 16) 0
  = None.
Proof.
  apply (verify_complete_reads_past_buffer
           (toy_completing 16 (Some "md5"%string) toy_block_cut_digest 15
              (replicate 16 0) 16)
           toy_block_cut_digest 9 "md5"
           (mk_template "md5" rsa_digest_info_md5)
           (drop 6 rsa_digest_info_md5));
    try reflexivity; try toy_arith; try discriminate.
Defined.

(** X13 on a block signed with sha1 and verified on a transform with
    sha256. *)
Lemma verify_rejects_other_digest_witness :
  let st := toy_completing 32 (Some "sha256"%string) toy_block_sha1 31
              (replicate 32 0) 32 in
  pkcs1pad_verify_complete st 0 = Some (done (- EBADMSG, st)).
Proof.
  cbv zeta.
  apply (verify_rejects_other_digest
           (toy_completing 32 (Some "sha256"%string) toy_block_sha1 31
              (replicate 32 0) 32)
           toy_block_sha1 "sha256"
           (mk_template "sha1" rsa_digest_info_sha1)
           (mk_template "sha256" rsa_digest_info_sha256) 2 [0x68; 0x69]);
    try reflexivity; try toy_arith.
  - apply list_elem_of_further, list_elem_of_here.
  - discriminate.
  - cbn. lia.
Defined.

(** X14 on "hello" signed with sha256 under a 128-byte modulus:
    verify of what sign left in its destination delivers "hello". *)
Lemma verify_inverts_sign_witness :
  exists stv',
    perform (pkcs1pad_verify toy_page toy_private)
            pkcs1pad_verify_complete_cb toy_oracle toy_signature
    = Some (0, stv') /\
    dst_len (req stv') = 5 /\
    take 5 (dst (req stv')) = [0x68; 0x65; 0x6c; 0x6c; 0x6f].
Proof.
  apply (verify_inverts_sign toy_page toy_public toy_private toy_oracle
           toy_oracle toy_hello toy_signed toy_signature
           [0x68; 0x65; 0x6c; 0x6c; 0x6f]).
  - ready_now.
  - reflexivity.
  - vm_compute. discriminate.
  - apply toy_inner_inverts. toy_arith.
  - vm_compute. reflexivity.
  - reflexivity.
  - vm_compute. reflexivity.
  - vm_compute. reflexivity.
  - eexists. reflexivity.
  - vm_compute. split; discriminate.
Defined.

(** X15 on the creation of "pkcs1pad(rsa,sha256)" when the copy of the
    hash name cannot be allocated: the instance is registered under that
    name, without a hash name. *)
Lemma create_registers_witness :
  exists (s : registry) (inst : akcipher_instance),
    toy_create (toy_env 0 false) = (0, s) /\
    registered s = Some inst /\
    cra_name (alg inst) = "pkcs1pad(rsa,sha256)"%string /\
    cra_driver_name (alg inst) = "pkcs1pad(rsa-generic,sha256)"%string /\
    inst_hash_name inst = None.
Proof.
  eexists. 
  destruct (create_registers 64 24 160 (fun _ _ => 0) (toy_env 0 false)
              (toy_create (toy_env 0 false)).2)
    as (type & mask & rsa_name & rsa_alg & inst & _ & _ & _ & Hgrab & Hreg & _
        & Hn & Hd & _ & _ & _ & _ & _ & _ & Hh & _).
  - intros err H. discriminate H.
  - intros err H. discriminate H.
  - reflexivity.
  - exists inst. cbv zeta in Hn, Hd, Hh.
    injection Hgrab as <-.
    split; [reflexivity|]. split; [exact Hreg|].
    split; [exact Hn|]. split; [exact Hd | exact Hh].
Defined.

(** X16 on the creation of "pkcs1pad(rsa,sha256)" when no algorithm
    "rsa" is found (-ENOENT): the copy of the hash name is still
    allocated when the call returns. *)
Lemma create_failure_releases_witness :
  exists s : registry,
    toy_create (toy_env (- 2) true) = (- 2, s) /\
    inst_allocated s = false /\ name_allocated s = true.
Proof.
  eexists. split; [reflexivity|].
  destruct (create_failure_releases 64 24 160 (fun _ _ => 0)
              (toy_env (- 2) true) (- 2)
              (toy_create (toy_env (- 2) true)).2 eq_refl)
    as (_ & Hinst & _ & Hname); [discriminate|].
  split; [exact Hinst|]. apply Hname.
  exists CRYPTO_ALG_TYPE_AKCIPHER, 0x0f, "rsa"%string, "sha256"%string.
  repeat split.
Defined.

(** X17 on a modulus of 8 bytes and a plaintext of 7. *)
Lemma encrypt_small_modulus_witness :
  pkcs1pad_encrypt toy_page toy_public toy_oracle
    (toy_request 8 None (replicate 7 0x41) (replicate 8 0) 7 8 0)
  = None.
Proof.
  destruct (encrypt_small_modulus toy_page toy_public toy_oracle
              (toy_request 8 None (replicate 7 0x41) (replicate 8 0) 7 8 0))
    as [_ H]; try toy_arith; [wf_now|].
  apply H; [reflexivity | eexists; reflexivity].
Defined.

(** X18 on a decryption whose engine reports -EOVERFLOW through the
    callback: the caller ends up with -EINVAL and an untouched
    destination, after one call of the engine on the 16 bytes of the
    source. *)
Lemma engine_error_reaches_caller_witness :
  exists st',
    perform (pkcs1pad_decrypt toy_page toy_overflowing)
            pkcs1pad_decrypt_complete_cb toy_oracle toy_cipher
    = Some (- EINVAL, st') /\
    trace st' = [EvKmalloc 16 GFP_ATOMIC;
                 EvChild OpDecrypt (take 16 (dst (req toy_encrypted))) 16 16;
                 EvKzfree; EvComplete (- EINVAL)] /\
    dst (req st') = dst (req toy_cipher).
Proof.
  assert (Hready : ready toy_page OpDecrypt toy_oracle toy_cipher)
    by ready_now.
  assert (Hho : handed_over OpDecrypt toy_oracle toy_cipher
                = Some (take 16 (dst (req toy_encrypted))))
    by (vm_compute; reflexivity).
  destruct (engine_error_reaches_caller toy_page toy_public toy_overflowing
              toy_public toy_private OpDecrypt toy_oracle toy_cipher
              (take 16 (dst (req toy_encrypted))) Hready Hho)
    as (st' & pre & Hperf & Hpre & Htr & Hdst & _); try discriminate.
  exists st'. split; [exact Hperf|]. split; [|exact Hdst].
  vm_compute in Hperf. injection Hperf as <-. vm_compute. reflexivity.
Defined.
